(** * whatsapp-vectorDB: the embed / upsert / query pipeline

    A shallow embedding of the three Go packages of the repository
    ([embed], [upsert] and [main]) together with the properties of
    their per-line bookkeeping and of the calls they issue.

    Go strings are byte strings ([string]), [float64] is the primitive
    binary64 type [float], Go maps are [gmap]s.  The remote services,
    the disk and the terminal are an explicit world that every function
    threads through. *)

From Stdlib Require Import Floats ZArith Ascii String DecimalString DecimalNat DecimalFacts.
From stdpp Require Import gmap strings list.

Set Warnings "-register-all,-inexact-float".

Open Scope string_scope.
Open Scope list_scope.

(** ** Byte classes and strings *)

(** The character behind the Go escape [\n]. *)
Definition LF : ascii := "010"%char.

(** RE2's [\s] is the ASCII class [\t\n\f\r ]. *)
Definition is_space (c : ascii) : bool :=
  match nat_of_ascii c with
  | 9 | 10 | 12 | 13 | 32 => true
  | _ => false
  end.

(** [\S] *)
Definition non_space (c : ascii) : bool := negb (is_space c).

(** [.] without the [s] flag: anything but a line feed. *)
Definition any_char (c : ascii) : bool := negb (Ascii.eqb c LF).

Definition is_byte (a : ascii) (c : ascii) : bool := Ascii.eqb c a.

(** [s[i:j]] *)
Definition slice (s : string) (i j : nat) : string := substring i (j - i) s.

(** [s[:n]] and [s[n:]], the whole and nothing when [n] is past the
    end. *)
Fixpoint str_take (n : nat) (s : string) : string :=
  match n, s with
  | S n', String c s' => String c (str_take n' s')
  | _, _ => EmptyString
  end.

Fixpoint str_drop (n : nat) (s : string) : string :=
  match n, s with
  | S n', String c s' => str_drop n' s'
  | _, _ => s
  end.

(** Every byte of the string is in the class. *)
Fixpoint all_bytes (p : ascii -> bool) (s : string) : bool :=
  match s with
  | String c s' => p c && all_bytes p s'
  | EmptyString => true
  end.

(** The string is empty or begins with a byte outside the class. *)
Definition stops (p : ascii -> bool) (s : string) : bool :=
  match s with
  | String c _ => negb (p c)
  | EmptyString => true
  end.

(** The string of the bytes of the given values. *)
Definition bytes (l : list nat) : string :=
  fold_right (fun n s => String (ascii_of_nat n) s) EmptyString l.

(** ** The regular expression of the line parser

    [regexp.MustCompile] of [embed.CreateEmbeddingFile] is given as
    syntax; every quantifier of that expression ranges over a class of
    single bytes, which keeps the matcher structurally recursive.
    Matching is by bytes: all bytes of a multi-byte rune are outside
    [\s], differ from the line feed and from every ASCII literal of the
    expression, so the byte offsets are those of a match by runes. *)

Inductive regex : Type :=
| Bol                                  (* ^ *)
| Byte (p : ascii -> bool)             (* one byte of the class *)
| StarG (p : ascii -> bool)            (* p*   greedy *)
| StarL (p : ascii -> bool)            (* p*?  lazy *)
| OptG (p : ascii -> bool)             (* p?   greedy *)
| Seq (r1 r2 : regex)
| Alt (r1 r2 : regex)                  (* r1|r2, r1 preferred *)
| Group (r : regex).                   (* the capturing group *)

(** Offsets of the capturing group, when it took part in the match. *)
Definition capture := option (nat * nat).

Section Matcher.
Context {R : Type}.

(** Greedy repetition: take a byte when possible, give it back when
    the rest of the expression then fails. *)
Fixpoint star_greedy (p : ascii -> bool) (pos : nat) (s : string)
    (k : nat -> string -> option R) : option R :=
  match s with
  | String c s' =>
      if p c then
        match star_greedy p (S pos) s' k with
        | Some r => Some r
        | None => k pos s
        end
      else k pos s
  | EmptyString => k pos s
  end.

(** Lazy repetition: try the rest of the expression first. *)
Fixpoint star_lazy (p : ascii -> bool) (pos : nat) (s : string)
    (k : nat -> string -> option R) : option R :=
  match k pos s with
  | Some r => Some r
  | None =>
      match s with
      | String c s' => if p c then star_lazy p (S pos) s' k else None
      | EmptyString => None
      end
  end.

(** A backtracking matcher in continuation style; [pos] is the offset
    of [s] in the searched text. *)
Fixpoint exec (r : regex) (pos : nat) (s : string) (cap : capture)
    (k : nat -> string -> capture -> option R) : option R :=
  match r with
  | Bol => if Nat.eqb pos 0 then k pos s cap else None
  | Byte p =>
      match s with
      | String c s' => if p c then k (S pos) s' cap else None
      | EmptyString => None
      end
  | StarG p => star_greedy p pos s (fun pos' s' => k pos' s' cap)
  | StarL p => star_lazy p pos s (fun pos' s' => k pos' s' cap)
  | OptG p =>
      match s with
      | String c s' =>
          if p c then
            match k (S pos) s' cap with
            | Some r => Some r
            | None => k pos s cap
            end
          else k pos s cap
      | EmptyString => k pos s cap
      end
  | Seq r1 r2 =>
      exec r1 pos s cap (fun pos' s' cap' => exec r2 pos' s' cap' k)
  | Alt r1 r2 =>
      match exec r1 pos s cap k with
      | Some r => Some r
      | None => exec r2 pos s cap k
      end
  | Group r1 =>
      exec r1 pos s cap (fun pos' s' _ => k pos' s' (Some (pos, pos')))
  end.
End Matcher.

(** A match anchored at [pos]: where it ends and what the group took. *)
Definition match_at (r : regex) (pos : nat) (s : string) : option (nat * capture) :=
  exec r pos s None (fun e _ cap => Some (e, cap)).

(** The leftmost match: the first offset at which [match_at] succeeds. *)
Fixpoint search (r : regex) (pos : nat) (s : string) : option (nat * nat * capture) :=
  match match_at r pos s with
  | Some (e, cap) => Some (pos, e, cap)
  | None =>
      match s with
      | String _ s' => search r (S pos) s'
      | EmptyString => None
      end
  end.

(** [re.FindStringSubmatch] for an expression with one group: nil when
    nothing matches, else the match followed by the group's text. *)
Definition FindStringSubmatch (r : regex) (text : string) : list string :=
  match search r 0 text with
  | None => []
  | Some (b, e, cap) =>
      [ slice text b e;
        match cap with
        | Some (gb, ge) => slice text gb ge
        | None => ""
        end ]
  end.

(** [\]\s*:\s*~?], the separator with what may follow it. *)
Definition re_after_bracket : regex :=
  Seq (Byte (is_byte "]"))
   (Seq (StarG is_space)
    (Seq (Byte (is_byte ":"))
     (Seq (StarG is_space) (OptG (is_byte "~"))))).

(** The prefix alternative [\[.*?\]\s*:\s*~?] of the expression. *)
Definition re_prefix : regex :=
  Seq (Byte (is_byte "[")) (Seq (StarL any_char) re_after_bracket).

(** [\S+] *)
Definition re_token : regex := Seq (Byte non_space) (StarG non_space).

(** [(?:\[.*?\]\s*:\s*~?|^)(\S+)] *)
Definition re : regex := Seq (Alt re_prefix Bol) (Group re_token).

(** The outcome of the parsing step of one line: the message handed to
    the embedding client, whether the parse-failure branch ran, and
    [len(matches)]. *)
Record parsed := { message : string; parse_failed : bool; matched : nat }.

(** The [matches] dispatch in the loop of [CreateEmbeddingFile]. *)
Definition parse_line (line : string) : parsed :=
  let matches := FindStringSubmatch re line in
  if Nat.eqb (length matches) 3 then
    {| message := nth 2 matches ""; parse_failed := false; matched := length matches |}
  else if Nat.eqb (length matches) 2 then
    {| message := nth 1 matches ""; parse_failed := false; matched := length matches |}
  else
    {| message := ""; parse_failed := true; matched := length matches |}.

Definition example_line : string := "[09.09.23, 14:35:02] ~ john_doe: Hello world!".

(** *** Plain descriptions of lines, to state what the parser does *)

Fixpoint take_while (p : ascii -> bool) (s : string) : string :=
  match s with
  | String c s' => if p c then String c (take_while p s') else EmptyString
  | EmptyString => EmptyString
  end.

Fixpoint drop_while (p : ascii -> bool) (s : string) : string :=
  match s with
  | String c s' => if p c then drop_while p s' else s
  | EmptyString => EmptyString
  end.

(** The first whitespace-delimited token of a line; empty when the line
    has none. *)
Definition first_token (line : string) : string :=
  take_while non_space (drop_while is_space line).

(** After optional blanks the text goes on with a colon. *)
Definition colon_follows (s : string) : bool :=
  match drop_while is_space s with
  | String c _ => is_byte ":" c
  | EmptyString => false
  end.

(** The separator the expression recognises: a closing bracket and,
    after optional blanks, a colon. *)
Fixpoint has_separator (s : string) : bool :=
  match s with
  | String c s' => (is_byte "]" c && colon_follows s') || has_separator s'
  | EmptyString => false
  end.

(** The line is empty or begins with a blank. *)
Definition starts_blank (line : string) : bool :=
  match line with
  | String c _ => is_space c
  | EmptyString => true
  end.

(** ** Errors, JSON documents and HTTP messages *)

(** Go [error] values: those handed back by a library call or by the
    transport, and those the program builds with [fmt.Errorf]. *)
Inductive error : Type :=
| ErrLib (what : string)
| Errorf (format : string)
| ErrorfErr (format : string) (cause : error)
| ErrorfInt (format : string) (n : Z).

(** A Go pair [(value, err)]. *)
Inductive res (A : Type) : Type :=
| Ok (a : A)
| Err (e : error).
Arguments Ok {A} a.
Arguments Err {A} e.

Definition is_Err {A} (r : res A) : bool :=
  match r with Ok _ => false | Err _ => true end.

(** What a Go function leaves behind: a normal return or a run-time
    panic. *)
Inductive outcome (A : Type) : Type :=
| Returns (a : A)
| Panics (why : string).
Arguments Returns {A} a.
Arguments Panics {A} why.

(** JSON documents, as [interface{}] holds them after decoding and as
    [json.Marshal] receives them. *)
Inductive jvalue : Type :=
| JNull
| JBool (b : bool)
| JNum (f : float)
| JInt (n : Z)
| JStr (s : string)
| JArr (items : list jvalue)
| JObj (fields : list (string * jvalue)).

(** [json.Marshal] refuses NaN and the infinities and nothing else of
    what the program hands to it. *)
Fixpoint marshal_ok (v : jvalue) : bool :=
  match v with
  | JNum f => is_finite f
  | JArr items => forallb marshal_ok items
  | JObj fields => forallb (fun kv => marshal_ok (snd kv)) fields
  | _ => true
  end.

Definition json_Marshal (v : jvalue) : res jvalue :=
  if marshal_ok v then Ok v else Err (ErrLib "json: unsupported value").

Inductive payload : Type :=
| NoBody
| RawBody (text : string)
| JSONBody (doc : jvalue).

Record Request := {
  Method : string;
  URL : string;
  Header : list (string * string);
  ReqBody : payload
}.

(** A byte that may stand in the name of a header field. *)
Definition validHeaderFieldByte (c : ascii) : bool :=
  let n := nat_of_ascii c in
  ((48 <=? n)%nat && (n <=? 57)%nat)
  || ((65 <=? n)%nat && (n <=? 90)%nat)
  || ((97 <=? n)%nat && (n <=? 122)%nat)
  || existsb (Ascii.eqb c)
       ["!"; "#"; "$"; "%"; "&"; "'"; "*"; "+"; "-"; "."; "^"; "_"; "`"; "|"; "~"]%char.

(** Upper case for the first letter and for a letter behind a hyphen,
    lower case for the other letters. *)
Fixpoint canonical (upper : bool) (s : string) : string :=
  match s with
  | EmptyString => EmptyString
  | String c s' =>
      let n := nat_of_ascii c in
      let c' := if upper && (97 <=? n)%nat && (n <=? 122)%nat then ascii_of_nat (n - 32)
                else if negb upper && (65 <=? n)%nat && (n <=? 90)%nat
                     then ascii_of_nat (n + 32)
                     else c in
      String c' (canonical (Ascii.eqb c' "-") s')
  end.

(** [textproto.CanonicalMIMEHeaderKey]: a key with a byte that cannot
    stand in a field name is left as it is. *)
Definition CanonicalMIMEHeaderKey (s : string) : string :=
  if all_bytes validHeaderFieldByte s then canonical true s else s.

(** [req.Header.Set], which files the value under the canonical form of
    the key, in the place of what the key held.  The fields are listed
    in the order in which they were last set. *)
Definition Header_Set (k v : string) (req : Request) : Request :=
  let key := CanonicalMIMEHeaderKey k in
  {| Method := Method req; URL := URL req;
     Header := List.filter (fun field => negb (String.eqb field.1 key)) (Header req)
               ++ [(key, v)];
     ReqBody := ReqBody req |}.

Record Response := {
  StatusCode : Z;
  Status : string;
  Body : res string     (* what reading the body to its end gives *)
}.

(** [embed.ResponseData]: the embedding of each entry of [data]. *)
Definition ResponseData := list (list float).

Record SparseValues := { Indices : list Z; SparseVals : list float }.

(** [main.QueryResponse] *)
Record QueryResponse := {
  ID : string;
  Score : float;
  Values : list float;
  Sparse : SparseValues;
  Metadata : gmap string jvalue
}.

Record QueryResponseBody := {
  Matches : list QueryResponse;
  Namespace : string
}.

(** An entry of the [vectors] map of a fetch response. *)
Record VectorData := { vID : string; vValues : list float }.

Record FetchResponse := {
  Vectors : gmap string VectorData;
  fNamespace : string
}.

(** Operands of the formatting verbs of a log or print call. *)
Inductive arg : Type :=
| AStr (s : string)
| AInt (n : Z)
| AErr (e : error)
| AFloats (v : list float)
| AResp (r : Response).

Inductive output : Type :=
| LogPrintf (format : string) (args : list arg)    (* log.Printf *)
| Println (args : list arg)                        (* fmt.Println *)
| Print (args : list arg)                          (* fmt.Print *)
| Printf (format : string) (args : list arg).      (* fmt.Printf *)

(** ** The world outside the process *)

(** Everything the program reaches through a library: the parts of the
    Go library whose results the program only passes on, and the
    replies of the network and of the disk. *)
Record Env := {
  (* url.Parse inside http.NewRequest accepts the address *)
  url_ok : string -> bool;
  (* the reply to the n-th client.Do of the run *)
  transport : nat -> Request -> res Response;
  (* the n-th write of the run to the output file: None when the file
     takes the whole chunk, else the number of bytes it took before the
     error, and the error *)
  disk : nat -> string -> option (nat * error);
  (* json.NewDecoder(body).Decode into each of the four targets *)
  decode_ResponseData : string -> res ResponseData;
  decode_object : string -> res (gmap string jvalue);
  decode_QueryResponseBody : string -> res QueryResponseBody;
  decode_FetchResponse : string -> res FetchResponse;
  (* strconv.ParseFloat(s, 64): the value and the error, both returned *)
  ParseFloat : string -> float * option error;
  (* fmt.Sprintf with the verb %f *)
  Sprintf_f : float -> string;
  (* strings.TrimSpace and strings.ToLower *)
  TrimSpace : string -> string;
  ToLower : string -> string
}.

Record World := {
  calls : list Request;          (* requests sent, oldest first *)
  out : list output;             (* log and terminal lines, oldest first *)
  sink : list (list string);     (* records csvWriter.Write returned nil for *)
  file : string;                 (* bytes that reached the output file *)
  buffered : string;             (* bytes the bufio.Writer holds back *)
  stuck : option error;          (* the error the bufio.Writer holds *)
  writes : nat                   (* writes to the output file so far *)
}.

Definition empty_world : World :=
  {| calls := []; out := []; sink := [];
     file := ""; buffered := ""; stuck := None; writes := 0 |}.

(** The state monad of the program over [World]. *)
Definition M (A : Type) : Type := World -> A * World.

Definition ret {A} (a : A) : M A := fun w => (a, w).

Definition bind {A B} (m : M A) (k : A -> M B) : M B :=
  fun w => let (a, w') := m w in k a w'.

Notation "'let*' x := m 'in' k" := (bind m (fun x => k))
  (at level 10, x name, m at level 100, k at level 200).
Notation "'do' m 'then' k" := (bind m (fun _ => k))
  (at level 10, m at level 100, k at level 200).

(** The world after a request went out, and after lines were logged or
    printed. *)
Definition sent (req : Request) (w : World) : World :=
  {| calls := calls w ++ [req]; out := out w; sink := sink w;
     file := file w; buffered := buffered w; stuck := stuck w; writes := writes w |}.

Definition printed (lines : list output) (w : World) : World :=
  {| calls := calls w; out := out w ++ lines; sink := sink w;
     file := file w; buffered := buffered w; stuck := stuck w; writes := writes w |}.

(** The world with the output file and its writer in another state, and
    the world after the CSV writer took a record. *)
Definition writer_at (file buffered : string) (stuck : option error) (writes : nat)
    (w : World) : World :=
  {| calls := calls w; out := out w; sink := sink w;
     file := file; buffered := buffered; stuck := stuck; writes := writes |}.

Definition took (record : list string) (w : World) : World :=
  {| calls := calls w; out := out w; sink := sink w ++ [record];
     file := file w; buffered := buffered w; stuck := stuck w; writes := writes w |}.

Definition emit (o : output) : M unit := fun w => (tt, printed [o] w).

Definition log_Printf (format : string) (args : list arg) : M unit :=
  emit (LogPrintf format args).

Definition fmt_Println (args : list arg) : M unit := emit (Println args).
Definition fmt_Print (args : list arg) : M unit := emit (Print args).
Definition fmt_Printf (format : string) (args : list arg) : M unit :=
  emit (Printf format args).

(** [http.NewRequest] with one of the two constant methods: only the
    address can be refused. *)
Definition http_NewRequest (E : Env) (method url : string) (body : payload)
    : res Request :=
  if url_ok E url then
    Ok {| Method := method; URL := url; Header := []; ReqBody := body |}
  else Err (ErrLib "net/url: parse error").

(** [client.Do]: the request goes out and the world answers. *)
Definition client_Do (E : Env) (req : Request) : M (res Response) :=
  fun w => (transport E (length (calls w)) req, sent req w).

(** Decoding the body of a response. *)
Definition Decode {A} (dec : string -> res A) (resp : Response) : res A :=
  match Body resp with
  | Ok text => dec text
  | Err e => Err e
  end.

(** [strings.ReplaceAll] for a one-byte pattern. *)
Fixpoint ReplaceAll (s : string) (old : ascii) (new : string) : string :=
  match s with
  | EmptyString => EmptyString
  | String c s' =>
      (if Ascii.eqb c old then new else String c EmptyString)
        +:+ ReplaceAll s' old new
  end.

(** The double quote. *)
Definition DQ : string := String "034"%char EmptyString.

(** [%d] *)
Definition Sprintf_d (n : nat) : string := NilZero.string_of_uint (Nat.to_uint n).

(** ** The output file and its writers

    [csv.NewWriter(embedFile)] puts a [bufio.Writer] of 4096 bytes in
    front of the file: what [csvWriter.Write] produces stays in that
    buffer until it is full, and an error of the file comes back from
    the call that meets the full buffer; from then on the writer holds
    the error and returns it from every call. *)

Definition bufSize : nat := 4096.

(** A call that stops at the first error of a sequence. *)
Definition and_then (m k : M (option error)) : M (option error) :=
  let* err := m in
  match err with
  | Some e => ret (Some e)
  | None => k
  end.

Notation "'check' m 'then' k" := (and_then m k)
  (at level 10, m at level 100, k at level 200).

Section Writers.
Variable E : Env.

(** [f.Write] and [f.WriteString] on the output file: the number of
    bytes the file took, and the error. *)
Definition file_Write (chunk : string) : M (nat * option error) :=
  fun w =>
    match disk E (writes w) chunk with
    | None =>
        ((String.length chunk, None),
         writer_at (file w +:+ chunk) (buffered w) (stuck w) (S (writes w)) w)
    | Some (n, e) =>
        let n := Nat.min n (String.length chunk) in
        ((n, Some e),
         writer_at (file w +:+ str_take n chunk) (buffered w) (stuck w) (S (writes w)) w)
    end.

(** [b.Available()] *)
Definition Available (w : World) : nat := bufSize - String.length (buffered w).

(** [b.Flush()]: on an error the bytes the file did not take stay in
    the buffer. *)
Definition bufio_Flush : M (option error) :=
  fun w =>
    match stuck w with
    | Some e => (Some e, w)
    | None =>
        if Nat.eqb (String.length (buffered w)) 0 then (None, w)
        else
          let (r, w1) := file_Write (buffered w) w in
          match r.2 with
          | Some e =>
              (Some e,
               writer_at (file w1) (str_drop r.1 (buffered w)) (Some e) (writes w1) w1)
          | None => (None, writer_at (file w1) "" None (writes w1) w1)
          end
    end.

(** [b.WriteByte(c)], which is also [b.WriteRune] of an ASCII rune. *)
Definition bufio_WriteByte (c : ascii) : M (option error) :=
  fun w =>
    match stuck w with
    | Some e => (Some e, w)
    | None =>
        let (err, w1) := if Nat.eqb (Available w) 0 then bufio_Flush w else (None, w) in
        match err with
        | Some e => (Some e, w1)
        | None =>
            (None,
             writer_at (file w1) (buffered w1 +:+ String c EmptyString) (stuck w1)
               (writes w1) w1)
        end
    end.

(** The loop of [b.WriteString(s)]: while the text does not fit and no
    error is held, the text goes to the file as it is when the buffer
    is empty, and else the buffer is filled up and flushed.  It hands
    on what is left of the text. *)
Fixpoint WriteString_loop (rounds : nat) (s : string) : M string :=
  fun w =>
    match rounds with
    | 0 => (s, w)
    | S rounds =>
        if (Available w <? String.length s)%nat
           && match stuck w with None => true | Some _ => false end
        then
          if Nat.eqb (String.length (buffered w)) 0 then
            let (r, w1) := file_Write s w in
            WriteString_loop rounds (str_drop r.1 s)
              (writer_at (file w1) (buffered w1) r.2 (writes w1) w1)
          else
            let n := Available w in
            let w1 := writer_at (file w) (buffered w +:+ str_take n s) (stuck w)
                        (writes w) w in
            let (_, w2) := bufio_Flush w1 in
            WriteString_loop rounds (str_drop n s) w2
        else (s, w)
    end.

(** [b.WriteString(s)]; two rounds are all its loop can make: after a
    flush the buffer is empty, and after a write of the whole text
    nothing is left or an error is held. *)
Definition bufio_WriteString (s : string) : M (option error) :=
  let* s := WriteString_loop 2 s in
  fun w =>
    match stuck w with
    | Some e => (Some e, w)
    | None => (None, writer_at (file w) (buffered w +:+ s) None (writes w) w)
    end.

(** The bytes [csv.Writer] encodes by hand inside a quoted field. *)
Definition csv_special (c : ascii) : bool :=
  Ascii.eqb c "034" || Ascii.eqb c "013" || Ascii.eqb c LF.

(** [unicode.IsSpace] of the first rune of the field, read off its
    UTF-8 bytes. *)
Definition first_rune_IsSpace (field : string) : bool :=
  match field with
  | EmptyString => false
  | String c _ =>
      let n := nat_of_ascii c in
      if (n <? 128)%nat then ((9 <=? n)%nat && (n <=? 13)%nat) || Nat.eqb n 32
      else
        existsb (fun p => String.prefix p field)
          ([bytes [194; 133]; bytes [194; 160]; bytes [225; 154; 128];
            bytes [226; 128; 168]; bytes [226; 128; 169]; bytes [226; 128; 175];
            bytes [226; 129; 159]; bytes [227; 128; 128]]
           ++ map (fun k => bytes [226; 128; 128 + k]) (seq 0 11))
  end.

(** [w.fieldNeedsQuotes(field)] with the comma as separator. *)
Definition fieldNeedsQuotes (field : string) : bool :=
  if String.eqb field "" then false
  else if String.eqb field "\." then true
  else if negb (all_bytes (fun c => negb (csv_special c || Ascii.eqb c ",")) field) then true
  else first_rune_IsSpace field.

(** The inside of a quoted field: the text up to the next quote,
    carriage return or line feed is written as it is, then that byte in
    its encoding; [seg] is the text read since the last such byte. *)
Fixpoint csv_quoted (seg field : string) : M (option error) :=
  match field with
  | EmptyString => if String.eqb seg "" then ret None else bufio_WriteString seg
  | String c rest =>
      if csv_special c then
        check bufio_WriteString seg then
        check (if Ascii.eqb c "034" then bufio_WriteString (DQ +:+ DQ)
               else bufio_WriteByte c) then
        csv_quoted EmptyString rest
      else csv_quoted (seg +:+ String c EmptyString) rest
  end.

(** The loop of [csvWriter.Write] over the fields, [n] fields having
    been written. *)
Fixpoint csv_fields (n : nat) (record : list string) : M (option error) :=
  match record with
  | [] => ret None
  | field :: rest =>
      check (if Nat.eqb n 0 then ret None else bufio_WriteByte ",") then
      check (if fieldNeedsQuotes field then
               check bufio_WriteByte "034" then
               check csv_quoted EmptyString field then
               bufio_WriteByte "034"
             else bufio_WriteString field) then
      csv_fields (S n) rest
  end.

(** [csvWriter.Write(record)] *)
Definition csv_Write (record : list string) : M (option error) :=
  let* err := (check csv_fields 0 record then bufio_WriteByte LF) in
  match err with
  | Some e => ret (Some e)
  | None => fun w => (None, took record w)
  end.

(** [csvWriter.Flush()], which drops the error of the buffer. *)
Definition csv_Flush : M unit :=
  do bufio_Flush then ret tt.

End Writers.

(** The bytes [csvWriter.Write] produces for a record. *)
Fixpoint quoted_bytes (field : string) : string :=
  match field with
  | EmptyString => EmptyString
  | String c rest =>
      (if Ascii.eqb c "034" then DQ +:+ DQ else String c EmptyString)
        +:+ quoted_bytes rest
  end.

Definition field_bytes (field : string) : string :=
  if fieldNeedsQuotes field then DQ +:+ quoted_bytes field +:+ DQ else field.

Definition csv_line (record : list string) : string :=
  String.concat "," (map field_bytes record) +:+ String LF EmptyString.

(** The bytes of a file of the given records. *)
Fixpoint csv_text (rows : list (list string)) : string :=
  match rows with
  | [] => EmptyString
  | record :: rest => csv_line record +:+ csv_text rest
  end.

(** ** The scanner of lines

    A file is held as its lines, each without the line feed that ends
    it.  A [bufio.Scanner] with its default buffer delivers the lines
    up to the first one that does not fit into 64 KB together with its
    line feed, each without a carriage return at its end; at that line
    it stops and [scanner.Err()] is [bufio.ErrTooLong], and at the end
    of the file [scanner.Err()] is [nil].  Errors of reading the file
    are left out. *)

Definition MaxScanTokenSize : nat := 64 * 1024.

Definition ErrTooLong : error := ErrLib "bufio.Scanner: token too long".

Fixpoint dropCR (line : string) : string :=
  match line with
  | EmptyString => EmptyString
  | String c rest =>
      match rest with
      | EmptyString => if Ascii.eqb c "013" then EmptyString else line
      | _ => String c (dropCR rest)
      end
  end.

(** The line both passes log when [scanner.Err()] is an error. *)
Definition scanner_output (scanErr : option error) : list output :=
  match scanErr with
  | Some err => [LogPrintf "Scanner error: %v" [AErr err]]
  | None => []
  end.

(** The tokens of the scanner and the value of [scanner.Err()] behind
    them. *)
Fixpoint Scan (lines : list string) : list string * option error :=
  match lines with
  | [] => ([], None)
  | line :: rest =>
      if (MaxScanTokenSize <=? String.length line)%nat then ([], Some ErrTooLong)
      else let (tokens, err) := Scan rest in (dropCR line :: tokens, err)
  end.

(** ** Package [embed] *)

Module embed.

Definition openAIAPIKey : string := "Bearer sk-xxx".
Definition embeddingsURL : string := "https://api.openai.com/v1/embeddings".

Section Embed.
Variable E : Env.

(** The request that [GetEmbedding] builds for a text. *)
Definition embedding_body (text model : string) : string :=
  let text := ReplaceAll text LF " " in
  let text := ReplaceAll text "'" "'\''" in
  "{" +:+ DQ +:+ "input" +:+ DQ +:+ ": [" +:+ DQ +:+ text +:+ DQ +:+ "], "
      +:+ DQ +:+ "model" +:+ DQ +:+ ": " +:+ DQ +:+ model +:+ DQ +:+ "}".

Definition GetEmbedding (text model : string) : M (res (list float)) :=
  match http_NewRequest E "POST" embeddingsURL (RawBody (embedding_body text model)) with
  | Err err => ret (Err err)
  | Ok req =>
      let req := Header_Set "Content-Type" "application/json" req in
      let req := Header_Set "Authorization" openAIAPIKey req in
      let* resp := client_Do E req in
      match resp with
      | Err err => ret (Err (ErrorfErr "HTTP request error: %w" err))
      | Ok resp =>
          match Decode (decode_ResponseData E) resp with
          | Err err => ret (Err err)
          | Ok responseData =>
              if Nat.eqb (length responseData) 0
                 || Nat.eqb (length (hd [] responseData)) 0
              then ret (Err (Errorf "no data in response"))
              else ret (Ok (hd [] responseData))
          end
      end
  end.

(** The request of [GetEmbedding], headers set. *)
Definition embedding_request (text model : string) : Request :=
  Header_Set "Authorization" openAIAPIKey
    (Header_Set "Content-Type" "application/json"
      {| Method := "POST"; URL := embeddingsURL; Header := [];
         ReqBody := RawBody (embedding_body text model) |}).

(** What [GetEmbedding] makes of the reply to its request. *)
Definition read_embedding (reply : res Response) : res (list float) :=
  match reply with
  | Err err => Err (ErrorfErr "HTTP request error: %w" err)
  | Ok resp =>
      match Decode (decode_ResponseData E) resp with
      | Err err => Err err
      | Ok responseData =>
          match responseData with
          | [] => Err (Errorf "no data in response")
          | [] :: _ => Err (Errorf "no data in response")
          | embedding :: _ => Ok embedding
          end
      end
  end.

(** The embedding obtained when the request is the [n]-th call of the
    run. *)
Definition embedding_reply (n : nat) (text model : string) : res (list float) :=
  read_embedding (transport E n (embedding_request text model)).

(** [float64ToStringSlice] *)
Definition float64ToStringSlice (floats : list float) : list string :=
  map (Sprintf_f E) floats.

Record counters := {
  linesProcessed : nat;
  parseFailures : nat;
  embeddingFailures : nat;
  writeFailures : nat;
  successCount : nat
}.

Definition summary_args (c : counters) : list arg :=
  [AInt (Z.of_nat (linesProcessed c)); AInt (Z.of_nat (parseFailures c));
   AInt (Z.of_nat (embeddingFailures c)); AInt (Z.of_nat (writeFailures c));
   AInt (Z.of_nat (successCount c))].

(** The body of the scanner loop, once per line of the input file. *)
Fixpoint embed_loop (embeddingModel : string) (lines : list string)
    (lineNumber : nat) (c : counters) : M counters :=
  match lines with
  | [] => ret c
  | line :: rest =>
      let lineNumber := S lineNumber in
      let p := parse_line line in
      let c := {| linesProcessed := S (linesProcessed c);
                  parseFailures := parseFailures c;
                  embeddingFailures := embeddingFailures c;
                  writeFailures := writeFailures c;
                  successCount := successCount c |} in
      let* c := (if parse_failed p then
              do log_Printf "Unable to parse line %d of length %d - skipping: Content: %s\n"
                [AInt (Z.of_nat lineNumber); AInt (Z.of_nat (matched p)); AStr line] then
              ret {| linesProcessed := linesProcessed c;
                     parseFailures := S (parseFailures c);
                     embeddingFailures := embeddingFailures c;
                     writeFailures := writeFailures c;
                     successCount := successCount c |}
            else ret c) in
      let* r := GetEmbedding (message p) embeddingModel in
      match r with
      | Err err =>
          do log_Printf "Error getting embedding for line %d: %s - %v\n"
            [AInt (Z.of_nat lineNumber); AStr line; AErr err] then
          embed_loop embeddingModel rest lineNumber
            {| linesProcessed := linesProcessed c;
               parseFailures := parseFailures c;
               embeddingFailures := S (embeddingFailures c);
               writeFailures := writeFailures c;
               successCount := successCount c |}
      | Ok embedding =>
          let strEmbedding := float64ToStringSlice embedding in
          let* werr := csv_Write E strEmbedding in
          match werr with
          | Some err =>
              do log_Printf "Error writing record to CSV at line %d: %v\n"
                [AInt (Z.of_nat lineNumber); AErr err] then
              embed_loop embeddingModel rest lineNumber
                {| linesProcessed := linesProcessed c;
                   parseFailures := parseFailures c;
                   embeddingFailures := embeddingFailures c;
                   writeFailures := S (writeFailures c);
                   successCount := successCount c |}
          | None =>
              embed_loop embeddingModel rest lineNumber
                {| linesProcessed := linesProcessed c;
                   parseFailures := parseFailures c;
                   embeddingFailures := embeddingFailures c;
                   writeFailures := writeFailures c;
                   successCount := S (successCount c) |}
          end
      end
  end.

Definition no_counts : counters :=
  {| linesProcessed := 0; parseFailures := 0; embeddingFailures := 0;
     writeFailures := 0; successCount := 0 |}.

(** The two summary lines that close the pass. *)
Definition summary_output (c : counters) : list output :=
  [LogPrintf "Process Summary: Lines Processed=%d, Parse Failures=%d, Embedding Failures=%d, Write Failures=%d, Successes=%d"
     (summary_args c);
   Println [AStr "Process Summary: Lines Processed ="; AInt (Z.of_nat (linesProcessed c));
            AStr ", Parse Failures ="; AInt (Z.of_nat (parseFailures c));
            AStr ", Embedding Failures ="; AInt (Z.of_nat (embeddingFailures c));
            AStr ", Write Failures ="; AInt (Z.of_nat (writeFailures c));
            AStr ", Successes ="; AInt (Z.of_nat (successCount c))]].

(** [csv.NewWriter(embedFile)] on the file [os.Create] has just made:
    the file is empty, and so is the buffer. *)
Definition fresh_file : M unit :=
  fun w => (tt, writer_at "" "" None (writes w) w).

(** [CreateEmbeddingFile] on an output file that was created and an
    input file that opens; the scanner delivers [lines] and
    [scanner.Err()] is then [scanErr].  The result is [None] when
    [log.Fatalf] ends the process: the deferred [csvWriter.Flush()]
    runs when the function returns, and not then. *)
Definition CreateEmbeddingFile (lines : list string) (scanErr : option error)
    (embeddingModel : string) : M (option (option error)) :=
  do fresh_file then
  let* c := embed_loop embeddingModel lines 0 no_counts in
  do log_Printf "Process Summary: Lines Processed=%d, Parse Failures=%d, Embedding Failures=%d, Write Failures=%d, Successes=%d"
       (summary_args c) then
  do fmt_Println [AStr "Process Summary: Lines Processed ="; AInt (Z.of_nat (linesProcessed c));
                  AStr ", Parse Failures ="; AInt (Z.of_nat (parseFailures c));
                  AStr ", Embedding Failures ="; AInt (Z.of_nat (embeddingFailures c));
                  AStr ", Write Failures ="; AInt (Z.of_nat (writeFailures c));
                  AStr ", Successes ="; AInt (Z.of_nat (successCount c))] then
  match scanErr with
  | Some err =>
      do log_Printf "Scanner error: %v" [AErr err] then
      ret None
  | None =>
      do csv_Flush E then
      ret (Some None)
  end.

(** *** The lines of an input file, classified one by one

    Every line sends exactly one embedding request, so the line at
    index [i] of the file is answered by the reply to call [n + i],
    [n] being the number of calls made before the pass. *)

(** P: the lines that do not parse. *)
Fixpoint unparsed (lines : list string) : nat :=
  match lines with
  | [] => 0
  | line :: rest =>
      (if parse_failed (parse_line line) then 1 else 0) + unparsed rest
  end.

(** E: the lines that parse and whose embedding fails. *)
Fixpoint parsed_not_embedded (model : string) (n : nat) (lines : list string) : nat :=
  match lines with
  | [] => 0
  | line :: rest =>
      (if negb (parse_failed (parse_line line))
          && is_Err (embedding_reply n (message (parse_line line)) model)
       then 1 else 0) + parsed_not_embedded model (S n) rest
  end.

(** The lines whose embedding fails, parsed or not. *)
Fixpoint not_embedded (model : string) (n : nat) (lines : list string) : nat :=
  match lines with
  | [] => 0
  | line :: rest =>
      (if is_Err (embedding_reply n (message (parse_line line)) model)
       then 1 else 0) + not_embedded model (S n) rest
  end.

(** The serialised embeddings of the lines that obtain one, in the
    order of the file. *)
Fixpoint embedded_rows (model : string) (n : nat) (lines : list string)
    : list (list string) :=
  match lines with
  | [] => []
  | line :: rest =>
      match embedding_reply n (message (parse_line line)) model with
      | Ok embedding => [float64ToStringSlice embedding]
      | Err _ => []
      end ++ embedded_rows model (S n) rest
  end.

(** No line that fails to parse obtains an embedding for its empty
    message. *)
Fixpoint unparsed_rejected (model : string) (n : nat) (lines : list string) : bool :=
  match lines with
  | [] => true
  | line :: rest =>
      (negb (parse_failed (parse_line line))
       || is_Err (embedding_reply n (message (parse_line line)) model))
      && unparsed_rejected model (S n) rest
  end.

End Embed.
End embed.

(** ** Constants shared by the packages [upsert] and [main] *)

Definition pcAPIKey : string := "PINECONE-API-Key".
Definition pcEnv : string := "gcp-starter".
Definition pcAPIURL : string := ".pinecone.io/".
Definition pcCtrlPrefix : string := "https://controller.".
Definition pcProjectIDPath : string := "actions/whoami".
Definition pcCreateorConnectToIndexPath : string := "databases/".
Definition pcVectorUpsert : string := "vectors/upsert".
Definition indexName : string := "whatsapp-chat".
Definition indexDimension : Z := 1536.
Definition indexMetric : string := "cosine".
Definition topK : Z := 1.
Definition embeddingModel : string := "text-embedding-ada-002".

Definition whoamiURL : string := pcCtrlPrefix +:+ pcEnv +:+ pcAPIURL +:+ pcProjectIDPath.

(** The two forms of the type assertion [v.(string)] on a map entry:
    the plain form panics, the comma-ok form reports. *)
Definition assert_string (v : option jvalue) : outcome string :=
  match v with
  | Some (JStr s) => Returns s
  | _ => Panics "interface conversion: interface {} is not string"
  end.

Definition assert_string_ok (v : option jvalue) : string * bool :=
  match v with
  | Some (JStr s) => (s, true)
  | _ => ("", false)
  end.

(** [strings.Split] on a one-byte separator. *)
Fixpoint Split (s : string) (sep : ascii) : list string :=
  match s with
  | EmptyString => [EmptyString]
  | String c s' =>
      if Ascii.eqb c sep then EmptyString :: Split s' sep
      else
        match Split s' sep with
        | field :: fields => String c field :: fields
        | [] => [String c EmptyString]
        end
  end.

(** ** Package [upsert] *)

Module upsert.

Definition connectionURL (indexName : string) : string :=
  pcCtrlPrefix +:+ pcEnv +:+ pcAPIURL +:+ pcCreateorConnectToIndexPath +:+ indexName.

Definition createIndexURL : string :=
  pcCtrlPrefix +:+ pcEnv +:+ pcAPIURL +:+ pcCreateorConnectToIndexPath.

Definition upsertURL (indexName pcProjectID : string) : string :=
  "https://" +:+ indexName +:+ "-" +:+ pcProjectID +:+ ".svc." +:+ pcEnv
    +:+ pcAPIURL +:+ pcVectorUpsert.

(** The connect request of step 1. *)
Definition connect_request (indexName : string) : Request :=
  Header_Set "Content-Type" "application/json"
    (Header_Set "Accept" "application/json"
      (Header_Set "Api-Key" pcAPIKey
        {| Method := "GET"; URL := connectionURL indexName;
           Header := []; ReqBody := NoBody |})).

(** The document of the create call of step 2. *)
Definition create_data (indexName : string) : jvalue :=
  JObj [("name", JStr indexName);
        ("dimension", JInt indexDimension);
        ("metric", JStr indexMetric)].

Definition create_request (indexName : string) : Request :=
  Header_Set "Content-Type" "application/json"
    (Header_Set "Api-Key" pcAPIKey
      {| Method := "POST"; URL := createIndexURL;
         Header := []; ReqBody := JSONBody (create_data indexName) |}).

(** The document of the write call for one row. *)
Definition upsert_data (lineNumber : nat) (values : list float) : jvalue :=
  JObj [("vectors",
         JArr [JObj [("id", JStr ("vector_id_" +:+ Sprintf_d lineNumber));
                     ("values", JArr (map JNum values))]])].

Definition upsert_request (url : string) (lineNumber : nat) (values : list float)
    : Request :=
  Header_Set "Api-Key" pcAPIKey
    (Header_Set "Content-Type" "application/json"
      {| Method := "POST"; URL := url; Header := [];
         ReqBody := JSONBody (upsert_data lineNumber values) |}).

Section Upsert.
Variable E : Env.

Definition GetOrCreatePineconeIndex (indexName : string) : M (option error) :=
  match http_NewRequest E "GET" (connectionURL indexName) NoBody with
  | Err err =>
      do log_Printf "Error in getOrCreatePineconeIndex: can't create a new Get request to establish connection: %v"
           [AErr err] then
      ret (Some err)
  | Ok req =>
      let req := Header_Set "Api-Key" pcAPIKey req in
      let req := Header_Set "Accept" "application/json" req in
      let req := Header_Set "Content-Type" "application/json" req in
      let* resp := client_Do E req in
      match resp with
      | Err err =>
          do log_Printf "Error in getOrCreatePineconeIndex: can't do the POST request to establish connection: %v"
               [AErr err] then
          ret (Some err)
      | Ok resp =>
          if negb (StatusCode resp =? 200)%Z then
            do fmt_Println [AStr "Index doesn't exist, creating a new one"; AStr indexName] then
            do log_Printf ("Index " +:+ indexName +:+ "not found, creating a new one") [] then
            match json_Marshal (create_data indexName) with
            | Err err =>
                do log_Printf "Error marshalling data: %v" [AErr err] then
                ret (Some err)
            | Ok jsonData =>
                match http_NewRequest E "POST" createIndexURL (JSONBody jsonData) with
                | Err err =>
                    do log_Printf "Error in getOrCreatePineconeIndex: can't create a new POST request to create index: %v"
                         [AErr err] then
                    ret (Some err)
                | Ok req =>
                    let req := Header_Set "Api-Key" pcAPIKey req in
                    let req := Header_Set "Content-Type" "application/json" req in
                    let* resp := client_Do E req in
                    match resp with
                    | Err err =>
                        do log_Printf "Error in getOrCreatePineconeIndex: can't do the POST request to create index: %v"
                             [AErr err] then
                        ret (Some err)
                    | Ok resp =>
                        if negb (StatusCode resp =? 200)%Z && negb (StatusCode resp =? 201)%Z then
                          do (match Body resp with
                              | Err err =>
                                  log_Printf "Error reading response body: %v" [AErr err]
                              | Ok bodyBytes =>
                                  log_Printf "Failed to create index, status code: %d, response: %s"
                                    [AInt (StatusCode resp); AStr bodyBytes]
                              end) then
                          ret (Some (ErrorfInt "failed to create index, status code: %d"
                                       (StatusCode resp)))
                        else
                          do fmt_Println [AStr "Successfully created index: "; AStr indexName] then
                          do log_Printf "Successfully created index: %s" [AStr indexName] then
                          ret None
                    end
                end
            end
          else ret None
      end
  end.

(** The inner loop over the fields of a row: a field that does not
    parse is logged and the loop goes on to the next field; the
    slot keeps what [ParseFloat] returned beside the error. *)
Fixpoint parse_values (valuesStr : list string) (lineNumber : nat) : M (list float) :=
  match valuesStr with
  | [] => ret []
  | v :: rest =>
      let (value, err) := ParseFloat E v in
      let* _ := (match err with
                 | Some err =>
                     log_Printf "Error parsing float value at line %d: %v"
                       [AInt (Z.of_nat lineNumber); AErr err]
                 | None => ret tt
                 end) in
      let* values := parse_values rest lineNumber in
      ret (value :: values)
  end.

Record tally := { successCount : nat; failCount : nat }.

(** The scanner loop of [UpsertDataToPinecone]; it returns the last
    line number with the two counters. *)
Fixpoint upsert_loop (url : string) (rows : list string) (lineNumber : nat)
    (t : tally) : M (nat * tally) :=
  match rows with
  | [] => ret (lineNumber, t)
  | line :: rest =>
      let lineNumber := S lineNumber in
      let valuesStr := Split line "," in
      let* values := parse_values valuesStr lineNumber in
      match json_Marshal (upsert_data lineNumber values) with
      | Err err =>
          do log_Printf "Error marshalling data at line %d: %v"
               [AInt (Z.of_nat lineNumber); AErr err] then
          upsert_loop url rest lineNumber t
      | Ok jsonData =>
          match http_NewRequest E "POST" url (JSONBody jsonData) with
          | Err err =>
              do log_Printf "Error creating new request at line %d: %v"
                   [AInt (Z.of_nat lineNumber); AErr err] then
              upsert_loop url rest lineNumber t
          | Ok req =>
              let req := Header_Set "Content-Type" "application/json" req in
              let req := Header_Set "Api-Key" pcAPIKey req in
              let* resp := client_Do E req in
              match resp with
              | Err err =>
                  do log_Printf "Error in HTTP request at line %d: %v"
                       [AInt (Z.of_nat lineNumber); AErr err] then
                  upsert_loop url rest lineNumber
                    {| successCount := successCount t; failCount := S (failCount t) |}
              | Ok resp =>
                  if (400 <=? StatusCode resp)%Z then
                    do log_Printf "HTTP error at line %d: %s"
                         [AInt (Z.of_nat lineNumber); AStr (Status resp)] then
                    upsert_loop url rest lineNumber
                      {| successCount := successCount t; failCount := S (failCount t) |}
                  else
                    upsert_loop url rest lineNumber
                      {| successCount := S (successCount t); failCount := failCount t |}
              end
          end
      end
  end.

Definition summary_args (lineNumber : nat) (t : tally) : list arg :=
  [AInt (Z.of_nat lineNumber); AInt (Z.of_nat (successCount t));
   AInt (Z.of_nat (failCount t))].

(** [UpsertDataToPinecone] on a file that opens; the scanner delivers
    [rows] and [scanner.Err()] is then [scanErr]. *)
Definition UpsertDataToPinecone (indexName filePath : string) (rows : list string)
    (scanErr : option error) : M (outcome (option error)) :=
  do fmt_Println [AStr "Upserting from: "; AStr filePath] then
  match http_NewRequest E "GET" whoamiURL NoBody with
  | Err err =>
      do log_Printf "Error creating new request: %v" [AErr err] then
      ret (Returns (Some err))
  | Ok req =>
      let req := Header_Set "Api-Key" pcAPIKey req in
      let* resp := client_Do E req in
      match resp with
      | Err err =>
          do log_Printf "Error in HTTP request: %v" [AErr err] then
          ret (Returns (Some err))
      | Ok resp =>
          match Decode (decode_object E) resp with
          | Err err =>
              do log_Printf "Error decoding response: %v" [AErr err] then
              ret (Returns (Some err))
          | Ok result =>
              match assert_string (result !! "project_name") with
              | Panics why => ret (Panics why)
              | Returns pcProjectID =>
                  let* r := upsert_loop (upsertURL indexName pcProjectID) rows 0
                              {| successCount := 0; failCount := 0 |} in
                  let (lineNumber, t) := r in
                  do log_Printf "Process Summary: Lines Processed=%d, Upserted Successfully=%d, Failed=%d"
                       (summary_args lineNumber t) then
                  do fmt_Printf "Process Summary: Lines Processed=%d, Upserted Successfully=%d, Failed=%d\n"
                       (summary_args lineNumber t) then
                  match scanErr with
                  | Some err =>
                      do log_Printf "Scanner error: %v" [AErr err] then
                      ret (Returns (Some err))
                  | None => ret (Returns None)
                  end
              end
          end
      end
  end.

End Upsert.
End upsert.

(** ** Package [main] *)

Module main.

Definition queryURL (indexName pcProjectID : string) : string :=
  "https://" +:+ indexName +:+ "-" +:+ pcProjectID +:+ ".svc." +:+ pcEnv
    +:+ pcAPIURL +:+ "query".

(** The address of a fetch by identifier; the loop of [queryPinecone]
    formats it and the prompt loop concatenates it, to the same text. *)
Definition fetchURL (indexName pcProjectID id : string) : string :=
  "https://" +:+ indexName +:+ "-" +:+ pcProjectID +:+ ".svc." +:+ pcEnv
    +:+ ".pinecone.io/vectors/fetch?ids=" +:+ id.

Definition whoami_request : Request :=
  Header_Set "Api-Key" pcAPIKey
    {| Method := "GET"; URL := whoamiURL; Header := []; ReqBody := NoBody |}.

Definition query_data (queryVector : list float) : jvalue :=
  JObj [("includeValues", JStr "false");
        ("includeMetadata", JStr "false");
        ("topK", JInt topK);
        ("vector", JArr (map JNum queryVector))].

(** The fetch request sent from inside [queryPinecone]. *)
Definition fetch_request (indexName pcProjectID id : string) : Request :=
  Header_Set "Accept" "application/json"
    (Header_Set "Api-Key" pcAPIKey
      {| Method := "GET"; URL := fetchURL indexName pcProjectID id;
         Header := []; ReqBody := NoBody |}).

(** The fetch request sent from the display loop of
    [promptUserAndQueryPinecone]. *)
Definition display_request (indexName pcProjectID id : string) : Request :=
  Header_Set "accept" "application/json"
    (Header_Set "Api-Key" pcAPIKey
      {| Method := "GET"; URL := fetchURL indexName pcProjectID id;
         Header := []; ReqBody := NoBody |}).

(** The similarity query for a vector. *)
Definition query_request (indexName pcProjectID : string) (queryVector : list float)
    : Request :=
  Header_Set "Api-Key" pcAPIKey
    (Header_Set "content-type" "application/json"
      (Header_Set "accept" "application/json"
        {| Method := "POST"; URL := queryURL indexName pcProjectID; Header := [];
           ReqBody := JSONBody (query_data queryVector) |})).

(** The prompt of the interactive loop. *)
Definition prompt : output :=
  Print [AStr "Please enter a message to search for (or type 'end' to exit): "].

(** [match.Values = values] on a variable of type [QueryResponse]. *)
Definition set_Values (values : list float) (m : QueryResponse) : QueryResponse :=
  {| ID := ID m; Score := Score m; Values := values;
     Sparse := Sparse m; Metadata := Metadata m |}.

Section Main.
Variable E : Env.

Definition getPcProjectID : M (res string) :=
  match http_NewRequest E "GET" whoamiURL NoBody with
  | Err err =>
      do log_Printf "Error creating new request: %v" [AErr err] then
      ret (Err err)
  | Ok req =>
      let req := Header_Set "Api-Key" pcAPIKey req in
      let* resp := client_Do E req in
      match resp with
      | Err err =>
          do log_Printf "Error in HTTP request: %v" [AErr err] then
          ret (Err err)
      | Ok resp =>
          match Decode (decode_object E) resp with
          | Err err =>
              do log_Printf "Error decoding response: %v" [AErr err] then
              ret (Err err)
          | Ok result =>
              let (pcProjectID, ok) := assert_string_ok (result !! "project_name") in
              if negb ok then
                ret (Err (Errorf "project_name not found or is not a string"))
              else ret (Ok pcProjectID)
          end
      end
  end.

(** One turn of the loop [for _, match := range matches] of
    [queryPinecone].  The loop variable is a copy of the slice
    element: the turn hands back that copy as the assignment
    [match.Values = vectorData.Values] leaves it. *)
Definition fetch_turn (indexName pcProjectID : string) (match_ : QueryResponse)
    : M (res QueryResponse) :=
  match http_NewRequest E "GET" (fetchURL indexName pcProjectID (ID match_)) NoBody with
  | Err err =>
      do log_Printf "Error creating new request to fetch vector: %v" [AErr err] then
      ret (Err err)
  | Ok fetchReq =>
      let fetchReq := Header_Set "Api-Key" pcAPIKey fetchReq in
      let fetchReq := Header_Set "Accept" "application/json" fetchReq in
      let* fetchResp := client_Do E fetchReq in
      match fetchResp with
      | Err err =>
          do log_Printf "Error in HTTP request to fetch vector: %v" [AErr err] then
          ret (Err err)
      | Ok fetchResp =>
          match Decode (decode_FetchResponse E) fetchResp with
          | Err err =>
              do log_Printf "Error decoding fetch response: %v" [AErr err] then
              ret (Err err)
          | Ok fetchResponse =>
              match Vectors fetchResponse !! ID match_ with
              | Some vectorData =>
                  let match_ := set_Values (vValues vectorData) match_ in
                  do log_Printf "Fetched vector content for ID %s: %v"
                       [AStr (vID vectorData); AFloats (vValues vectorData)] then
                  ret (Ok match_)
              | None =>
                  do log_Printf "No vector content found for ID %s" [AStr (ID match_)] then
                  ret (Ok match_)
              end
          end
      end
  end.

(** The range loop itself: each turn works on its own copy of the
    element, which is gone when the turn ends; the slice is not
    written. *)
Fixpoint fetch_range (indexName pcProjectID : string) (range : list QueryResponse)
    : M (option error) :=
  match range with
  | [] => ret None
  | match_ :: rest =>
      let* r := fetch_turn indexName pcProjectID match_ in
      match r with
      | Err err => ret (Some err)
      | Ok _ => fetch_range indexName pcProjectID rest
      end
  end.

Definition queryPinecone (indexName queryMessage pcProjectID : string)
    : M (res (list QueryResponse)) :=
  let url := queryURL indexName pcProjectID in
  let* r := embed.GetEmbedding E queryMessage embeddingModel in
  match r with
  | Err err =>
      do log_Printf "Error embedding query message: %v" [AErr err] then
      ret (Err (ErrorfErr "error embedding query message: %v" err))
  | Ok queryVector =>
      match json_Marshal (query_data queryVector) with
      | Err err =>
          do fmt_Println [AStr "Error marshalling query data: "; AErr err] then
          ret (Err err)
      | Ok jsonData =>
          match http_NewRequest E "POST" url (JSONBody jsonData) with
          | Err err =>
              do fmt_Println [AStr "Error creating new request: "; AErr err] then
              ret (Err err)
          | Ok req =>
              let req := Header_Set "accept" "application/json" req in
              let req := Header_Set "content-type" "application/json" req in
              let req := Header_Set "Api-Key" pcAPIKey req in
              let* resp := client_Do E req in
              match resp with
              | Err err =>
                  do log_Printf "Error sending request: %v" [AErr err] then
                  ret (Err err)
              | Ok resp =>
                  match Decode (decode_QueryResponseBody E) resp with
                  | Err err =>
                      do log_Printf "Error decoding response body: %v" [AErr err] then
                      ret (Err err)
                  | Ok response =>
                      let matches := Matches response in
                      let* stop := fetch_range indexName pcProjectID matches in
                      match stop with
                      | Some err => ret (Err err)
                      | None => ret (Ok matches)
                      end
                  end
              end
          end
      end
  end.

(** One turn of the display loop of [promptUserAndQueryPinecone]; an
    error ends the whole function. *)
Definition display_turn (indexName pcProjectID : string) (match_ : QueryResponse)
    : M (option error) :=
  match http_NewRequest E "GET" (fetchURL indexName pcProjectID (ID match_)) NoBody with
  | Err err =>
      do log_Printf "Error creating fetch request: %v" [AErr err] then
      ret (Some err)
  | Ok fetchReq =>
      let fetchReq := Header_Set "Api-Key" pcAPIKey fetchReq in
      let fetchReq := Header_Set "accept" "application/json" fetchReq in
      do log_Printf "Attempting to fetch vector content for ID %s" [AStr (ID match_)] then
      let* fetchResp := client_Do E fetchReq in
      match fetchResp with
      | Err err =>
          do log_Printf "Error sending fetch request: %v" [AErr err] then
          ret (Some err)
      | Ok fetchResp =>
          do fmt_Println [AStr ">>fetchResp"] then
          do fmt_Println [AResp fetchResp] then
          match Decode (decode_FetchResponse E) fetchResp with
          | Err err =>
              do fmt_Println [AStr "Error decoding fetch response"; AResp fetchResp] then
              do log_Printf "Error decoding fetch response: %v" [AErr err] then
              ret (Some err)
          | Ok fetchResponse =>
              match Vectors fetchResponse !! ID match_ with
              | Some vectorData =>
                  do fmt_Println [AStr "Fetched vector content for ID"; AStr (vID vectorData)] then
                  do fmt_Println [AFloats (vValues vectorData)] then
                  do log_Printf "Fetched vector content for ID %s: %v"
                       [AStr (vID vectorData); AFloats (vValues vectorData)] then
                  ret None
              | None =>
                  do log_Printf "No vector content found for ID %s" [AStr (ID match_)] then
                  do fmt_Println [AStr "no vector content for ID"; AStr ""] then
                  ret None
              end
          end
      end
  end.

Fixpoint display_range (indexName pcProjectID : string) (range : list QueryResponse)
    : M (option error) :=
  match range with
  | [] => ret None
  | match_ :: rest =>
      let* stop := display_turn indexName pcProjectID match_ in
      match stop with
      | Some err => ret (Some err)
      | None => display_range indexName pcProjectID rest
      end
  end.

(** The end of the standard input, as [reader.ReadString] reports it. *)
Definition EOF : error := ErrLib "EOF".

(** [promptUserAndQueryPinecone] on a standard input that delivers
    [input], one entry per successful [ReadString], and then ends. *)
Fixpoint promptUserAndQueryPinecone (indexName pcProjectID : string)
    (input : list string) : M (option error) :=
  do fmt_Print [AStr "Please enter a message to search for (or type 'end' to exit): "] then
  match input with
  | [] =>
      do log_Printf "Error reading user input: %v" [AErr EOF] then
      ret (Some EOF)
  | queryMessage :: rest =>
      let queryMessage := TrimSpace E queryMessage in
      if String.eqb (ToLower E queryMessage) "end" then
        do fmt_Println [AStr "You typed exit. Program exiting!"] then
        ret None
      else
        let* r := queryPinecone indexName queryMessage pcProjectID in
        match r with
        | Err err =>
            do log_Printf "Error querying Pinecone: %v" [AErr err] then
            promptUserAndQueryPinecone indexName pcProjectID rest
        | Ok queryResponse =>
            let* stop := display_range indexName pcProjectID queryResponse in
            match stop with
            | Some err => ret (Some err)
            | None => promptUserAndQueryPinecone indexName pcProjectID rest
            end
        end
  end.

(** *** What makes a step of the query path fail *)

(** A fetch by identifier, sent as call [n] of the run: the request
    cannot be built, it cannot be sent, or its response does not
    decode. *)
Definition fetch_error (n : nat) (req : Request) : option error :=
  if url_ok E (URL req) then
    match transport E n req with
    | Err e => Some e
    | Ok resp =>
        match Decode (decode_FetchResponse E) resp with
        | Err e => Some e
        | Ok _ => None
        end
    end
  else Some (ErrLib "net/url: parse error").

(** The similarity query for a vector, sent as call [n] of the run: the
    document does not encode, the request cannot be built, it cannot
    be sent, or its response does not decode. *)
Definition query_error (n : nat) (indexName pcProjectID : string)
    (queryVector : list float) : option error :=
  match json_Marshal (query_data queryVector) with
  | Err e => Some e
  | Ok _ =>
      if url_ok E (queryURL indexName pcProjectID) then
        match transport E n (query_request indexName pcProjectID queryVector) with
        | Err e => Some e
        | Ok resp =>
            match Decode (decode_QueryResponseBody E) resp with
            | Err e => Some e
            | Ok _ => None
            end
        end
      else Some (ErrLib "net/url: parse error")
  end.

End Main.
End main.

(** ** Concrete worlds

    Instances of [Env] on which the functions above run to a value. *)

Module lab.

(** [strings.ToLower] on ASCII text. *)
Definition lower (c : ascii) : ascii :=
  let n := nat_of_ascii c in
  if (65 <=? n)%nat && (n <=? 90)%nat then ascii_of_nat (n + 32) else c.

Fixpoint to_lower (s : string) : string :=
  match s with
  | String c t => String (lower c) (to_lower t)
  | EmptyString => EmptyString
  end.

(** The blanks of [strings.TrimSpace] among the ASCII bytes. *)
Definition blank (c : ascii) : bool :=
  match nat_of_ascii c with
  | 9 | 10 | 11 | 12 | 13 | 32 => true
  | _ => false
  end.

Fixpoint trim_right (s : string) : string :=
  match s with
  | String c t =>
      match trim_right t with
      | EmptyString => if blank c then EmptyString else String c EmptyString
      | t' => String c t'
      end
  | EmptyString => EmptyString
  end.

Definition trim_space (s : string) : string := trim_right (drop_while blank s).

Definition ok_response (body : string) : Response :=
  {| StatusCode := 200; Status := "200 OK"; Body := Ok body |}.

Definition status_response (code : Z) (status : string) : Response :=
  {| StatusCode := code; Status := status; Body := Ok "{}" |}.

(** A vector of the dimension of the index. *)
Definition vector : list float := repeat 0.25%float 1536.

(** The match a similarity query returns: identifier and score, no
    values. *)
Definition found : QueryResponse :=
  {| ID := "vector_id_1"; Score := 0.75%float; Values := [];
     Sparse := {| Indices := []; SparseVals := [] |}; Metadata := ∅ |}.

(** What the store holds under that identifier. *)
Definition stored : VectorData :=
  {| vID := "vector_id_1"; vValues := vector |}.

(** A world in which every call succeeds: the embedding service returns
    one vector of 1536 values, the store knows the project and the
    vector [vector_id_1], the disk takes every write. *)
Definition env : Env :=
  {| url_ok := fun _ => true;
     transport := fun _ _ => Ok (ok_response "{}");
     disk := fun _ _ => None;
     decode_ResponseData := fun _ => Ok [vector];
     decode_object := fun _ => Ok {[ "project_name" := JStr "proj" ]};
     decode_QueryResponseBody := fun _ => Ok {| Matches := [found]; Namespace := "" |};
     decode_FetchResponse :=
       fun _ => Ok {| Vectors := {[ "vector_id_1" := stored ]}; fNamespace := "" |};
     ParseFloat :=
       fun s => if String.eqb s "0.25" || String.eqb s "0.250000" then (0.25%float, None)
                else if String.eqb s "0.5" || String.eqb s "0.500000" then (0.5%float, None)
                else if String.eqb s "0.123457" then (0.123457%float, None)
                else if String.eqb s "1e999"
                     then (infinity, Some (ErrLib "strconv.ParseFloat: value out of range"))
                else (0%float, Some (ErrLib "strconv.ParseFloat: invalid syntax"));
     Sprintf_f :=
       fun f => if PrimFloat.eqb f 0.25 then "0.250000"
                else if PrimFloat.eqb f 0.1234567 then "0.123457"
                else "0.500000";
     TrimSpace := trim_space;
     ToLower := to_lower |}.

(** [env] with other replies of the network. *)
Definition with_transport (t : nat -> Request -> res Response) : Env :=
  {| url_ok := url_ok env; transport := t; disk := disk env;
     decode_ResponseData := decode_ResponseData env;
     decode_object := decode_object env;
     decode_QueryResponseBody := decode_QueryResponseBody env;
     decode_FetchResponse := decode_FetchResponse env;
     ParseFloat := ParseFloat env; Sprintf_f := Sprintf_f env;
     TrimSpace := TrimSpace env; ToLower := ToLower env |}.

(** [env] with a disk that takes nothing: a record of 1536 values is
    larger than the buffer of the writer, so that the error of the
    file comes back from [Write] itself. *)
Definition full_disk : Env :=
  {| url_ok := url_ok env; transport := transport env;
     disk := fun _ _ => Some (0, ErrLib "write: no space left on device");
     decode_ResponseData := decode_ResponseData env;
     decode_object := decode_object env;
     decode_QueryResponseBody := decode_QueryResponseBody env;
     decode_FetchResponse := decode_FetchResponse env;
     ParseFloat := ParseFloat env; Sprintf_f := Sprintf_f env;
     TrimSpace := TrimSpace env; ToLower := ToLower env |}.

(** [full_disk] with an embedding service that returns two values: the
    record fits into the buffer of the writer. *)
Definition full_disk_short : Env :=
  {| url_ok := url_ok env; transport := transport env; disk := disk full_disk;
     decode_ResponseData := fun _ => Ok [[0.25%float; 0.5%float]];
     decode_object := decode_object env;
     decode_QueryResponseBody := decode_QueryResponseBody env;
     decode_FetchResponse := decode_FetchResponse env;
     ParseFloat := ParseFloat env; Sprintf_f := Sprintf_f env;
     TrimSpace := TrimSpace env; ToLower := ToLower env |}.

(** The third call of the run meets a dead connection. *)
Definition third_call_fails : Env :=
  with_transport (fun n _ => if Nat.eqb n 2 then Err (ErrLib "dial tcp: timeout")
                             else Ok (ok_response "{}")).

(** The fourth call of the run meets it. *)
Definition fourth_call_fails : Env :=
  with_transport (fun n _ => if Nat.eqb n 3 then Err (ErrLib "dial tcp: timeout")
                             else Ok (ok_response "{}")).

(** The index is missing and the store answers the create call with
    [201 Created]. *)
Definition missing_index : Env :=
  with_transport (fun n _ => if Nat.eqb n 0 then Ok (status_response 404 "404 Not Found")
                             else Ok (status_response 201 "201 Created")).

End lab.

(** ** Further descriptions, to state what the rest of the code does *)

(** *** The bytes on their way to the output file *)

(** Everything the writers were given and did not lose: the bytes in
    the file followed by those in the buffer. *)
Definition stream (w : World) : string := file w +:+ buffered w.

(** The output file takes every write. *)
Definition healthy (E : Env) : Prop := forall n chunk, disk E n chunk = None.

(** What a call on the writers does with the [bytes] it is to write:
    it sends nothing and prints nothing, and the file only grows; a
    writer that holds an error changes nothing; from a writer without
    error, a call that returns [nil] has put all the bytes behind the
    stream, and a call that returns an error leaves the writer holding
    that error and the stream cut somewhere inside those bytes; when
    the file takes every write the call returns [nil]. *)
Record pushes (E : Env) (bytes : string) (w : World) (r : option error) (w' : World)
    : Prop := {
  pushes_calls : calls w' = calls w;
  pushes_out : out w' = out w;
  pushes_sink : sink w' = sink w;
  pushes_grows : exists more, file w' = file w +:+ more;
  pushes_held : forall e, stuck w = Some e -> w' = w /\ (r = None \/ r = Some e);
  pushes_ok : stuck w = None -> r = None ->
              stuck w' = None /\ stream w' = stream w +:+ bytes;
  pushes_err : stuck w = None -> forall e, r = Some e ->
               stuck w' = Some e
               /\ exists lost, stream w +:+ bytes = stream w' +:+ lost;
  pushes_healthy : healthy E -> stuck w = None -> r = None
}.

(** The loop of [WriteString] likewise, [rest] being the text it hands
    on. *)
Record carries (E : Env) (s : string) (w : World) (rest : string) (w' : World)
    : Prop := {
  carries_calls : calls w' = calls w;
  carries_out : out w' = out w;
  carries_sink : sink w' = sink w;
  carries_grows : exists more, file w' = file w +:+ more;
  carries_held : forall e, stuck w = Some e -> w' = w /\ rest = s;
  carries_on : stuck w = None ->
               match stuck w' with
               | None => stream w' +:+ rest = stream w +:+ s
               | Some _ => exists lost, stream w +:+ s = stream w' +:+ lost
               end;
  carries_healthy : healthy E -> stuck w = None -> stuck w' = None
}.

(** *** A vector on its way through the file *)




(** *** The rows of a vector file, one by one *)

Module vectors.

(** The values of a row as the inner loop leaves them: what
    [ParseFloat] returned for each field, error or not. *)
Definition row_values (E : Env) (line : string) : list float :=
  map (fun v => (ParseFloat E v).1) (Split line ",").

(** A write request can be made for the row: its document encodes and
    the address is accepted. *)
Definition sendable (E : Env) (url : string) (lineNumber : nat) (line : string) : bool :=
  marshal_ok (upsert.upsert_data lineNumber (row_values E line)) && url_ok E url.

(** The write requests of a file, [lineNumber] lines having been read
    before. *)
Fixpoint write_calls (E : Env) (url : string) (lineNumber : nat) (rows : list string)
    : list Request :=
  match rows with
  | [] => []
  | line :: rest =>
      (if sendable E url (S lineNumber) line
       then [upsert.upsert_request url (S lineNumber) (row_values E line)]
       else [])
      ++ write_calls E url (S lineNumber) rest
  end.

(** The store took the write: a response came back, with a status
    under 400. *)
Definition accepted (reply : res Response) : bool :=
  match reply with
  | Ok resp => negb (400 <=? StatusCode resp)%Z
  | Err _ => false
  end.

(** The rows the store takes, the first write request of the file
    being call [n] of the run. *)
Fixpoint upserted (E : Env) (url : string) (n lineNumber : nat) (rows : list string)
    : nat :=
  match rows with
  | [] => 0
  | line :: rest =>
      if sendable E url (S lineNumber) line
      then (if accepted (transport E n
                           (upsert.upsert_request url (S lineNumber) (row_values E line)))
            then 1 else 0)
           + upserted E url (S n) (S lineNumber) rest
      else upserted E url n (S lineNumber) rest
  end.

(** The identifier a write request carries. *)
Definition upsert_id (req : Request) : option string :=
  match ReqBody req with
  | JSONBody (JObj [(_, JArr [JObj ((_, JStr id) :: _)])]) => Some id
  | _ => None
  end.

(** The identifier given to the line of a number. *)
Definition vector_id (lineNumber : nat) : string :=
  "vector_id_" +:+ Sprintf_d lineNumber.

End vectors.

(** ** Further concrete worlds *)

Module worlds.

(** The whoami response has no [project_name]. *)
Definition no_project : Env :=
  {| url_ok := url_ok lab.env; transport := transport lab.env; disk := disk lab.env;
     decode_ResponseData := decode_ResponseData lab.env;
     decode_object := fun _ => Ok (∅ : gmap string jvalue);
     decode_QueryResponseBody := decode_QueryResponseBody lab.env;
     decode_FetchResponse := decode_FetchResponse lab.env;
     ParseFloat := ParseFloat lab.env; Sprintf_f := Sprintf_f lab.env;
     TrimSpace := TrimSpace lab.env; ToLower := ToLower lab.env |}.

End worlds.

(** ** The command-line driver: [main] of package [main]

    The driver reaches two more things of the outside: the text files
    on the disk, held as lines under their paths, each line without
    its line feed, and the standard input, of which the reader of
    [main] delivers [typed] and the reader opened by the n-th query
    action delivers an entry of [sessions].  The log file [err.log] is
    taken to open and to sync, and an output file to be created
    whenever asked. *)

Module driver.

Definition enFileToEmbedPath : string := "./en_files/en_chat.txt".
Definition heFileToEmbedPath : string := "./he_files/he_chat.txt".
Definition enEmbeddedCSVPath : string := "./en_files/en_embeddings.csv".
Definition heEmbeddedCSVPath : string := "./he_files/he_embeddings.csv".

(** How the process ends: [main] returns, [log.Fatalf] exits (it has
    written its line to the log as [log.Printf] does), or a panic
    unwinds. *)
Inductive ending : Type :=
| Returned
| Exited
| Panicked (why : string).

(** What an action leaves to the loop over the actions: go on, or end. *)
Inductive step : Type :=
| Next
| End (e : ending).

Section Driver.
Variable E : Env.
(* strings.Fields *)
Variable Fields : string -> list string.

(** [reader.ReadString] with its error dropped: the next line, or what
    is left at the end of the input, nothing. *)
Definition ReadString (typed : list string) : string * list string :=
  match typed with
  | [] => ("", [])
  | line :: rest => (line, rest)
  end.

(** [fmt.Sprintf("%s-%s", embeddingsFileName, suffix)] *)
Definition suffixed (embeddingsFileName suffix : string) : string :=
  embeddingsFileName +:+ "-" +:+ suffix.

(** The lines of a file of the given bytes. *)
Definition file_lines (content : string) : list string :=
  let pieces := Split content LF in
  if String.eqb (List.last pieces "") "" then removelast pieces else pieces.

(** [embed.CreateEmbeddingFile] with its files: the output file is
    created under the suffixed name, then the input file is opened,
    [log.Fatalf] ending the process when it is not there; the output
    file holds the bytes that reached it by the end of the function.
    The input file is meant to be another file than the output file,
    as it is for the paths of [main]. *)
Definition CreateEmbeddingFile_on (files : gmap string (list string))
    (inputFileName embeddingsFileName embeddingModel suffix : string)
    : M (option (option error) * gmap string (list string)) :=
  fun w =>
    let embeddingsFileName := suffixed embeddingsFileName suffix in
    let files := <[embeddingsFileName := []]> files in
    match files !! inputFileName with
    | None =>
        (do log_Printf "In CreatingEmbeddingsFile: Error opening input file: %v"
              [AErr (ErrLib "open: no such file or directory")] then
         ret (None, files)) w
    | Some content =>
        let (r, w') :=
          embed.CreateEmbeddingFile E (Scan content).1 (Scan content).2 embeddingModel w in
        ((r, <[embeddingsFileName := file_lines (file w')]> files), w')
    end.

(** The part of [upsert.UpsertDataToPinecone] in front of [os.Open]. *)
Definition upsert_whoami (filePath : string) : M (outcome (res string)) :=
  do fmt_Println [AStr "Upserting from: "; AStr filePath] then
  match http_NewRequest E "GET" whoamiURL NoBody with
  | Err err =>
      do log_Printf "Error creating new request: %v" [AErr err] then
      ret (Returns (Err err))
  | Ok req =>
      let req := Header_Set "Api-Key" pcAPIKey req in
      let* resp := client_Do E req in
      match resp with
      | Err err =>
          do log_Printf "Error in HTTP request: %v" [AErr err] then
          ret (Returns (Err err))
      | Ok resp =>
          match Decode (decode_object E) resp with
          | Err err =>
              do log_Printf "Error decoding response: %v" [AErr err] then
              ret (Returns (Err err))
          | Ok result =>
              match assert_string (result !! "project_name") with
              | Panics why => ret (Panics why)
              | Returns pcProjectID => ret (Returns (Ok pcProjectID))
              end
          end
      end
  end.

(** [upsert.UpsertDataToPinecone] with its file: [None] when
    [log.Fatalf] ends the process because the file does not open. *)
Definition UpsertDataToPinecone_on (files : gmap string (list string))
    (indexName filePath : string) : M (option (outcome (option error))) :=
  match files !! filePath with
  | Some content =>
      let* r := upsert.UpsertDataToPinecone E indexName filePath
                  (Scan content).1 (Scan content).2 in
      ret (Some r)
  | None =>
      let* r := upsert_whoami filePath in
      match r with
      | Panics why => ret (Some (Panics why))
      | Returns (Err err) => ret (Some (Returns (Some err)))
      | Returns (Ok _) =>
          do log_Printf "Failed to open file: %v"
               [AErr (ErrLib "open: no such file or directory")] then
          ret None
      end
  end.

(** The case [embed] of the switch. *)
Definition embed_action (files : gmap string (list string))
    (inputFileName embeddingsFileName suffix : string)
    : M (step * gmap string (list string)) :=
  let* r := CreateEmbeddingFile_on files inputFileName embeddingsFileName
              embeddingModel suffix in
  match r with
  | (None, files) => ret (End Exited, files)
  | (Some (Some err), files) =>
      do log_Printf "Error creating embedding file: %v" [AErr err] then
      ret (End Exited, files)
  | (Some None, files) => ret (Next, files)
  end.

(** The case [upsert] of the switch. *)
Definition upsert_action (files : gmap string (list string))
    (inputFileName embeddingsFileName : string) : M step :=
  if String.eqb inputFileName "" || String.eqb embeddingsFileName "" then
    do fmt_Println [AStr "Embedding must be done before upserting."] then
    ret (End Returned)
  else
    let* err := upsert.GetOrCreatePineconeIndex E indexName in
    match err with
    | Some err =>
        do log_Printf "Error ensuring Pinecone index exists: %v" [AErr err] then
        ret (End Exited)
    | None =>
        let* r := UpsertDataToPinecone_on files indexName embeddingsFileName in
        match r with
        | None => ret (End Exited)
        | Some (Panics why) => ret (End (Panicked why))
        | Some (Returns (Some err)) =>
            do fmt_Println [AStr "Failed upserting data to pinecone"; AErr err] then
            do log_Printf "Error upserting data to Pinecone: %v" [AErr err] then
            ret (End Returned)
        | Some (Returns None) => ret Next
        end
    end.

(** The case [query] of the switch; the error of [getPcProjectID] is
    dropped and the identifier is then empty. *)
Definition query_action (session : list string) : M step :=
  let* r := main.getPcProjectID E in
  let pcProjectID := match r with Ok id => id | Err _ => "" end in
  let* err := main.promptUserAndQueryPinecone E indexName pcProjectID session in
  match err with
  | Some err =>
      do fmt_Println [AStr "Error in the query proces: "; AErr err] then
      do fmt_Println [AStr "There was an Error in the query proces: "] then
      do log_Printf "Error in the query process: %v" [AErr err] then
      ret (End Exited)
  | None => ret Next
  end.

(** The loop over the actions; [stamps] holds the time suffix of each
    embed action to come and [sessions] the input of each query action
    to come. *)
Fixpoint run_actions (actions : list string) (inputFileName embeddingsFileName : string)
    (stamps : list string) (sessions : list (list string))
    (files : gmap string (list string)) : M (ending * gmap string (list string)) :=
  match actions with
  | [] => ret (Returned, files)
  | act :: rest =>
      if String.eqb act "embed" then
        let* r := embed_action files inputFileName embeddingsFileName (hd "" stamps) in
        match r with
        | (End e, files) => ret (e, files)
        | (Next, files) =>
            run_actions rest inputFileName embeddingsFileName (tl stamps) sessions files
        end
      else if String.eqb act "upsert" then
        let* r := upsert_action files inputFileName embeddingsFileName in
        match r with
        | End e => ret (e, files)
        | Next => run_actions rest inputFileName embeddingsFileName stamps sessions files
        end
      else if String.eqb act "query" then
        let* r := query_action (hd [] sessions) in
        match r with
        | End e => ret (e, files)
        | Next =>
            run_actions rest inputFileName embeddingsFileName stamps (tl sessions) files
        end
      else
        do fmt_Println [AStr "Unknown action: "; AStr act] then
        ret (Returned, files)
  end.

Definition main (typed : list string) (stamps : list string)
    (sessions : list (list string)) (files : gmap string (list string))
    : M (ending * gmap string (list string)) :=
  do fmt_Println [AStr "What is the action? Options are: embed/upsert/query"] then
  let (action, typed) := ReadString typed in
  let action := TrimSpace E action in
  let actions := Fields action in
  if Nat.eqb (length actions) 0 then
    do fmt_Println [AStr "No action specified."] then
    ret (Returned, files)
  else
    do fmt_Print [AStr "Choose language (en/he): "] then
    let (lang, typed) := ReadString typed in
    let lang := TrimSpace E lang in
    if String.eqb lang "he" then
      run_actions actions heFileToEmbedPath heEmbeddedCSVPath stamps sessions files
    else
      do fmt_Println [AStr "Unknown language. Please specify 'en' or 'he'."] then
      ret (Returned, files).

End Driver.
End driver.

(** * Properties *)

(** ** The line parser *)

Section MatcherFacts.
Context {R : Type}.

Lemma blank_is_no_colon c : is_space c = true -> is_byte ":" c = false.
Proof.
  unfold is_space, is_byte. intros H.
  destruct (Ascii.eqb_spec c ":") as [->|]; [discriminate H | reflexivity].
Qed.

(** [\s*] followed by something that wants a colon fails when no colon
    follows the blanks. *)
Lemma star_greedy_wants_colon (k : nat -> string -> option R) :
  (forall pos c s, is_byte ":" c = false -> k pos (String c s) = None) ->
  (forall pos, k pos EmptyString = None) ->
  forall s pos, colon_follows s = false -> star_greedy is_space pos s k = None.
Proof.
  intros Hk Hk0. induction s as [|c s IH]; intros pos Hc; simpl.
  - apply Hk0.
  - destruct (is_space c) eqn:Hsp.
    + rewrite IH.
      * apply Hk. by apply blank_is_no_colon.
      * unfold colon_follows in *. simpl in Hc. by rewrite Hsp in Hc.
    + apply Hk. unfold colon_follows in Hc. simpl in Hc. by rewrite Hsp in Hc.
Qed.

(** A continuation that never fails makes a greedy repetition take
    the whole run. *)
Lemma star_greedy_takes_all p (f : nat -> R) s pos :
  star_greedy p pos s (fun pos' _ => Some (f pos'))
  = Some (f (pos + String.length (take_while p s))).
Proof.
  revert pos. induction s as [|c s IH]; intros pos; simpl.
  - by rewrite Nat.add_0_r.
  - destruct (p c); simpl.
    + rewrite IH. do 2 f_equal. lia.
    + by rewrite Nat.add_0_r.
Qed.

Lemma after_bracket_fails s pos cap (k : nat -> string -> capture -> option R) :
  has_separator s = false -> exec re_after_bracket pos s cap k = None.
Proof.
  intros H. destruct s as [|c s]; [reflexivity|].
  simpl in *. destruct (is_byte "]" c); [|reflexivity].
  simpl in H. apply orb_false_iff in H as [H _].
  apply star_greedy_wants_colon; [| reflexivity | exact H].
  intros pos' c' s' Hc. by rewrite Hc.
Qed.

Lemma has_separator_tail c s : has_separator (String c s) = false -> has_separator s = false.
Proof. simpl. intros H. by apply orb_false_iff in H as [_ H]. Qed.

Lemma lazy_any_fails s pos cap (k : nat -> string -> capture -> option R) :
  has_separator s = false ->
  star_lazy any_char pos s (fun pos' s' => exec re_after_bracket pos' s' cap k) = None.
Proof.
  revert pos. induction s as [|c s IH]; intros pos H.
  - reflexivity.
  - cbn [star_lazy]. rewrite (after_bracket_fails _ _ _ _ H).
    destruct (any_char c); [|reflexivity].
    apply IH. by eapply has_separator_tail.
Qed.

(** Without a separator the prefix alternative matches nowhere. *)
Lemma prefix_fails s pos cap (k : nat -> string -> capture -> option R) :
  has_separator s = false -> exec re_prefix pos s cap k = None.
Proof.
  intros H. destruct s as [|c s]; [reflexivity|].
  cbn [re_prefix exec]. destruct (is_byte "[" c); [|reflexivity].
  apply (lazy_any_fails s (S pos) cap k). by eapply has_separator_tail.
Qed.
End MatcherFacts.

Lemma substring_take_while p s :
  substring 0 (String.length (take_while p s)) s = take_while p s.
Proof.
  induction s as [|c s IH]; simpl; [reflexivity|].
  destruct (p c); simpl; [by rewrite IH | reflexivity].
Qed.

(** Past the start of the line only the prefix alternative could match. *)
Lemma search_later_fails s pos :
  has_separator s = false -> search re (S pos) s = None.
Proof.
  revert pos. induction s as [|c s IH]; intros pos H.
  - cbn [search]. unfold match_at, re. cbn [exec]. by rewrite prefix_fails.
  - cbn [search]. unfold match_at, re. cbn [exec]. rewrite prefix_fails by done.
    cbn [Nat.eqb]. apply IH. by eapply has_separator_tail.
Qed.

(** Without a separator only the anchored alternative is left, and it
    wants a token at the very start of the line. *)
Lemma FindStringSubmatch_without_separator line :
  has_separator line = false ->
  FindStringSubmatch re line =
    if starts_blank line then [] else [first_token line; first_token line].
Proof.
  intros H. unfold FindStringSubmatch.
  destruct line as [|c rest]; [reflexivity|].
  cbn [search starts_blank]. unfold match_at, re. cbn [exec].
  rewrite prefix_fails by done. cbn [Nat.eqb re_token exec].
  unfold first_token. cbn [drop_while take_while].
  destruct (non_space c) eqn:Hn.
  - assert (Hc : is_space c = false) by (by apply negb_true_iff in Hn).
    rewrite Hc. cbn [take_while]. rewrite Hn.
    rewrite (star_greedy_takes_all non_space (fun e => (e, Some (0, e)))).
    unfold slice. rewrite Nat.sub_0_r. cbn [Nat.add substring].
    by rewrite substring_take_while.
  - assert (Hc : is_space c = true) by (by apply negb_false_iff in Hn).
    rewrite Hc.
    by rewrite search_later_fails by (by eapply has_separator_tail).
Qed.

(** On a line without separator the parser takes the first
    whitespace-delimited token when the line begins with one, and
    reports a parse failure with the empty message when the line is
    empty or begins with a blank. *)
Lemma parse_line_without_separator line :
  has_separator line = false ->
  parse_line line =
    if starts_blank line
    then {| message := ""; parse_failed := true; matched := 0 |}
    else {| message := first_token line; parse_failed := false; matched := 2 |}.
Proof.
  intros H. unfold parse_line.
  rewrite FindStringSubmatch_without_separator by done.
  by destruct (starts_blank line).
Qed.

Lemma parse_line_without_separator_witness :
  parse_line "hello world" = {| message := "hello"; parse_failed := false; matched := 2 |}.
Proof. exact (parse_line_without_separator "hello world" eq_refl). Defined.

(** C4 on the documented line.  The bracket that closes the stamp is
    followed by a blank and the tilde, not by a colon, and the colon
    behind the name of the sender has no bracket before it: the line
    has no separator the expression recognises.  The expression
    matches at the start of the line, and the message is the opening
    bracket with the date, not the text behind the sender. *)
Theorem parse_line_documented_line :
  has_separator example_line = false
  /\ parse_line example_line
     = {| message := "[09.09.23,"; parse_failed := false; matched := 2 |}
  /\ message (parse_line example_line) <> "Hello world!".
Proof. vm_compute. repeat split; discriminate. Qed.

(** A line without separator that begins with a blank yields no token
    at all: the parse-failure branch runs. *)
Example parse_line_leading_blank :
  has_separator " hi" = false
  /\ first_token " hi" = "hi"
  /\ parse_line " hi" = {| message := ""; parse_failed := true; matched := 0 |}.
Proof. by vm_compute. Qed.

(** Where the separator is recognised, the group takes the token after
    it. *)
Example parse_line_after_separator :
  message (parse_line "[09.09.23, 14:35:02]: ~Hello world!") = "Hello".
Proof. reflexivity. Qed.

(** ** Worlds *)

Ltac world_simpl :=
  cbn [ret fst snd calls out sink file buffered stuck writes printed sent emit
       writer_at took log_Printf fmt_Println fmt_Print fmt_Printf].

Lemma printed_printed l1 l2 w : printed l2 (printed l1 w) = printed (l1 ++ l2) w.
Proof. unfold printed. simpl. by rewrite <- app_assoc. Qed.

(** ** Strings *)

Lemma append_cons x (a b : string) : String x a +:+ b = String x (a +:+ b).
Proof. reflexivity. Qed.

Lemma append_nil (b : string) : "" +:+ b = b.
Proof. reflexivity. Qed.

Lemma append_assoc (a b c : string) : (a +:+ b) +:+ c = a +:+ (b +:+ c).
Proof.
  induction a as [|x a IH]; [reflexivity|]. rewrite !append_cons. by f_equal.
Qed.

Lemma append_empty_r (a : string) : a +:+ "" = a.
Proof.
  induction a as [|x a IH]; [reflexivity|]. rewrite append_cons. by f_equal.
Qed.

Lemma length_append (a b : string) :
  String.length (a +:+ b) = String.length a + String.length b.
Proof.
  induction a as [|x a IH]; [reflexivity|]. rewrite append_cons. cbn [String.length].
  by rewrite IH.
Qed.

Lemma all_bytes_append (p : ascii -> bool) a b :
  all_bytes p (a +:+ b) = all_bytes p a && all_bytes p b.
Proof.
  induction a as [|c a IH]; [by rewrite append_nil|].
  rewrite append_cons. cbn [all_bytes]. by rewrite IH, andb_assoc.
Qed.

(** ** The output file and its writers *)

Lemma str_take_drop n s : str_take n s +:+ str_drop n s = s.
Proof.
  revert s. induction n as [|n IH]; intros [|c s]; cbn [str_take str_drop];
    rewrite ?append_nil, ?append_cons; try reflexivity.
  by rewrite IH.
Qed.

Lemma str_drop_all s : str_drop (String.length s) s = "".
Proof. induction s as [|c s IH]; [reflexivity|]. exact IH. Qed.

Lemma length_0_empty s : Nat.eqb (String.length s) 0 = true -> s = "".
Proof. by destruct s. Qed.

Lemma stream_at f b e n w : stream (writer_at f b e n w) = f +:+ b.
Proof. reflexivity. Qed.

Ltac writer_split :=
  split; cbn [calls out sink file buffered stuck writes writer_at fst snd];
  try done; try (intros ? ?; congruence).

(** A call that does nothing. *)
Lemma pushes_nothing E w : pushes E "" w None w.
Proof.
  split; try done.
  - exists "". by rewrite append_empty_r.
  - intros e _. by split; [|left].
  - intros Hs _. by rewrite append_empty_r.
Qed.

(** A call that only returns the error the writer holds. *)
Lemma pushes_of_held E bytes w e : stuck w = Some e -> pushes E bytes w (Some e) w.
Proof.
  intros Hs. split; try done.
  - exists "". by rewrite append_empty_r.
  - intros e' Hs'. split; [done|right; congruence].
  - intros Hs'. congruence.
  - intros _ Hs'. congruence.
Qed.

(** A held error comes back from [Flush], [WriteByte] and
    [WriteString], and nothing changes. *)
Lemma bufio_Flush_held E w e : stuck w = Some e -> bufio_Flush E w = (Some e, w).
Proof. intros H. unfold bufio_Flush. by rewrite H. Qed.

Lemma bufio_WriteByte_held E c w e :
  stuck w = Some e -> bufio_WriteByte E c w = (Some e, w).
Proof. intros H. unfold bufio_WriteByte. by rewrite H. Qed.

Lemma WriteString_loop_held E rounds s w e :
  stuck w = Some e -> WriteString_loop E rounds s w = (s, w).
Proof.
  intros H. destruct rounds; [reflexivity|]. cbn [WriteString_loop].
  by rewrite H, andb_false_r.
Qed.

Lemma bufio_WriteString_held E s w e :
  stuck w = Some e -> bufio_WriteString E s w = (Some e, w).
Proof.
  intros H. unfold bufio_WriteString, bind. rewrite (WriteString_loop_held _ _ _ _ _ H).
  by rewrite H.
Qed.

Lemma bufio_Flush_pushes E w :
  pushes E "" w (bufio_Flush E w).1 (bufio_Flush E w).2.
Proof.
  unfold bufio_Flush. destruct (stuck w) as [e|] eqn:Hs.
  { cbn [fst snd]. by apply pushes_of_held. }
  destruct (Nat.eqb (String.length (buffered w)) 0) eqn:Hn.
  { cbn [fst snd]. apply pushes_nothing. }
  unfold file_Write. destruct (disk E (writes w) (buffered w)) as [[n e]|] eqn:Hd;
    cbn [fst snd]; split; cbn [calls out sink file stuck writer_at]; try done;
    try (intros ? ?; congruence).
  - eexists. reflexivity.
  - intros _ e' [= <-]. split; [reflexivity|]. exists "".
    rewrite !stream_at. unfold stream. rewrite !append_empty_r, append_assoc.
    by rewrite str_take_drop.
  - eexists. reflexivity.
Qed.

Lemma bufio_WriteByte_pushes E c w :
  pushes E (String c "") w (bufio_WriteByte E c w).1 (bufio_WriteByte E c w).2.
Proof.
  unfold bufio_WriteByte. destruct (stuck w) as [e|] eqn:Hs.
  { cbn [fst snd]. by apply pushes_of_held. }
  assert (pushes E "" w
            (if Nat.eqb (Available w) 0 then bufio_Flush E w else (None, w)).1
            (if Nat.eqb (Available w) 0 then bufio_Flush E w else (None, w)).2) as Hf.
  { destruct (Nat.eqb (Available w) 0); [apply bufio_Flush_pushes | apply pushes_nothing]. }
  destruct (if Nat.eqb (Available w) 0 then bufio_Flush E w else (None, w)) as [[e|] w1].
  - cbn [fst snd] in *. destruct Hf as [Hc Ho Hk Hg Hh Hok Herr Hhl].
    split; try done; try (intros ? ?; congruence).
    intros _ e' [= <-]. destruct (Herr Hs e eq_refl) as [Hst [lost Hl]].
    split; [done|]. exists (lost +:+ String c ""). rewrite append_empty_r in Hl.
    by rewrite Hl, append_assoc.
  - cbn [fst snd] in *. destruct Hf as [Hc Ho Hk Hg Hh Hok Herr Hhl].
    destruct (Hok Hs eq_refl) as [Hst Hstream]. rewrite append_empty_r in Hstream.
    split; cbn [calls out sink file stuck writer_at]; try done;
      try (intros ? ?; congruence).
    intros _ _. split; [done|]. rewrite stream_at. unfold stream in *.
    by rewrite <- append_assoc, Hstream.
Qed.

Lemma WriteString_loop_carries E rounds :
  forall s w, carries E s w (WriteString_loop E rounds s w).1 (WriteString_loop E rounds s w).2.
Proof.
  assert (forall s w, carries E s w s w) as Hrefl.
  { intros s w. split; try done.
    - exists "". by rewrite append_empty_r.
    - intros Hs. by rewrite Hs. }
  induction rounds as [|rounds IH]; intros s w; [apply Hrefl|].
  cbn [WriteString_loop].
  destruct (stuck w) as [e|] eqn:Hs.
  { rewrite andb_false_r. apply Hrefl. }
  rewrite andb_true_r.
  destruct (Available w <? String.length s)%nat; [|apply Hrefl].
  destruct (Nat.eqb (String.length (buffered w)) 0) eqn:Hn.
  - apply length_0_empty in Hn.
    unfold file_Write. destruct (disk E (writes w) s) as [[n e]|] eqn:Hd; cbn [fst snd].
    + match goal with |- carries _ _ _ (WriteString_loop E rounds ?s1 ?w1).1 _ =>
        rewrite (WriteString_loop_held E rounds s1 w1 e eq_refl) end.
      writer_split.
      * eexists. reflexivity.
      * intros _. exists (str_drop (Nat.min n (String.length s)) s).
        rewrite stream_at. unfold stream. rewrite Hn, !append_empty_r.
        by rewrite append_assoc, str_take_drop.
    + match goal with |- carries _ _ _ (WriteString_loop E rounds ?s1 ?w1).1 _ =>
        specialize (IH s1 w1);
        destruct (WriteString_loop E rounds s1 w1) as [rest w2] end.
      cbn [fst snd] in *. destruct IH as [Hc Ho Hk [more Hg] Hh Hon Hhl].
      cbn [calls out sink file buffered stuck writes writer_at] in *.
      writer_split.
      * eexists. rewrite Hg, append_assoc. reflexivity.
      * intros _. specialize (Hon eq_refl). rewrite stream_at, str_drop_all in Hon.
        assert (stream w +:+ s = ((file w +:+ s) +:+ buffered w) +:+ "") as ->; [|exact Hon].
        unfold stream. by rewrite Hn, !append_empty_r.
      * intros H _. by apply Hhl.
  - cbv zeta.
    match goal with
    | |- context [bufio_Flush E ?w0] =>
        pose proof (bufio_Flush_pushes E w0) as Hf;
        assert (stream w +:+ s = stream w0 +:+ str_drop (Available w) s) as Hcut;
        [rewrite stream_at; unfold stream; rewrite !append_assoc;
         by rewrite str_take_drop|];
        destruct (bufio_Flush E w0) as [rf w1]
    end.
    cbn [fst snd] in Hf.
    destruct Hf as [Hc1 Ho1 Hk1 [more1 Hg1] Hh1 Hok1 Herr1 Hhl1].
    cbn [calls out sink file buffered stuck writes writer_at] in *.
    specialize (Hok1 eq_refl). specialize (Herr1 eq_refl).
    specialize (IH (str_drop (Available w) s) w1).
    destruct (WriteString_loop E rounds (str_drop (Available w) s) w1) as [rest w2].
    cbn [fst snd] in *. destruct IH as [Hc Ho Hk [more Hg] Hh Hon Hhl].
    split.
    + by rewrite Hc.
    + by rewrite Ho.
    + by rewrite Hk.
    + eexists. rewrite Hg, Hg1, append_assoc. reflexivity.
    + intros ? ?; congruence.
    + intros _. rewrite Hcut. destruct rf as [e|].
      * destruct (Herr1 e eq_refl) as [Hst [lost Hl]].
        destruct (Hh e Hst) as [-> ->]. rewrite Hst.
        exists (lost +:+ str_drop (Available w) s).
        rewrite append_empty_r in Hl. by rewrite Hl, append_assoc.
      * destruct (Hok1 eq_refl) as [Hst Hstream]. rewrite append_empty_r in Hstream.
        specialize (Hon Hst). rewrite <- Hstream. exact Hon.
    + intros H _. apply Hhl; [done|].
      specialize (Hhl1 H eq_refl). subst rf. by destruct (Hok1 eq_refl).
Qed.

(** Two rounds are all the loop of [WriteString] makes: further
    rounds change nothing. *)
Lemma WriteString_loop_stop E rounds s w :
  (Available w <? String.length s)%nat
  && match stuck w with None => true | Some _ => false end = false ->
  WriteString_loop E rounds s w = (s, w).
Proof. intros H. destruct rounds; [reflexivity|]. cbn [WriteString_loop]. by rewrite H. Qed.

Lemma WriteString_loop_add E k m :
  forall s w,
    WriteString_loop E (k + m) s w
    = let (rest, w') := WriteString_loop E k s w in WriteString_loop E m rest w'.
Proof.
  induction k as [|k IH]; intros s w; [reflexivity|].
  cbn [Nat.add WriteString_loop].
  destruct ((Available w <? String.length s)%nat
            && match stuck w with None => true | Some _ => false end) eqn:Hc.
  - destruct (Nat.eqb (String.length (buffered w)) 0).
    + destruct (file_Write E s w) as [r w1]. apply IH.
    + cbv zeta. destruct (bufio_Flush E _) as [rf w1]. apply IH.
  - by rewrite WriteString_loop_stop.
Qed.

Lemma bufio_Flush_empties E w :
  (bufio_Flush E w).1 = None -> buffered (bufio_Flush E w).2 = "".
Proof.
  unfold bufio_Flush. destruct (stuck w); [discriminate|].
  destruct (Nat.eqb (String.length (buffered w)) 0) eqn:Hn.
  { intros _. by apply length_0_empty. }
  destruct (file_Write E (buffered w) w) as [[n [e|]] w1]; by cbn [fst snd].
Qed.

Lemma bufio_Flush_stuck E w :
  (bufio_Flush E w).1 = stuck (bufio_Flush E w).2.
Proof.
  unfold bufio_Flush. destruct (stuck w) eqn:Hs; [by cbn [fst snd]|].
  destruct (Nat.eqb (String.length (buffered w)) 0); [by cbn [fst snd]|].
  destruct (file_Write E (buffered w) w) as [[n [e|]] w1]; by cbn [fst snd].
Qed.

Lemma WriteString_loop_empty E rounds s w :
  buffered w = "" -> stuck w = None ->
  let r := WriteString_loop E (S rounds) s w in
  (Available r.2 <? String.length r.1)%nat
  && match stuck r.2 with None => true | Some _ => false end = false.
Proof.
  intros Hb Hs. cbv zeta. cbn [WriteString_loop]. rewrite Hs, andb_true_r.
  destruct (Available w <? String.length s)%nat eqn:Hfit.
  - rewrite Hb. cbn [String.length Nat.eqb]. unfold file_Write.
    destruct (disk E (writes w) s) as [[n e]|]; cbn [fst snd].
    + rewrite (WriteString_loop_held E rounds _ (writer_at _ _ (Some e) _ _) e eq_refl).
      cbn [fst snd stuck writer_at]. apply andb_false_r.
    + rewrite str_drop_all. rewrite WriteString_loop_stop; [|reflexivity].
      cbn [fst snd String.length]. reflexivity.
  - cbn [fst snd]. by rewrite Hfit.
Qed.

Lemma WriteString_loop_two E s w :
  let r := WriteString_loop E 2 s w in
  (Available r.2 <? String.length r.1)%nat
  && match stuck r.2 with None => true | Some _ => false end = false.
Proof.
  cbv zeta. change 2 with (1 + 1). rewrite WriteString_loop_add.
  destruct (stuck w) as [e|] eqn:Hs.
  { rewrite !(WriteString_loop_held E _ _ _ e Hs). cbn [fst snd].
    rewrite Hs. apply andb_false_r. }
  destruct ((Available w <? String.length s)%nat) eqn:Hfit.
  2:{ rewrite !WriteString_loop_stop by (by rewrite Hfit). cbn [fst snd]. by rewrite Hfit. }
  destruct (Nat.eqb (String.length (buffered w)) 0) eqn:Hn.
  - apply length_0_empty in Hn.
    pose proof (WriteString_loop_empty E 0 s w Hn Hs) as H1. cbv zeta in H1.
    destruct (WriteString_loop E 1 s w) as [rest w1]. cbn [fst snd] in H1.
    by rewrite WriteString_loop_stop.
  - assert (WriteString_loop E 1 s w
            = (str_drop (Available w) s,
               (bufio_Flush E
                  (writer_at (file w) (buffered w +:+ str_take (Available w) s)
                     None (writes w) w)).2)) as ->.
    { cbn [WriteString_loop]. rewrite Hs, Hfit, Hn. cbn [andb]. cbv zeta.
      by destruct (bufio_Flush E _). }
    match goal with
    | |- context [bufio_Flush E ?w0] =>
        pose proof (bufio_Flush_empties E w0) as Hemp;
        pose proof (bufio_Flush_stuck E w0) as Hst;
        destruct (bufio_Flush E w0) as [rf w1]
    end.
    cbn [fst snd] in *. destruct rf as [e|].
    + rewrite !(WriteString_loop_held E _ _ _ e (eq_sym Hst)). cbn [fst snd].
      rewrite <- Hst. apply andb_false_r.
    + exact (WriteString_loop_empty E 0 _ w1 (Hemp eq_refl) (eq_sym Hst)).
Qed.

Lemma WriteString_rounds E k s w :
  WriteString_loop E (2 + k) s w = WriteString_loop E 2 s w.
Proof.
  rewrite WriteString_loop_add. pose proof (WriteString_loop_two E s w) as H.
  cbv zeta in H. destruct (WriteString_loop E 2 s w) as [rest w1].
  by apply WriteString_loop_stop.
Qed.

Lemma bufio_WriteString_pushes E s w :
  pushes E s w (bufio_WriteString E s w).1 (bufio_WriteString E s w).2.
Proof.
  unfold bufio_WriteString, bind.
  pose proof (WriteString_loop_carries E 2 s w) as H.
  destruct (WriteString_loop E 2 s w) as [rest w1]. cbn [fst snd] in H.
  destruct H as [Hc Ho Hk [more Hg] Hh Hon Hhl].
  destruct (stuck w1) as [e|] eqn:Hs1; cbn [fst snd].
  - split; try done.
    + by exists more.
    + intros e' Hs. destruct (Hh e' Hs) as [-> _]. rewrite Hs in Hs1.
      injection Hs1 as ->. by split; [|right].
    + intros Hs e' [= <-]. split; [done|]. exact (Hon Hs).
  - split; cbn [calls out sink file stuck writer_at]; try done.
    + by exists more.
    + intros e' Hs. destruct (Hh e' Hs) as [-> _]. congruence.
    + intros Hs _. split; [done|]. rewrite stream_at. specialize (Hon Hs).
      unfold stream in *. by rewrite <- append_assoc.
Qed.

(** Two calls in a row. *)
Lemma pushes_then E b1 b2 (m k : M (option error)) w :
  pushes E b1 w (m w).1 (m w).2 ->
  pushes E b2 (m w).2 (k (m w).2).1 (k (m w).2).2 ->
  pushes E (b1 +:+ b2) w (and_then m k w).1 (and_then m k w).2.
Proof.
  unfold and_then, bind. destruct (m w) as [[e|] w1]; cbn [fst snd ret].
  - intros [Hc Ho Hk Hg Hh Hok Herr Hhl] _. split; try done.
    intros Hs e' [= <-]. destruct (Herr Hs e eq_refl) as [Hst [lost Hl]].
    split; [done|]. exists (lost +:+ b2). by rewrite <- !append_assoc, Hl.
  - intros [Hc Ho Hk [more Hg] Hh Hok Herr Hhl].
    destruct (k w1) as [r2 w2]. cbn [fst snd].
    intros [Hc2 Ho2 Hk2 [more2 Hg2] Hh2 Hok2 Herr2 Hhl2]. split.
    + by rewrite Hc2.
    + by rewrite Ho2.
    + by rewrite Hk2.
    + eexists. rewrite Hg2, Hg, append_assoc. reflexivity.
    + intros e Hs. destruct (Hh e Hs) as [-> _]. by apply Hh2.
    + intros Hs ->. destruct (Hok Hs eq_refl) as [Hst Hstream].
      destruct (Hok2 Hst eq_refl) as [Hst2 Hstream2].
      split; [done|]. by rewrite Hstream2, Hstream, append_assoc.
    + intros Hs e ->. destruct (Hok Hs eq_refl) as [Hst Hstream].
      destruct (Herr2 Hst e eq_refl) as [Hst2 [lost Hl]].
      split; [done|]. exists lost. by rewrite <- append_assoc, <- Hstream.
    + intros H Hs. destruct (Hok Hs eq_refl) as [Hst _]. by apply Hhl2.
Qed.

Lemma csv_quoted_pushes E field :
  forall seg w,
    pushes E (seg +:+ quoted_bytes field) w
      (csv_quoted E seg field w).1 (csv_quoted E seg field w).2.
Proof.
  induction field as [|c rest IH]; intros seg w; cbn [csv_quoted quoted_bytes].
  - rewrite append_empty_r. destruct (String.eqb seg "") eqn:Hseg.
    + apply String.eqb_eq in Hseg as ->. apply pushes_nothing.
    + apply bufio_WriteString_pushes.
  - destruct (csv_special c) eqn:Hc.
    + apply pushes_then; [apply bufio_WriteString_pushes|].
      apply pushes_then; [|rewrite <- (append_nil (quoted_bytes rest)) at 1; apply IH].
      destruct (Ascii.eqb c "034"); [apply bufio_WriteString_pushes|].
      apply bufio_WriteByte_pushes.
    + assert (Ascii.eqb c "034" = false) as ->.
      { unfold csv_special in Hc. by destruct (Ascii.eqb c "034"). }
      rewrite <- append_assoc. apply IH.
Qed.

(** The bytes of the fields of a record, [n] fields having been
    written. *)
Lemma csv_fields_pushes E record :
  forall n w,
    pushes E
      (match record with
       | [] => ""
       | _ => (if Nat.eqb n 0 then "" else ",") +:+ String.concat "," (map field_bytes record)
       end) w
      (csv_fields E n record w).1 (csv_fields E n record w).2.
Proof.
  induction record as [|field rest IH]; intros n w; cbn [csv_fields].
  - apply pushes_nothing.
  - assert ((if Nat.eqb n 0 then "" else ",")
            +:+ String.concat "," (map field_bytes (field :: rest))
            = (if Nat.eqb n 0 then "" else ",")
              +:+ field_bytes field
              +:+ match rest with
                  | [] => ""
                  | _ => "," +:+ String.concat "," (map field_bytes rest)
                  end) as ->.
    { f_equal. destruct rest; cbn [map String.concat]; by rewrite ?append_empty_r. }
    apply pushes_then.
    { destruct (Nat.eqb n 0); [apply pushes_nothing | apply bufio_WriteByte_pushes]. }
    apply pushes_then; [|apply (IH (S n))].
    unfold field_bytes. destruct (fieldNeedsQuotes field).
    + apply pushes_then; [apply bufio_WriteByte_pushes|].
      apply pushes_then; [|apply bufio_WriteByte_pushes].
      rewrite <- (append_nil (quoted_bytes field)). apply csv_quoted_pushes.
    + apply bufio_WriteString_pushes.
Qed.

(** [csvWriter.Write]: a writer that holds an error returns it and
    takes nothing; else the record is taken, and its line is behind the
    stream, exactly when the call returns [nil]. *)
Lemma csv_Write_run E record w :
  let r := (csv_Write E record w).1 in
  let w' := (csv_Write E record w).2 in
  calls w' = calls w /\ out w' = out w
  /\ (exists more, file w' = file w +:+ more)
  /\ sink w' = sink w ++ match r with None => [record] | Some _ => [] end
  /\ (forall e, stuck w = Some e -> r = Some e /\ stuck w' = Some e /\ stream w' = stream w)
  /\ (stuck w = None ->
      match r with
      | None => stuck w' = None /\ stream w' = stream w +:+ csv_line record
      | Some e =>
          stuck w' = Some e
          /\ exists lost, stream w +:+ csv_line record = stream w' +:+ lost
      end)
  /\ (healthy E -> stuck w = None -> r = None).
Proof.
  cbv zeta. unfold csv_Write, bind.
  pose proof (pushes_then E _ _ (csv_fields E 0 record)
                (bufio_WriteByte E LF) w (csv_fields_pushes E record 0 w)
                (bufio_WriteByte_pushes E LF _)) as H.
  assert (match record with
          | [] => ""
          | _ :: _ => (if Nat.eqb 0 0 then "" else ",")
                      +:+ String.concat "," (map field_bytes record)
          end +:+ String LF "" = csv_line record) as Hline.
  { unfold csv_line. by destruct record. }
  rewrite Hline in H. clear Hline.
  assert (forall e, stuck w = Some e ->
                    (check csv_fields E 0 record then bufio_WriteByte E LF) w = (Some e, w))
    as Hheld.
  { intros e Hs. unfold and_then, bind.
    pose proof (csv_fields_pushes E record 0 w) as Hf.
    destruct (csv_fields E 0 record w) as [r1 w1]. cbn [fst snd] in Hf.
    destruct (pushes_held _ _ _ _ _ Hf e Hs) as [-> [-> | ->]]; [|reflexivity].
    by apply bufio_WriteByte_held. }
  destruct ((check csv_fields E 0 record then bufio_WriteByte E LF) w) as [[e|] w1].
  - cbn [fst snd ret] in *. destruct H as [Hc Ho Hk Hg Hh Hok Herr Hhl].
    split_and!; try done.
    + by rewrite app_nil_r.
    + intros e' Hs. specialize (Hheld e' Hs). injection Hheld as -> ->. done.
    + intros Hs. by apply Herr.
  - cbn [fst snd] in *. destruct H as [Hc Ho Hk Hg Hh Hok Herr Hhl].
    split_and!; cbn [calls out sink file stuck took]; try done.
    + by rewrite Hk.
    + intros e' Hs. specialize (Hheld e' Hs). discriminate.
    + intros Hs. exact (Hok Hs eq_refl).
Qed.

(** ** The embedding client *)

(** With the constant address accepted, [GetEmbedding] sends its one
    request and reads the reply. *)
Lemma GetEmbedding_run E text model w :
  url_ok E embed.embeddingsURL = true ->
  embed.GetEmbedding E text model w
  = (embed.embedding_reply E (length (calls w)) text model,
     sent (embed.embedding_request text model) w).
Proof.
  intros Hurl. unfold embed.GetEmbedding, http_NewRequest. rewrite Hurl.
  unfold bind, client_Do, embed.embedding_reply, embed.read_embedding.
  fold (embed.embedding_request text model).
  destruct (transport E _ _) as [resp|err]; [|reflexivity].
  destruct (Decode _ resp) as [data|err]; [|reflexivity].
  by destruct data as [|[|x v] data].
Qed.

(** C7: given that the constant address of the service is a valid
    one, [GetEmbedding] fails exactly when the transport fails, the
    body does not decode, or the decoded data is empty or begins with an
    empty embedding; otherwise it returns the first embedding, which is
    not empty. *)
Theorem GetEmbedding_error_iff E text model w :
  url_ok E embed.embeddingsURL = true ->
  let reply := transport E (length (calls w)) (embed.embedding_request text model) in
  let r := (embed.GetEmbedding E text model w).1 in
  (is_Err r = true <->
     (exists e, reply = Err e)
     \/ (exists resp e,
           reply = Ok resp /\ Decode (decode_ResponseData E) resp = Err e)
     \/ (exists resp data,
           reply = Ok resp /\ Decode (decode_ResponseData E) resp = Ok data
           /\ (data = [] \/ hd [] data = [])))
  /\ (forall v, r = Ok v ->
        v <> []
        /\ exists resp data,
             reply = Ok resp /\ Decode (decode_ResponseData E) resp = Ok data
             /\ head data = Some v).
Proof.
  intros Hurl. cbv zeta. rewrite GetEmbedding_run by done.
  unfold embed.embedding_reply, embed.read_embedding. cbn [fst].
  destruct (transport E _ _) as [resp|err] eqn:Hreply.
  - destruct (Decode _ resp) as [data|err] eqn:Hdec.
    + destruct data as [|[|x v] data]; cbn [is_Err].
      * split; [|discriminate]. split; [|done].
        intros _. right; right. exists resp, []. auto.
      * split; [|discriminate]. split; [|done].
        intros _. right; right. exists resp, ([] :: data). auto.
      * split.
        -- split; [discriminate|].
           intros [[e H]|[(r & e & H & H')|(r & d & H & H' & Hd)]].
           ++ discriminate.
           ++ injection H as <-. rewrite Hdec in H'. discriminate.
           ++ injection H as <-. rewrite Hdec in H'. injection H' as <-.
              destruct Hd; discriminate.
        -- intros v' [= <-]. split; [discriminate|]. by exists resp, ((x :: v) :: data).
    + split; [|discriminate]. split; [|done].
      intros _. right; left. by exists resp, err.
  - split; [|discriminate]. split; [|done]. intros _. left. by exists err.
Qed.

Lemma GetEmbedding_error_iff_witness :
  lab.vector <> []
  /\ exists resp data,
       transport lab.env 0 (embed.embedding_request "hello" embeddingModel) = Ok resp
       /\ Decode (decode_ResponseData lab.env) resp = Ok data
       /\ head data = Some lab.vector.
Proof.
  exact (proj2 (GetEmbedding_error_iff lab.env "hello" embeddingModel empty_world eq_refl)
           lab.vector eq_refl).
Defined.

(** ** The project identifier *)

(** C10: whatever object the whoami response decodes to,
    [getPcProjectID] returns the string under [project_name] when there
    is one and the error otherwise; its result type has no panic. *)
Theorem getPcProjectID_project_name E w resp (result : gmap string jvalue) :
  url_ok E whoamiURL = true ->
  transport E (length (calls w)) main.whoami_request = Ok resp ->
  Decode (decode_object E) resp = Ok result ->
  (main.getPcProjectID E w).1 =
    match result !! "project_name" with
    | Some (JStr pcProjectID) => Ok pcProjectID
    | _ => Err (Errorf "project_name not found or is not a string")
    end.
Proof.
  intros Hurl Hreply Hdec.
  unfold main.getPcProjectID, http_NewRequest. rewrite Hurl.
  unfold bind, client_Do. fold main.whoami_request. rewrite Hreply, Hdec.
  unfold assert_string_ok.
  by destruct (result !! "project_name") as [[]|].
Qed.

Lemma getPcProjectID_project_name_witness :
  (main.getPcProjectID lab.env empty_world).1 = Ok "proj".
Proof.
  exact (getPcProjectID_project_name lab.env empty_world (lab.ok_response "{}")
           {[ "project_name" := JStr "proj" ]} eq_refl eq_refl eq_refl).
Defined.

(** ** Index lifecycle *)

(** C5: with both addresses valid, [GetOrCreatePineconeIndex] sends the
    connect request first; it sends the create request, carrying the
    name, dimension 1536 and metric cosine, exactly when the connect
    response has a status other than 200; a 200 or 201 to the create
    request is success, any other status an error; and no call follows. *)
Theorem GetOrCreatePineconeIndex_protocol E name w :
  url_ok E (upsert.connectionURL name) = true ->
  url_ok E upsert.createIndexURL = true ->
  let n := length (calls w) in
  let connect := upsert.connect_request name in
  let create := upsert.create_request name in
  let r := (upsert.GetOrCreatePineconeIndex E name w).1 in
  let sent_now := calls (upsert.GetOrCreatePineconeIndex E name w).2 in
  ReqBody create
  = JSONBody (JObj [("name", JStr name); ("dimension", JInt 1536);
                    ("metric", JStr "cosine")])
  /\ match transport E n connect with
     | Err e => sent_now = calls w ++ [connect] /\ r = Some e
     | Ok resp =>
         if (StatusCode resp =? 200)%Z
         then sent_now = calls w ++ [connect] /\ r = None
         else
           sent_now = calls w ++ [connect; create]
           /\ match transport E (S n) create with
              | Err e => r = Some e
              | Ok resp' =>
                  if (StatusCode resp' =? 200)%Z || (StatusCode resp' =? 201)%Z
                  then r = None
                  else r = Some (ErrorfInt "failed to create index, status code: %d"
                                   (StatusCode resp'))
              end
     end.
Proof.
  intros Hconnect Hcreate. cbv zeta. split; [reflexivity|].
  unfold upsert.GetOrCreatePineconeIndex, http_NewRequest.
  rewrite Hconnect, Hcreate. unfold bind. cbn [client_Do json_Marshal].
  fold (upsert.connect_request name).
  destruct (transport E (length (calls w)) _) as [resp|e]; [|by rewrite app_nil_r || done].
  destruct (StatusCode resp =? 200)%Z; cbn [negb]; [done|].
  unfold json_Marshal.
  replace (marshal_ok (upsert.create_data name)) with true by reflexivity.
  cbn [fmt_Println log_Printf emit]. fold (upsert.create_request name).
  cbn [calls printed sent]. rewrite length_app. cbn [length].
  replace (length (calls w) + 1) with (S (length (calls w))) by lia.
  destruct (transport E (S (length (calls w))) _) as [resp'|e].
  - destruct (StatusCode resp' =? 200)%Z, (StatusCode resp' =? 201)%Z;
      cbn [negb andb orb]; try (by world_simpl; rewrite <- app_assoc).
    destruct (Body resp'); by world_simpl; rewrite <- app_assoc.
  - by world_simpl; rewrite <- app_assoc.
Qed.

Lemma GetOrCreatePineconeIndex_protocol_witness :
  ReqBody (upsert.create_request indexName)
  = JSONBody (JObj [("name", JStr indexName); ("dimension", JInt 1536);
                    ("metric", JStr "cosine")])
  /\ calls (upsert.GetOrCreatePineconeIndex lab.missing_index indexName empty_world).2
     = [upsert.connect_request indexName; upsert.create_request indexName]
  /\ (upsert.GetOrCreatePineconeIndex lab.missing_index indexName empty_world).1 = None.
Proof.
  exact (GetOrCreatePineconeIndex_protocol lab.missing_index indexName empty_world
           eq_refl eq_refl).
Defined.

(** ** The scanner *)

(** Lines below the limit are all delivered, and [scanner.Err()] is
    [nil] behind them. *)
Lemma Scan_short lines :
  Forall (fun line => String.length line < MaxScanTokenSize) lines ->
  Scan lines = (map dropCR lines, None).
Proof.
  induction 1 as [|line lines Hline _ IH]; [done|]. cbn [Scan map].
  destruct (Nat.leb_spec MaxScanTokenSize (String.length line)); [lia|].
  by rewrite IH.
Qed.

(** The scanner stops in front of the first line at the limit or
    beyond it, with [bufio.ErrTooLong]. *)
Lemma Scan_too_long before line after :
  Forall (fun line => String.length line < MaxScanTokenSize) before ->
  MaxScanTokenSize <= String.length line ->
  Scan (before ++ line :: after) = (map dropCR before, Some ErrTooLong).
Proof.
  intros Hbefore Hline.
  induction Hbefore as [|l before Hl _ IH]; cbn [app Scan map].
  - by destruct (Nat.leb_spec MaxScanTokenSize (String.length line)); [|lia].
  - destruct (Nat.leb_spec MaxScanTokenSize (String.length l)); [lia|].
    by rewrite IH.
Qed.

(** ** A vector through the file *)










(** The vector of no component comes back as a vector of one: the
    empty line splits into one empty field, which [ParseFloat] rejects
    and the slot of which holds the zero. *)
Example empty_vector_read_back :
  csv_line (embed.float64ToStringSlice lab.env []) = String LF ""
  /\ driver.file_lines (String LF "") = [""]
  /\ (upsert.parse_values lab.env (Split "" ",") 1 empty_world).1 = [0%float].
Proof. by vm_compute. Qed.

(** ** The interactive loop *)

(** C9: an input that lowers to [end] once trimmed ends the loop with
    [nil]; the prompt and the farewell are printed and no request is
    sent. *)
Theorem prompt_end_terminates E idx pid line rest w :
  ToLower E (TrimSpace E line) = "end" ->
  main.promptUserAndQueryPinecone E idx pid (line :: rest) w
  = (None,
     printed
       [Print [AStr "Please enter a message to search for (or type 'end' to exit): "];
        Println [AStr "You typed exit. Program exiting!"]] w)
  /\ calls (main.promptUserAndQueryPinecone E idx pid (line :: rest) w).2 = calls w.
Proof.
  intros Hend.
  assert (main.promptUserAndQueryPinecone E idx pid (line :: rest) w
          = (None,
             printed
               [Print [AStr "Please enter a message to search for (or type 'end' to exit): "];
                Println [AStr "You typed exit. Program exiting!"]] w)) as Hrun.
  { cbn [main.promptUserAndQueryPinecone]. unfold bind at 1. world_simpl.
    rewrite Hend. cbn [String.eqb Ascii.eqb Bool.eqb]. unfold bind. world_simpl.
    by rewrite printed_printed. }
  by rewrite Hrun.
Qed.

Lemma prompt_end_terminates_witness :
  main.promptUserAndQueryPinecone lab.env indexName "proj"
    [" End" +:+ String LF ""; "hello"] (sent main.whoami_request empty_world)
  = (None,
     printed
       [Print [AStr "Please enter a message to search for (or type 'end' to exit): "];
        Println [AStr "You typed exit. Program exiting!"]]
       (sent main.whoami_request empty_world))
  /\ calls (main.promptUserAndQueryPinecone lab.env indexName "proj"
             [" End" +:+ String LF ""; "hello"] (sent main.whoami_request empty_world)).2
     = calls (sent main.whoami_request empty_world).
Proof.
  exact (prompt_end_terminates lab.env indexName "proj" (" End" +:+ String LF "")
           ["hello"] (sent main.whoami_request empty_world) eq_refl).
Defined.

(** One turn of the loop on an input other than [end]. *)
Lemma prompt_turn E idx pid line rest w :
  String.eqb (ToLower E (TrimSpace E line)) "end" = false ->
  main.promptUserAndQueryPinecone E idx pid (line :: rest) w
  = let (r, w2) := main.queryPinecone E idx (TrimSpace E line) pid (printed [main.prompt] w) in
    match r with
    | Err err =>
        main.promptUserAndQueryPinecone E idx pid rest
          (printed [LogPrintf "Error querying Pinecone: %v" [AErr err]] w2)
    | Ok found =>
        let (stop, w3) := main.display_range E idx pid found w2 in
        match stop with
        | Some err => (Some err, w3)
        | None => main.promptUserAndQueryPinecone E idx pid rest w3
        end
    end.
Proof.
  intros Hgo. cbn [main.promptUserAndQueryPinecone]. unfold bind.
  rewrite Hgo. world_simpl.
  destruct (main.queryPinecone E idx (TrimSpace E line) pid _) as [[found|err] w2];
    [|reflexivity].
  by destruct (main.display_range E idx pid found w2) as [[err|] w3].
Qed.

(** A turn of the range loop of [queryPinecone] fails exactly on a
    failure of its fetch, with the error of that failure. *)
Lemma fetch_turn_error E idx pid found w :
  match (main.fetch_turn E idx pid found w).1 with
  | Err e =>
      main.fetch_error E (length (calls w)) (main.fetch_request idx pid (ID found)) = Some e
  | Ok _ =>
      main.fetch_error E (length (calls w)) (main.fetch_request idx pid (ID found)) = None
  end.
Proof.
  unfold main.fetch_turn, main.fetch_error, http_NewRequest.
  cbn [URL Header_Set main.fetch_request].
  destruct (url_ok E _); [|by unfold bind; world_simpl].
  unfold bind, client_Do. fold (main.fetch_request idx pid (ID found)).
  destruct (transport E _ _) as [resp|err]; [|by world_simpl].
  destruct (Decode _ resp) as [fetched|err]; [|by world_simpl].
  by destruct (Vectors fetched !! ID found).
Qed.

(** A turn of the display loop returns the error of its fetch. *)
Lemma display_turn_error E idx pid found w :
  (main.display_turn E idx pid found w).1
  = main.fetch_error E (length (calls w)) (main.display_request idx pid (ID found)).
Proof.
  unfold main.display_turn, main.fetch_error, http_NewRequest.
  cbn [URL Header_Set main.display_request].
  destruct (url_ok E _); [|by unfold bind; world_simpl].
  unfold bind, client_Do. world_simpl. cbn [calls printed].
  fold (main.display_request idx pid (ID found)).
  destruct (transport E _ _) as [resp|err]; [|by world_simpl].
  world_simpl.
  destruct (Decode _ resp) as [fetched|err]; [|by world_simpl].
  by destruct (Vectors fetched !! ID found).
Qed.

(** The first fetch that fails ends its loop with the error. *)
Lemma fetch_range_fails E idx pid before found after e :
  forall w w3,
    main.fetch_range E idx pid before w = (None, w3) ->
    main.fetch_error E (length (calls w3)) (main.fetch_request idx pid (ID found)) = Some e ->
    (main.fetch_range E idx pid (before ++ found :: after) w).1 = Some e.
Proof.
  induction before as [|b before IH]; intros w w3; cbn [app main.fetch_range]; unfold bind.
  - intros [= <-] Hfail. pose proof (fetch_turn_error E idx pid found w) as H.
    destruct (main.fetch_turn E idx pid found w) as [[local|err] w1]; cbn [fst] in H.
    + congruence.
    + cbn [ret fst]. congruence.
  - destruct (main.fetch_turn E idx pid b w) as [[local|err] w1]; [|discriminate].
    apply IH.
Qed.

Lemma display_range_fails E idx pid before found after e :
  forall w w3,
    main.display_range E idx pid before w = (None, w3) ->
    main.fetch_error E (length (calls w3)) (main.display_request idx pid (ID found)) = Some e ->
    (main.display_range E idx pid (before ++ found :: after) w).1 = Some e.
Proof.
  induction before as [|b before IH]; intros w w3; cbn [app main.display_range]; unfold bind.
  - intros [= <-] Hfail. pose proof (display_turn_error E idx pid found w) as H.
    destruct (main.display_turn E idx pid found w) as [[err|] w1]; cbn [fst] in H.
    + cbn [ret fst]. congruence.
    + congruence.
  - destruct (main.display_turn E idx pid b w) as [[err|] w1]; [discriminate|].
    apply IH.
Qed.

(** [queryPinecone] behind its embedding: the similarity query, then
    the fetches. *)
Lemma queryPinecone_after_embedding E idx text pid w v w1 :
  embed.GetEmbedding E text embeddingModel w = (Ok v, w1) ->
  match main.query_error E (length (calls w1)) idx pid v with
  | Some e => (main.queryPinecone E idx text pid w).1 = Err e
  | None =>
      exists resp body,
        transport E (length (calls w1)) (main.query_request idx pid v) = Ok resp
        /\ Decode (decode_QueryResponseBody E) resp = Ok body
        /\ main.queryPinecone E idx text pid w
           = let (stop, w3) :=
               main.fetch_range E idx pid (Matches body)
                 (sent (main.query_request idx pid v) w1) in
             (match stop with Some err => Err err | None => Ok (Matches body) end, w3)
  end.
Proof.
  intros Hemb. unfold main.queryPinecone, main.query_error, bind. rewrite Hemb.
  destruct (json_Marshal (main.query_data v)) as [doc|e] eqn:Hdoc; [|by world_simpl].
  unfold json_Marshal in Hdoc. destruct (marshal_ok _); [|discriminate].
  injection Hdoc as <-.
  unfold http_NewRequest. destruct (url_ok E (main.queryURL idx pid)); [|by world_simpl].
  unfold client_Do. fold (main.query_request idx pid v).
  destruct (transport E _ _) as [resp|e]; [|by world_simpl].
  destruct (Decode _ resp) as [body|e] eqn:Hdec; [|by world_simpl].
  exists resp, body. split_and!; [done..|].
  by destruct (main.fetch_range E idx pid (Matches body) _) as [[err|] w3].
Qed.

(** C6, as the code has it.  In a turn of the loop on an input other
    than [end]: a failure of the embedding, a failure of the
    similarity query (its document, its request, its sending, its
    response), and a failure of one of the fetches [queryPinecone]
    makes for the matches (its request, its sending, its response)
    each end [queryPinecone] with an error, which the loop logs before
    it goes on with the next input; a failure of one of the fetches
    the loop makes itself, after [queryPinecone] has returned the
    matches, makes the loop return the error of that failure. *)
Theorem prompt_failure_handling E idx pid line rest w :
  String.eqb (ToLower E (TrimSpace E line)) "end" = false ->
  let text := TrimSpace E line in
  let w0 := printed [main.prompt] w in
  let turn := main.promptUserAndQueryPinecone E idx pid (line :: rest) w in
  let goes_on err :=
    exists w',
      turn = main.promptUserAndQueryPinecone E idx pid rest w'
      /\ last (out w') = Some (LogPrintf "Error querying Pinecone: %v" [AErr err]) in
  (forall e,
      (embed.GetEmbedding E text embeddingModel w0).1 = Err e ->
      goes_on (ErrorfErr "error embedding query message: %v" e))
  /\ (forall v w1 e,
        embed.GetEmbedding E text embeddingModel w0 = (Ok v, w1) ->
        main.query_error E (length (calls w1)) idx pid v = Some e ->
        goes_on e)
  /\ (forall v w1 resp body before found after w3 e,
        embed.GetEmbedding E text embeddingModel w0 = (Ok v, w1) ->
        main.query_error E (length (calls w1)) idx pid v = None ->
        transport E (length (calls w1)) (main.query_request idx pid v) = Ok resp ->
        Decode (decode_QueryResponseBody E) resp = Ok body ->
        Matches body = before ++ found :: after ->
        main.fetch_range E idx pid before (sent (main.query_request idx pid v) w1)
        = (None, w3) ->
        main.fetch_error E (length (calls w3)) (main.fetch_request idx pid (ID found))
        = Some e ->
        goes_on e)
  /\ (forall matches w2 before found after w3 e,
        main.queryPinecone E idx text pid w0 = (Ok matches, w2) ->
        matches = before ++ found :: after ->
        main.display_range E idx pid before w2 = (None, w3) ->
        main.fetch_error E (length (calls w3)) (main.display_request idx pid (ID found))
        = Some e ->
        turn.1 = Some e).
Proof.
  intros Hgo. cbv zeta.
  assert (forall err,
             (main.queryPinecone E idx (TrimSpace E line) pid (printed [main.prompt] w)).1
             = Err err ->
             exists w',
               main.promptUserAndQueryPinecone E idx pid (line :: rest) w
               = main.promptUserAndQueryPinecone E idx pid rest w'
               /\ last (out w')
                  = Some (LogPrintf "Error querying Pinecone: %v" [AErr err])) as Hon.
  { intros err Hq. rewrite prompt_turn by done.
    destruct (main.queryPinecone E idx (TrimSpace E line) pid _) as [r w2].
    cbn [fst] in Hq. subst r. eexists. split; [reflexivity|].
    cbn [out printed]. apply last_snoc. }
  split_and!.
  - intros e Hemb. apply Hon. unfold main.queryPinecone, bind.
    destruct (embed.GetEmbedding E _ _ _) as [r w1]. cbn [fst] in Hemb. subst r.
    by world_simpl.
  - intros v w1 e Hemb Hq. apply Hon.
    pose proof (queryPinecone_after_embedding E idx _ pid _ v w1 Hemb) as H.
    by rewrite Hq in H.
  - intros v w1 resp body before found after w3 e Hemb Hq Hreply Hdec Hm Hbefore Hfail.
    apply Hon.
    pose proof (queryPinecone_after_embedding E idx _ pid _ v w1 Hemb) as H.
    rewrite Hq in H. destruct H as (resp' & body' & Hreply' & Hdec' & ->).
    rewrite Hreply in Hreply'. injection Hreply' as <-.
    rewrite Hdec in Hdec'. injection Hdec' as <-.
    pose proof (fetch_range_fails E idx pid before found after e _ w3 Hbefore Hfail) as Hr.
    rewrite <- Hm in Hr.
    destruct (main.fetch_range E idx pid (Matches body) _) as [stop w4].
    cbn [fst] in Hr |- *. by subst stop.
  - intros matches w2 before found after w3 e Hq -> Hbefore Hfail.
    rewrite prompt_turn by done. rewrite Hq.
    pose proof (display_range_fails E idx pid before found after e w2 w3 Hbefore Hfail)
      as Hr.
    destruct (main.display_range E idx pid (before ++ found :: after) w2) as [stop w4].
    cbn [fst] in Hr. by subst stop.
Qed.

Lemma prompt_failure_handling_witness :
  (exists w',
      main.promptUserAndQueryPinecone lab.third_call_fails indexName "proj"
        ["hello"; "end"] empty_world
      = main.promptUserAndQueryPinecone lab.third_call_fails indexName "proj" ["end"] w'
      /\ last (out w')
         = Some (LogPrintf "Error querying Pinecone: %v" [AErr (ErrLib "dial tcp: timeout")]))
  /\ (main.promptUserAndQueryPinecone lab.fourth_call_fails indexName "proj"
        ["hello"; "end"] empty_world).1
     = Some (ErrLib "dial tcp: timeout").
Proof.
  split.
  - exact (proj1 (proj2 (proj2
             (prompt_failure_handling lab.third_call_fails indexName "proj"
                "hello" ["end"] empty_world eq_refl)))
             lab.vector _ _ _ [] lab.found [] _ (ErrLib "dial tcp: timeout")
             eq_refl eq_refl eq_refl eq_refl eq_refl eq_refl eq_refl).
  - exact (proj2 (proj2 (proj2
             (prompt_failure_handling lab.fourth_call_fails indexName "proj"
                "hello" ["end"] empty_world eq_refl)))
             [lab.found] _ [] lab.found [] _ (ErrLib "dial tcp: timeout")
             eq_refl eq_refl eq_refl eq_refl).
Defined.

(** C6 as stated fails: the fetch that [queryPinecone] sends for a match
    meets a transport error, and the loop, far from returning it, reads
    the next input and ends with [nil]. *)
Lemma fetch_failure_inside_query_is_survived :
  calls (main.promptUserAndQueryPinecone lab.third_call_fails indexName "proj"
           ["hello"; "end"] empty_world).2
  = [embed.embedding_request "hello" embeddingModel;
     main.query_request indexName "proj" lab.vector;
     main.fetch_request indexName "proj" "vector_id_1"]
  /\ transport lab.third_call_fails 2 (main.fetch_request indexName "proj" "vector_id_1")
     = Err (ErrLib "dial tcp: timeout")
  /\ (main.promptUserAndQueryPinecone lab.third_call_fails indexName "proj"
        ["hello"; "end"] empty_world).1 = None.
Proof. by vm_compute. Qed.

(** ** The similarity query *)

(** One turn of the range loop: the fetch for the match is sent, and the
    copy held by the loop variable takes the fetched values when the
    response has the identifier; when it has not, the absence is logged
    and the copy is left as it was. *)
Lemma fetch_turn_result E idx pid found w local w' :
  main.fetch_turn E idx pid found w = (Ok local, w') ->
  calls w' = calls w ++ [main.fetch_request idx pid (ID found)]
  /\ exists resp fetched,
       transport E (length (calls w)) (main.fetch_request idx pid (ID found)) = Ok resp
       /\ Decode (decode_FetchResponse E) resp = Ok fetched
       /\ match Vectors fetched !! ID found with
          | Some vectorData =>
              local = main.set_Values (vValues vectorData) found
              /\ out w' = out w ++ [LogPrintf "Fetched vector content for ID %s: %v"
                                     [AStr (vID vectorData); AFloats (vValues vectorData)]]
          | None =>
              local = found
              /\ out w' = out w ++ [LogPrintf "No vector content found for ID %s"
                                     [AStr (ID found)]]
          end.
Proof.
  unfold main.fetch_turn, http_NewRequest.
  destruct (url_ok E _); [|by unfold bind; world_simpl].
  unfold bind, client_Do. fold (main.fetch_request idx pid (ID found)).
  destruct (transport E _ _) as [resp|err] eqn:Hreply; [|by world_simpl].
  destruct (Decode _ resp) as [fetched|err] eqn:Hdec; [|by world_simpl].
  destruct (Vectors fetched !! ID found) as [vectorData|] eqn:Hlook;
    world_simpl; intros [= <- <-]; (split; [reflexivity|]);
    exists resp, fetched; rewrite Hlook; by repeat split.
Qed.

(** A range loop that runs to its end has sent one fetch for every
    match, in the order of the matches. *)
Lemma fetch_range_sends E idx pid range :
  forall w w',
    main.fetch_range E idx pid range w = (None, w') ->
    calls w' = calls w ++ map (fun found => main.fetch_request idx pid (ID found)) range.
Proof.
  induction range as [|found rest IH]; intros w w'.
  - intros [= <-]. by rewrite app_nil_r.
  - cbn [main.fetch_range map]. unfold bind.
    destruct (main.fetch_turn E idx pid found w) as [[local|err] w1] eqn:Hturn;
      [|discriminate].
    apply fetch_turn_result in Hturn as [Hcalls _].
    intros Hrest. apply IH in Hrest. rewrite Hrest, Hcalls, <- app_assoc. reflexivity.
Qed.

(** The range loop writes nothing back: a successful [queryPinecone]
    returns the matches exactly as the similarity response decoded. *)
Lemma queryPinecone_returns_decoded E idx text pid w found w' :
  main.queryPinecone E idx text pid w = (Ok found, w') ->
  exists resp body,
    Decode (decode_QueryResponseBody E) resp = Ok body /\ found = Matches body.
Proof.
  unfold main.queryPinecone, bind.
  destruct (embed.GetEmbedding E text embeddingModel w) as [[v|e] w1]; [|discriminate].
  destruct (json_Marshal _) as [doc|e]; [|discriminate].
  destruct (http_NewRequest E _ _ _) as [req|e]; [|discriminate].
  destruct (client_Do E _ w1) as [[resp|e] w2]; [|discriminate].
  destruct (Decode _ resp) as [body|e] eqn:Hbody; [|discriminate].
  destruct (main.fetch_range E idx pid (Matches body) w2) as [[e|] w3]; [discriminate|].
  intros [= <- <-]. by exists resp, body.
Qed.

(** C3 on a store that holds the vector: the fetch for the match is
    sent, the response holds values under its identifier, and the match
    comes back with the empty values of the similarity response. *)
Theorem queryPinecone_drops_fetched_values :
  (main.queryPinecone lab.env indexName "hello" "proj" empty_world).1 = Ok [lab.found]
  /\ Values lab.found = []
  /\ last (calls (main.queryPinecone lab.env indexName "hello" "proj" empty_world).2)
     = Some (main.fetch_request indexName "proj" (ID lab.found))
  /\ (exists fetched,
        Decode (decode_FetchResponse lab.env) (lab.ok_response "{}") = Ok fetched
        /\ vValues <$> (Vectors fetched !! ID lab.found) = Some lab.vector).
Proof.
  repeat split; try by vm_compute.
  eexists. split; [reflexivity|]. by vm_compute.
Qed.

(** ** The upsert pass *)

(** C2 on a file whose only row is not a number: the row is logged, and
    then written to the store with the value 0 and counted as a
    success. *)
Theorem upsert_sends_unparsable_row :
  ParseFloat lab.env "abc" = (0%float, Some (ErrLib "strconv.ParseFloat: invalid syntax"))
  /\ calls (upsert.UpsertDataToPinecone lab.env indexName "f.csv" ["abc"] None empty_world).2
     = [main.whoami_request;
        upsert.upsert_request (upsert.upsertURL indexName "proj") 1 [0%float]]
  /\ out (upsert.UpsertDataToPinecone lab.env indexName "f.csv" ["abc"] None empty_world).2
     = [Println [AStr "Upserting from: "; AStr "f.csv"];
        LogPrintf "Error parsing float value at line %d: %v"
          [AInt 1; AErr (ErrLib "strconv.ParseFloat: invalid syntax")];
        LogPrintf "Process Summary: Lines Processed=%d, Upserted Successfully=%d, Failed=%d"
          [AInt 1; AInt 1; AInt 0];
        Printf "Process Summary: Lines Processed=%d, Upserted Successfully=%d, Failed=%d\n"
          [AInt 1; AInt 1; AInt 0]].
Proof. by vm_compute. Qed.

(** A field out of the range of [float64] leaves an infinity in its
    slot, which the encoder refuses: that row is logged twice, not
    written and not counted. *)
Example upsert_skips_out_of_range_row :
  calls (upsert.UpsertDataToPinecone lab.env indexName "f.csv" ["1e999"] None empty_world).2
  = [main.whoami_request]
  /\ out (upsert.UpsertDataToPinecone lab.env indexName "f.csv" ["1e999"] None empty_world).2
     = [Println [AStr "Upserting from: "; AStr "f.csv"];
        LogPrintf "Error parsing float value at line %d: %v"
          [AInt 1; AErr (ErrLib "strconv.ParseFloat: value out of range")];
        LogPrintf "Error marshalling data at line %d: %v"
          [AInt 1; AErr (ErrLib "json: unsupported value")];
        LogPrintf "Process Summary: Lines Processed=%d, Upserted Successfully=%d, Failed=%d"
          [AInt 1; AInt 0; AInt 0];
        Printf "Process Summary: Lines Processed=%d, Upserted Successfully=%d, Failed=%d\n"
          [AInt 1; AInt 0; AInt 0]].
Proof. by vm_compute. Qed.

(** Parsing the fields of a row sends nothing. *)
Lemma parse_values_calls E valuesStr lineNumber w :
  calls (upsert.parse_values E valuesStr lineNumber w).2 = calls w.
Proof.
  revert w. induction valuesStr as [|v rest IH]; intros w; [reflexivity|].
  cbn [upsert.parse_values]. destruct (ParseFloat E v) as [value [err|]];
    unfold bind; world_simpl.
  - specialize (IH (printed [LogPrintf "Error parsing float value at line %d: %v"
                               [AInt (Z.of_nat lineNumber); AErr err]] w)).
    destruct (upsert.parse_values E rest lineNumber _) as [values w1]. exact IH.
  - specialize (IH w).
    destruct (upsert.parse_values E rest lineNumber w) as [values w1]. exact IH.
Qed.

(** What the summary of the upsert pass does count: every row is a
    line, and the successes and failures together are the write calls
    that were sent. *)
Lemma upsert_loop_counts E url rows :
  forall lineNumber t w,
    let r := upsert.upsert_loop E url rows lineNumber t w in
    r.1.1 = lineNumber + length rows
    /\ upsert.successCount r.1.2 + upsert.failCount r.1.2 + length (calls w)
       = upsert.successCount t + upsert.failCount t + length (calls r.2).
Proof.
  induction rows as [|line rest IH]; intros lineNumber t w; cbv zeta.
  - cbn [upsert.upsert_loop ret fst snd length]. lia.
  - cbn [upsert.upsert_loop length]. unfold bind, client_Do.
    pose proof (parse_values_calls E (Split line ",") (S lineNumber) w) as Hpv.
    destruct (upsert.parse_values E (Split line ",") (S lineNumber) w) as [values w1].
    cbn [snd] in Hpv. rewrite <- Hpv.
    destruct (json_Marshal _) as [doc|err];
      [destruct (http_NewRequest E "POST" url _) as [req|err];
       [destruct (transport E _ _) as [resp|err]; [destruct (400 <=? _)%Z|]|]|];
      world_simpl;
      match goal with
      | |- context [upsert.upsert_loop E url rest ?ln ?t1 ?w2] =>
          destruct (IH ln t1 w2) as [H1 H2]
      end;
      cbn [upsert.successCount upsert.failCount calls sent printed] in *;
      rewrite ?length_app in H2; cbn [length] in H2; lia.
Qed.

(** ** The embed pass *)

Lemma not_embedded_rows E model lines n :
  embed.not_embedded E model n lines + length (embed.embedded_rows E model n lines)
  = length lines.
Proof.
  revert n. induction lines as [|line rest IH]; intros n; [reflexivity|].
  cbn [embed.not_embedded embed.embedded_rows length]. rewrite length_app.
  specialize (IH (S n)).
  destruct (embed.embedding_reply E n _ model); cbn [is_Err length]; lia.
Qed.

(** When no unparsed line obtains an embedding, the failed embeddings
    are those of the unparsed lines and those of E. *)
Lemma not_embedded_split E model lines n :
  embed.unparsed_rejected E model n lines = true ->
  embed.not_embedded E model n lines
  = embed.unparsed lines + embed.parsed_not_embedded E model n lines.
Proof.
  revert n. induction lines as [|line rest IH]; intros n H; [reflexivity|].
  cbn [embed.unparsed_rejected] in H. apply andb_true_iff in H as [Hl Hr].
  cbn [embed.not_embedded embed.unparsed embed.parsed_not_embedded].
  rewrite (IH _ Hr).
  destruct (parse_failed (parse_line line)),
           (is_Err (embed.embedding_reply E n _ model));
    cbn [negb andb orb] in *; try discriminate; lia.
Qed.

(** One turn of the loop, the address of the service being accepted:
    the line is counted, its parse failure logged and counted, its
    message sent; a record is written for the embedding that comes
    back. *)
Lemma embed_loop_step E model line rest lineNumber c w :
  url_ok E embed.embeddingsURL = true ->
  embed.embed_loop E model (line :: rest) lineNumber c w
  = let p := parse_line line in
    let failed := if parse_failed p then 1 else 0 in
    let w1 :=
      sent (embed.embedding_request (message p) model)
        (if parse_failed p
         then printed
                [LogPrintf "Unable to parse line %d of length %d - skipping: Content: %s\n"
                   [AInt (Z.of_nat (S lineNumber)); AInt (Z.of_nat (matched p)); AStr line]]
                w
         else w) in
    match embed.embedding_reply E (length (calls w)) (message p) model with
    | Err err =>
        embed.embed_loop E model rest (S lineNumber)
          {| embed.linesProcessed := S (embed.linesProcessed c);
             embed.parseFailures := failed + embed.parseFailures c;
             embed.embeddingFailures := S (embed.embeddingFailures c);
             embed.writeFailures := embed.writeFailures c;
             embed.successCount := embed.successCount c |}
          (printed [LogPrintf "Error getting embedding for line %d: %s - %v\n"
                      [AInt (Z.of_nat (S lineNumber)); AStr line; AErr err]] w1)
    | Ok embedding =>
        let r := csv_Write E (embed.float64ToStringSlice E embedding) w1 in
        match r.1 with
        | Some err =>
            embed.embed_loop E model rest (S lineNumber)
              {| embed.linesProcessed := S (embed.linesProcessed c);
                 embed.parseFailures := failed + embed.parseFailures c;
                 embed.embeddingFailures := embed.embeddingFailures c;
                 embed.writeFailures := S (embed.writeFailures c);
                 embed.successCount := embed.successCount c |}
              (printed [LogPrintf "Error writing record to CSV at line %d: %v\n"
                          [AInt (Z.of_nat (S lineNumber)); AErr err]] r.2)
        | None =>
            embed.embed_loop E model rest (S lineNumber)
              {| embed.linesProcessed := S (embed.linesProcessed c);
                 embed.parseFailures := failed + embed.parseFailures c;
                 embed.embeddingFailures := embed.embeddingFailures c;
                 embed.writeFailures := embed.writeFailures c;
                 embed.successCount := S (embed.successCount c) |}
              r.2
        end
    end.
Proof.
  intros Hurl. cbv zeta. cbn [embed.embed_loop]. unfold bind.
  destruct (parse_failed (parse_line line)); world_simpl;
    rewrite GetEmbedding_run by done; cbn [calls printed];
    destruct (embed.embedding_reply E (length (calls w)) _ model) as [emb|err];
    world_simpl; try reflexivity;
    destruct (csv_Write E _ _) as [[e|] w2]; reflexivity.
Qed.

Ltac embed_next IH Hn :=
  match goal with
  | |- context [embed.embed_loop ?E ?model ?rest ?ln ?c1 ?w3] =>
      specialize (IH ln c1 w3);
      destruct (embed.embed_loop E model rest ln c1 w3) as [c' w'];
      rewrite Hn in IH; cbn [fst snd] in IH |- *;
      destruct IH as (k & logged & Hc & Ho & Hk & Hle & H1 & H2 & H3 & H4 & H5
                      & [more Hg] & Hh & Hon & Hhe);
      cbn [embed.linesProcessed embed.parseFailures embed.embeddingFailures
           embed.writeFailures embed.successCount calls out sink file stuck
           printed sent] in Hc, Ho, Hk, H1, H2, H3, H4, H5, Hg, Hh, Hon, Hhe
  end.

(** The loop, line by line: what it adds to the counters, to the calls
    and to the log, which records the writer takes, and what becomes of
    the stream of bytes to the file.  The records taken are the first
    [k] of the embedded lines: a writer that holds an error takes
    nothing more. *)
Lemma embed_loop_run E model :
  url_ok E embed.embeddingsURL = true ->
  forall lines lineNumber c w,
    let c' := (embed.embed_loop E model lines lineNumber c w).1 in
    let w' := (embed.embed_loop E model lines lineNumber c w).2 in
    let n := length (calls w) in
    let rows := embed.embedded_rows E model n lines in
    exists k logged,
      calls w' = calls w
                 ++ map (fun line => embed.embedding_request (message (parse_line line)) model)
                      lines
      /\ out w' = out w ++ logged
      /\ sink w' = sink w ++ take k rows
      /\ k <= length rows
      /\ embed.linesProcessed c' = embed.linesProcessed c + length lines
      /\ embed.parseFailures c' = embed.parseFailures c + embed.unparsed lines
      /\ embed.embeddingFailures c'
         = embed.embeddingFailures c + embed.not_embedded E model n lines
      /\ embed.successCount c' = embed.successCount c + k
      /\ embed.writeFailures c' = embed.writeFailures c + (length rows - k)
      /\ (exists more, file w' = file w +:+ more)
      /\ (forall e, stuck w = Some e -> k = 0 /\ stuck w' = Some e /\ stream w' = stream w)
      /\ (stuck w = None ->
          (k = length rows /\ stuck w' = None /\ stream w' = stream w +:+ csv_text rows)
          \/ (k < length rows /\ (exists e, stuck w' = Some e)
              /\ exists lost,
                   stream w +:+ csv_text (take (S k) rows) = stream w' +:+ lost))
      /\ (healthy E -> stuck w = None -> k = length rows).
Proof.
  intros Hurl. induction lines as [|line rest IH]; intros lineNumber c w; cbv zeta.
  - exists 0, []. cbn [embed.embed_loop ret fst snd map length take
                       embed.unparsed embed.not_embedded embed.embedded_rows csv_text].
    rewrite !app_nil_r, !Nat.add_0_r, append_empty_r. split_and!; try done.
    + exists "". by rewrite append_empty_r.
    + intros Hs. by left.
  - rewrite embed_loop_step by done. cbv zeta.
    cbn [embed.unparsed embed.not_embedded embed.embedded_rows map length].
    set (p := parse_line line).
    set (w0 := if parse_failed p then printed _ w else w).
    assert (calls w0 = calls w /\ sink w0 = sink w /\ file w0 = file w
            /\ stuck w0 = stuck w /\ stream w0 = stream w
            /\ exists l0, out w0 = out w ++ l0) as (Hc0 & Hk0 & Hf0 & Hs0 & Hst0 & l0 & Ho0).
    { subst w0. destruct (parse_failed p); split_and!; try done; eexists;
        [reflexivity | by rewrite app_nil_r]. }
    clearbody w0.
    assert (embed.unparsed rest + (if parse_failed p then 1 else 0)
            = (if parse_failed p then 1 else 0) + embed.unparsed rest) as Hp by lia.
    destruct (embed.embedding_reply E (length (calls w)) (message p) model)
      as [emb|err] eqn:Hr; cbn [is_Err app length].
    + pose proof (csv_Write_run E (embed.float64ToStringSlice E emb)
                    (sent (embed.embedding_request (message p) model) w0)) as Hw.
      cbv zeta in Hw.
      destruct (csv_Write E _ _) as [r w2]. cbn [fst snd] in Hw |- *.
      destruct Hw as (Hc2 & Ho2 & [more2 Hg2] & Hk2 & Hheld & Hrun & Hhl).
      cbn [calls out sink file stuck sent] in Hc2, Ho2, Hg2, Hk2, Hheld, Hrun, Hhl.
      change (stream (sent (embed.embedding_request (message p) model) w0))
        with (stream w0) in Hheld, Hrun.
      rewrite Hs0 in Hheld, Hrun, Hhl. rewrite Hst0 in Hheld, Hrun.
      rewrite Hc0 in Hc2. rewrite Ho0 in Ho2. rewrite Hk0 in Hk2. rewrite Hf0 in Hg2.
      destruct r as [e|].
      * assert (length (calls (printed
                         [LogPrintf "Error writing record to CSV at line %d: %v\n"
                            [AInt (Z.of_nat (S lineNumber)); AErr e]] w2))
                = S (length (calls w))) as Hn.
        { cbn [calls printed]. rewrite Hc2, length_app. cbn [length]. lia. }
        embed_next IH Hn.
        change (stream (printed _ w2)) with (stream w2) in Hh, Hon.
        assert (exists e', stuck w2 = Some e') as [e' Hst2].
        { destruct (stuck w) as [e0|] eqn:Hsw.
          - destruct (Hheld e0 eq_refl) as (_ & H & _). by exists e0.
          - destruct (Hrun eq_refl) as [H _]. by exists e. }
        destruct (Hh e' Hst2) as (-> & Hst' & Hstream').
        exists 0, (l0 ++ [LogPrintf "Error writing record to CSV at line %d: %v\n"
                           [AInt (Z.of_nat (S lineNumber)); AErr e]] ++ logged).
        split_and!.
        -- rewrite Hc, Hc2. by rewrite <- !app_assoc.
        -- rewrite Ho, Ho2. by rewrite <- !app_assoc.
        -- rewrite Hk, Hk2. cbn [take]. by rewrite !app_nil_r.
        -- lia.
        -- lia.
        -- lia.
        -- lia.
        -- lia.
        -- lia.
        -- eexists. rewrite Hg, Hg2, append_assoc. reflexivity.
        -- intros e0 Hse.
           destruct (Hheld e0 Hse) as (_ & Hst2' & Hstream2).
           rewrite Hst2 in Hst2'. injection Hst2' as ->.
           split_and!; [done|done|]. by rewrite Hstream', Hstream2.
        -- intros Hsn. right.
           destruct (Hrun Hsn) as [Hst2' [lost Hl]].
           split_and!.
           ++ lia.
           ++ by exists e'.
           ++ exists lost. cbn [take csv_text]. rewrite append_empty_r.
              by rewrite Hstream'.
        -- intros Hhealthy Hsn. by specialize (Hhl Hhealthy Hsn).
      * assert (length (calls w2) = S (length (calls w))) as Hn.
        { rewrite Hc2, length_app. cbn [length]. lia. }
        embed_next IH Hn.
        assert (stuck w = None) as Hsn.
        { destruct (stuck w) as [e0|] eqn:Hsw; [|done].
          by destruct (Hheld e0 eq_refl) as ([=] & _). }
        destruct (Hrun Hsn) as [Hst2 Hstream2].
        exists (S k), (l0 ++ logged).
        split_and!.
        -- rewrite Hc, Hc2. by rewrite <- !app_assoc.
        -- rewrite Ho, Ho2. by rewrite <- !app_assoc.
        -- rewrite Hk, Hk2. cbn [take]. by rewrite <- !app_assoc.
        -- lia.
        -- lia.
        -- lia.
        -- lia.
        -- lia.
        -- lia.
        -- eexists. rewrite Hg, Hg2, append_assoc. reflexivity.
        -- intros e0 Hse. congruence.
        -- intros _. destruct (Hon Hst2) as [(-> & Hst' & Hstream') | (Hlt & He & [lost Hl])].
           ++ left. split_and!; [done|done|].
              cbn [csv_text]. by rewrite Hstream', Hstream2, append_assoc.
           ++ right. split_and!; [lia | done |].
              exists lost. cbn [take csv_text].
              rewrite <- Hl, Hstream2. by rewrite append_assoc.
        -- intros Hhealthy _. f_equal. by apply Hhe.
    + assert (length (calls (printed
                       [LogPrintf "Error getting embedding for line %d: %s - %v\n"
                          [AInt (Z.of_nat (S lineNumber)); AStr line; AErr err]]
                       (sent (embed.embedding_request (message p) model) w0)))
              = S (length (calls w))) as Hn.
      { cbn [calls printed sent]. rewrite Hc0, length_app. cbn [length]. lia. }
      embed_next IH Hn.
      change (stream (printed _ (sent _ w0))) with (stream w0) in Hh, Hon.
      rewrite Hc0 in Hc. rewrite Ho0 in Ho. rewrite Hk0 in Hk. rewrite Hf0 in Hg.
      rewrite Hs0 in Hh, Hon, Hhe. rewrite Hst0 in Hh, Hon.
      exists k, (l0 ++ [LogPrintf "Error getting embedding for line %d: %s - %v\n"
                         [AInt (Z.of_nat (S lineNumber)); AStr line; AErr err]] ++ logged).
      split_and!.
      * rewrite Hc. by rewrite <- !app_assoc.
      * rewrite Ho. by rewrite <- !app_assoc.
      * done.
      * lia.
      * lia.
      * lia.
      * lia.
      * lia.
      * lia.
      * by eexists.
      * done.
      * done.
      * done.
Qed.

Lemma csv_text_app a b : csv_text (a ++ b) = csv_text a +:+ csv_text b.
Proof.
  induction a as [|r a IH]; [reflexivity|]. cbn [app csv_text].
  by rewrite IH, append_assoc.
Qed.

(** The end of the pass: the deferred [Flush] when the function
    returns, nothing when [log.Fatalf] ends the process. *)
Lemma csv_Flush_run E w :
  let w' := (csv_Flush E w).2 in
  calls w' = calls w /\ out w' = out w /\ sink w' = sink w
  /\ (exists lost, stream w = stream w' +:+ lost)
  /\ (forall e, stuck w = Some e -> w' = w)
  /\ (healthy E -> stuck w = None ->
      stuck w' = None /\ buffered w' = "" /\ file w' = stream w).
Proof.
  cbv zeta. unfold csv_Flush, bind.
  pose proof (bufio_Flush_pushes E w) as H.
  pose proof (bufio_Flush_empties E w) as Hemp.
  destruct (bufio_Flush E w) as [r w1]. cbn [fst snd ret] in *.
  destruct H as [Hc Ho Hk Hg Hh Hok Herr Hhl].
  split_and!; try done.
  - destruct (stuck w) as [e|] eqn:Hs.
    + destruct (Hh e eq_refl) as [-> _]. exists "". by rewrite append_empty_r.
    + destruct r as [e|].
      * destruct (Herr eq_refl e eq_refl) as [_ [lost Hl]]. exists lost.
        by rewrite <- Hl, append_empty_r.
      * destruct (Hok eq_refl eq_refl) as [_ Hl]. exists "".
        by rewrite Hl, !append_empty_r.
  - intros e Hs. by destruct (Hh e Hs).
  - intros Hhealthy Hs. specialize (Hhl Hhealthy Hs). subst r.
    destruct (Hok Hs eq_refl) as [Hst Hl]. specialize (Hemp eq_refl).
    split_and!; [done|done|]. rewrite append_empty_r in Hl. rewrite <- Hl.
    unfold stream. by rewrite Hemp, append_empty_r.
Qed.

(** C1, as the code has it.  In a pass where no unparsed line obtains
    an embedding, the logged summary counts
    successes = N - P - E - write failures, the write failures being
    the embedded lines whose [Write] returned an error; the records
    [Write] accepted are the first [successes] of the serialised
    embeddings, in the order of the lines, and what has reached the
    file is a piece of the front of their CSV text.  A write failure
    leaves the writer holding an error; when the file takes every
    write there is none, so that successes = N - P - E, every embedded
    line is accepted and, when the function returns, the file holds
    the CSV lines of exactly these records, in the order of the
    lines. *)
Theorem CreateEmbeddingFile_summary E lines scanErr model w :
  url_ok E embed.embeddingsURL = true ->
  embed.unparsed_rejected E model (length (calls w)) lines = true ->
  let w' := (embed.CreateEmbeddingFile E lines scanErr model w).2 in
  let n := length (calls w) in
  let P := embed.unparsed lines in
  let F := embed.parsed_not_embedded E model n lines in
  let rows := embed.embedded_rows E model n lines in
  exists c logged,
    out w' = out w ++ logged ++ embed.summary_output c ++ scanner_output scanErr
    /\ embed.linesProcessed c = length lines
    /\ embed.parseFailures c = P
    /\ embed.embeddingFailures c = P + F
    /\ embed.successCount c + P + F + embed.writeFailures c = length lines
    /\ embed.successCount c = length lines - P - F - embed.writeFailures c
    /\ sink w' = sink w ++ take (embed.successCount c) rows
    /\ (exists lost, csv_text rows = stream w' +:+ lost)
    /\ (embed.writeFailures c = 0 \/ exists e, stuck w' = Some e)
    /\ (healthy E ->
        embed.writeFailures c = 0
        /\ embed.successCount c = length lines - P - F
        /\ sink w' = sink w ++ rows
        /\ stream w' = csv_text rows
        /\ match scanErr with
           | None => file w' = csv_text rows
           | Some _ => True
           end).
Proof.
  intros Hurl Hrej. cbv zeta.
  pose proof (embed_loop_run E model Hurl lines 0 embed.no_counts
                (writer_at "" "" None (writes w) w)) as Hrun.
  cbv zeta in Hrun.
  unfold embed.CreateEmbeddingFile, bind, embed.fresh_file.
  destruct (embed.embed_loop E model lines 0 embed.no_counts _) as [c w1].
  cbn [fst snd] in Hrun.
  destruct Hrun as (k & logged & Hc & Ho & Hk & Hle & H1 & H2 & H3 & H4 & H5
                    & _ & _ & Hon & Hhe).
  cbn [calls out sink file stuck writer_at embed.linesProcessed embed.parseFailures
       embed.embeddingFailures embed.writeFailures embed.successCount
       embed.no_counts] in *.
  specialize (Hon eq_refl). specialize (fun H => Hhe H eq_refl).
  change (stream (writer_at "" "" None (writes w) w)) with "" in Hon.
  rewrite !append_nil in Hon.
  pose proof (not_embedded_rows E model lines (length (calls w))) as Hall.
  rewrite (not_embedded_split _ _ _ _ Hrej) in Hall, H3.
  set (rows := embed.embedded_rows E model (length (calls w)) lines) in *.
  world_simpl.
  set (w2 := printed _ (printed _ w1)).
  assert (calls w2 = calls w1 /\ sink w2 = sink w1 /\ stuck w2 = stuck w1
          /\ stream w2 = stream w1
          /\ out w2 = out w ++ logged ++ embed.summary_output c)
    as (Hc2 & Hk2 & Hs2 & Hst2 & Ho2).
  { subst w2. split_and!; try done. cbn [out printed]. rewrite Ho.
    unfold embed.summary_output. by rewrite <- !app_assoc. }
  clearbody w2.
  assert (exists lost, csv_text rows = stream w1 +:+ lost) as [lost1 Hlost1].
  { destruct Hon as [(_ & _ & ->) | (Hlt & _ & [lost Hl])].
    - exists "". by rewrite append_empty_r.
    - exists (lost +:+ csv_text (drop (S k) rows)).
      rewrite <- append_assoc, <- Hl, <- csv_text_app. by rewrite take_drop. }
  assert (embed.writeFailures c = 0 \/ exists e, stuck w1 = Some e) as Hwf.
  { destruct Hon as [(-> & _) | (_ & He & _)]; [left; lia | by right]. }
  exists c, logged.
  destruct scanErr as [err|].
  - world_simpl. cbn [scanner_output].
    split_and!; try lia.
    + rewrite Ho2. by rewrite <- !app_assoc.
    + rewrite Hk2, Hk. f_equal. f_equal. lia.
    + exists lost1. by rewrite Hlost1, <- Hst2.
    + by rewrite Hs2.
    + intros Hh. specialize (Hhe Hh).
      destruct Hon as [(_ & Hs1 & Hstream) | (Hlt & _)]; [|lia].
      split_and!; try lia.
      * rewrite Hk2, Hk, Hhe. by rewrite firstn_all.
      * by rewrite <- Hstream, <- Hst2.
  - pose proof (csv_Flush_run E w2) as Hf. cbv zeta in Hf.
    destruct (csv_Flush E w2) as [[] w3]. cbn [fst snd] in Hf. world_simpl.
    destruct Hf as (Hc3 & Ho3 & Hk3 & [lost3 Hl3] & Hheld3 & Hh3).
    cbn [scanner_output]. rewrite app_nil_r.
    split_and!; try lia.
    + by rewrite Ho3, Ho2.
    + rewrite Hk3, Hk2, Hk. f_equal. f_equal. lia.
    + exists (lost3 +:+ lost1). rewrite Hlost1, <- Hst2, Hl3. by rewrite append_assoc.
    + destruct Hwf as [Hwf | [e He]]; [by left|right].
      exists e. rewrite <- Hs2 in He. by rewrite (Hheld3 e He).
    + intros Hh. specialize (Hhe Hh).
      destruct Hon as [(_ & Hs1 & Hstream) | (Hlt & _)]; [|lia].
      rewrite <- Hs2 in Hs1. destruct (Hh3 Hh Hs1) as (Hs3 & Hb3 & Hf3).
      split_and!; try lia.
      * rewrite Hk3, Hk2, Hk, Hhe. by rewrite firstn_all.
      * unfold stream at 1. by rewrite Hb3, append_empty_r, Hf3, Hst2.
      * by rewrite Hf3, Hst2.
Qed.

Lemma CreateEmbeddingFile_summary_witness :
  let E := lab.third_call_fails in
  let lines := ["hello"; "there"; ""] in
  let w' := (embed.CreateEmbeddingFile E lines None embeddingModel empty_world).2 in
  let P := embed.unparsed lines in
  let F := embed.parsed_not_embedded E embeddingModel 0 lines in
  let rows := embed.embedded_rows E embeddingModel 0 lines in
  exists c logged,
    out w' = out empty_world ++ logged ++ embed.summary_output c ++ scanner_output None
    /\ embed.linesProcessed c = length lines
    /\ embed.parseFailures c = P
    /\ embed.embeddingFailures c = P + F
    /\ embed.successCount c + P + F + embed.writeFailures c = length lines
    /\ embed.successCount c = length lines - P - F - embed.writeFailures c
    /\ sink w' = sink empty_world ++ take (embed.successCount c) rows
    /\ (exists lost, csv_text rows = stream w' +:+ lost)
    /\ (embed.writeFailures c = 0 \/ exists e, stuck w' = Some e)
    /\ (healthy E ->
        embed.writeFailures c = 0
        /\ embed.successCount c = length lines - P - F
        /\ sink w' = sink empty_world ++ rows
        /\ stream w' = csv_text rows
        /\ file w' = csv_text rows).
Proof.
  exact (CreateEmbeddingFile_summary lab.third_call_fails ["hello"; "there"; ""] None
           embeddingModel empty_world eq_refl eq_refl).
Defined.

(** The same pass, evaluated: two of the three lines are embedded and
    written, and the file holds their two lines of 1536 fields. *)
Example CreateEmbeddingFile_writes_rows :
  let w' := (embed.CreateEmbeddingFile lab.third_call_fails ["hello"; "there"; ""] None
               embeddingModel empty_world).2 in
  sink w' = [repeat "0.250000" 1536; repeat "0.250000" 1536]
  /\ String.eqb (file w') (csv_text (sink w')) = true
  /\ Nat.eqb (String.length (file w')) (2 * (1536 * 9)) = true
  /\ buffered w' = "" /\ stuck w' = None
  /\ last (out w')
     = Some (Println [AStr "Process Summary: Lines Processed ="; AInt 3;
                      AStr ", Parse Failures ="; AInt 1;
                      AStr ", Embedding Failures ="; AInt 1;
                      AStr ", Write Failures ="; AInt 0;
                      AStr ", Successes ="; AInt 2]).
Proof. cbv zeta. split_and!; by vm_compute. Qed.

(** C1 as stated fails in three ways.  On a full disk: one line, parsed
    and embedded, so N = 1 and P = E = 0, yet the record of 1536 values
    overflows the buffer, [Write] returns the error of the file, and
    the summary counts no success.  On an empty line: the
    parse-failure branch does not leave the turn, the line is sent to
    the service as the empty message and, the service answering, is
    written and counted, so N = P = 1 and E = 0 with one success.  On
    a full disk with a record that fits into the buffer: [Write]
    returns [nil] and the line counts as a success, the deferred
    [Flush] meets the error of the file, which nothing reads, and the
    file stays empty: one success and no row written. *)
Lemma summary_is_not_N_minus_P_minus_E :
  (embed.unparsed ["hello"] = 0
   /\ embed.parsed_not_embedded lab.full_disk embeddingModel 0 ["hello"] = 0
   /\ out (embed.CreateEmbeddingFile lab.full_disk ["hello"] None embeddingModel
             empty_world).2
      = LogPrintf "Error writing record to CSV at line %d: %v\n"
          [AInt 1; AErr (ErrLib "write: no space left on device")]
        :: embed.summary_output
             {| embed.linesProcessed := 1; embed.parseFailures := 0;
                embed.embeddingFailures := 0; embed.writeFailures := 1;
                embed.successCount := 0 |}
   /\ sink (embed.CreateEmbeddingFile lab.full_disk ["hello"] None embeddingModel
              empty_world).2
      = []
   /\ 0 <> 1 - 0 - 0)
  /\ (embed.unparsed [""] = 1
      /\ embed.parsed_not_embedded lab.env embeddingModel 0 [""] = 0
      /\ out (embed.CreateEmbeddingFile lab.env [""] None embeddingModel empty_world).2
         = LogPrintf "Unable to parse line %d of length %d - skipping: Content: %s\n"
             [AInt 1; AInt 0; AStr ""]
           :: embed.summary_output
                {| embed.linesProcessed := 1; embed.parseFailures := 1;
                   embed.embeddingFailures := 0; embed.writeFailures := 0;
                   embed.successCount := 1 |}
      /\ sink (embed.CreateEmbeddingFile lab.env [""] None embeddingModel empty_world).2
         = [repeat "0.250000" 1536]
      /\ 1 <> 1 - 1 - 0)
  /\ (embed.unparsed ["hello"] = 0
      /\ embed.parsed_not_embedded lab.full_disk_short embeddingModel 0 ["hello"] = 0
      /\ out (embed.CreateEmbeddingFile lab.full_disk_short ["hello"] None embeddingModel
                empty_world).2
         = embed.summary_output
             {| embed.linesProcessed := 1; embed.parseFailures := 0;
                embed.embeddingFailures := 0; embed.writeFailures := 0;
                embed.successCount := 1 |}
      /\ (embed.CreateEmbeddingFile lab.full_disk_short ["hello"] None embeddingModel
            empty_world).1 = Some None
      /\ file (embed.CreateEmbeddingFile lab.full_disk_short ["hello"] None embeddingModel
                 empty_world).2 = ""
      /\ 1 = 1 - 0 - 0).
Proof. vm_compute. repeat split; discriminate. Qed.

(** * Further properties *)

(** ** The matcher and the line parser *)

(** The piece of a text between two offsets. *)
Lemma slice_middle (pre tok post : string) :
  slice (pre +:+ tok +:+ post) (String.length pre) (String.length pre + String.length tok)
  = tok.
Proof.
  unfold slice. replace (_ + _ - _) with (String.length tok) by lia.
  induction pre as [|x pre IH]; [|rewrite append_cons; exact IH].
  rewrite append_nil. cbn [String.length].
  induction tok as [|y tok IH]; [by destruct post|].
  rewrite append_cons. cbn [String.length substring]. by rewrite IH.
Qed.

Section MatcherSoundness.
Context {R : Type}.

(** Wherever a repetition hands over, it has consumed a run of its
    class. *)
Lemma star_greedy_some p (k : nat -> string -> option R) s pos r :
  star_greedy p pos s k = Some r ->
  exists run s', s = run +:+ s' /\ all_bytes p run = true
                 /\ k (pos + String.length run) s' = Some r.
Proof.
  revert pos. induction s as [|c s IH]; intros pos; simpl.
  - intros H. exists "", "". by rewrite Nat.add_0_r.
  - destruct (p c) eqn:Hc.
    + destruct (star_greedy p (S pos) s k) as [r'|] eqn:Hstar.
      * intros [= <-]. apply IH in Hstar as (run & s' & -> & Hrun & Hk).
        exists (String c run), s'. rewrite append_cons. cbn [all_bytes String.length].
        rewrite Hc, Hrun.
        replace (pos + S (String.length run)) with (S pos + String.length run) by lia.
        done.
      * intros H. exists "", (String c s). by rewrite Nat.add_0_r.
    + intros H. exists "", (String c s). by rewrite Nat.add_0_r.
Qed.

Lemma star_lazy_some p (k : nat -> string -> option R) s pos r :
  star_lazy p pos s k = Some r ->
  exists run s', s = run +:+ s' /\ all_bytes p run = true
                 /\ k (pos + String.length run) s' = Some r.
Proof.
  revert pos. induction s as [|c s IH]; intros pos; simpl.
  - destruct (k pos "") eqn:Hk; [|discriminate].
    intros [= <-]. exists "", "". by rewrite Nat.add_0_r.
  - destruct (k pos (String c s)) eqn:Hk.
    + intros [= <-]. exists "", (String c s). by rewrite Nat.add_0_r.
    + destruct (p c) eqn:Hc; [|discriminate].
      intros Hstar. apply IH in Hstar as (run & s' & -> & Hrun & Hk').
      exists (String c run), s'. rewrite append_cons. cbn [all_bytes String.length].
      rewrite Hc, Hrun.
      replace (pos + S (String.length run)) with (S pos + String.length run) by lia.
      done.
Qed.

(** A match hands over at an offset that agrees with what it has
    consumed. *)
Lemma exec_some r :
  forall pos s cap (k : nat -> string -> capture -> option R) res,
    exec r pos s cap k = Some res ->
    exists pre s' cap', s = pre +:+ s' /\ k (pos + String.length pre) s' cap' = Some res.
Proof.
  induction r as [|p|p|p|p|r1 IH1 r2 IH2|r1 IH1 r2 IH2|r1 IH1];
    intros pos s cap k res; cbn [exec].
  - destruct (Nat.eqb pos 0); [|discriminate].
    intros H. exists "", s, cap. by rewrite Nat.add_0_r.
  - destruct s as [|c s]; [discriminate|]. destruct (p c); [|discriminate].
    intros H. exists (String c ""), s, cap. simpl. by rewrite Nat.add_1_r.
  - intros H. apply star_greedy_some in H as (run & s' & -> & _ & Hk). by exists run, s', cap.
  - intros H. apply star_lazy_some in H as (run & s' & -> & _ & Hk). by exists run, s', cap.
  - destruct s as [|c s].
    + intros H. exists "", "", cap. by rewrite Nat.add_0_r.
    + destruct (p c).
      * destruct (k (S pos) s cap) eqn:Hk.
        -- intros [= <-]. exists (String c ""), s, cap. simpl. by rewrite Nat.add_1_r.
        -- intros H. exists "", (String c s), cap. by rewrite Nat.add_0_r.
      * intros H. exists "", (String c s), cap. by rewrite Nat.add_0_r.
  - intros H. apply IH1 in H as (pre1 & s1 & cap1 & -> & H).
    apply IH2 in H as (pre2 & s2 & cap2 & -> & H).
    exists (pre1 +:+ pre2), s2, cap2. rewrite append_assoc, length_append.
    by rewrite Nat.add_assoc.
  - destruct (exec r1 pos s cap k) eqn:H1.
    + intros [= <-]. by apply IH1 in H1.
    + intros H. by apply IH2 in H.
  - intros H. apply IH1 in H as (pre & s' & cap' & -> & H). by exists pre, s', (Some (pos, pos + String.length pre)).
Qed.

(** The group of the expression takes a non-empty run of non-blank
    bytes. *)
Lemma exec_token pos s cap (k : nat -> string -> capture -> option R) res :
  exec (Group re_token) pos s cap k = Some res ->
  exists tok s', s = tok +:+ s' /\ tok <> "" /\ all_bytes non_space tok = true
                 /\ k (pos + String.length tok) s' (Some (pos, pos + String.length tok))
                    = Some res.
Proof.
  cbn [exec re_token]. destruct s as [|c s]; [discriminate|].
  destruct (non_space c) eqn:Hc; [|discriminate].
  intros H. apply star_greedy_some in H as (run & s' & -> & Hrun & Hk).
  exists (String c run), s'. rewrite append_cons. cbn [all_bytes String.length].
  rewrite Hc, Hrun.
  replace (pos + S (String.length run)) with (S pos + String.length run) by lia.
  done.
Qed.
End MatcherSoundness.

Lemma match_at_re pos s e cap :
  match_at re pos s = Some (e, cap) ->
  exists pre tok s',
    s = pre +:+ tok +:+ s' /\ tok <> "" /\ all_bytes non_space tok = true
    /\ cap = Some (pos + String.length pre, pos + String.length pre + String.length tok).
Proof.
  unfold match_at, re. intros H.
  change (exec (Alt re_prefix Bol) pos s None
            (fun pos' s' cap' =>
               exec (Group re_token) pos' s' cap' (fun e _ cap => Some (e, cap)))
          = Some (e, cap)) in H.
  apply exec_some in H as (pre & s1 & cap1 & -> & H).
  apply exec_token in H as (tok & s' & -> & Hne & Htok & [= _ <-]).
  by exists pre, tok, s'.
Qed.

Lemma search_re s :
  forall pos b e cap,
    search re pos s = Some (b, e, cap) ->
    exists skipped pre tok s',
      s = skipped +:+ pre +:+ tok +:+ s' /\ b = pos + String.length skipped
      /\ tok <> "" /\ all_bytes non_space tok = true
      /\ cap = Some (b + String.length pre, b + String.length pre + String.length tok).
Proof.
  induction s as [|c s IH]; intros pos b e cap; cbn [search].
  - destruct (match_at re pos "") as [[e' cap']|] eqn:Hm; [|discriminate].
    intros [= <- <- <-]. apply match_at_re in Hm as (pre & tok & s' & Hs & Hne & Htok & ->).
    exists "", pre, tok, s'. rewrite append_nil, Nat.add_0_r. done.
  - destruct (match_at re pos (String c s)) as [[e' cap']|] eqn:Hm.
    + intros [= <- <- <-]. apply match_at_re in Hm as (pre & tok & s' & Hs & Hne & Htok & ->).
      exists "", pre, tok, s'. rewrite append_nil, Nat.add_0_r. done.
    + intros H. apply IH in H as (skipped & pre & tok & s' & -> & -> & Hne & Htok & ->).
      exists (String c skipped), pre, tok, s'. rewrite append_cons. cbn [String.length].
      replace (pos + S (String.length skipped)) with (S pos + String.length skipped) by lia.
      done.
Qed.

(** X1: whatever the line, the parser either reports a failure, with an
    empty message and no match, or hands on one token of the line: a
    non-empty piece of the line without any blank in it.  A message of
    several words never comes out, and [len(matches)] is never 3. *)
Theorem parse_line_token line :
  parse_line line = {| message := ""; parse_failed := true; matched := 0 |}
  \/ exists pre tok post,
       line = pre +:+ tok +:+ post /\ tok <> "" /\ all_bytes non_space tok = true
       /\ parse_line line = {| message := tok; parse_failed := false; matched := 2 |}.
Proof.
  unfold parse_line, FindStringSubmatch.
  destruct (search re 0 line) as [[[b e] cap]|] eqn:Hs; [|by left].
  right. apply search_re in Hs as (skipped & pre & tok & post & Hline & -> & Hne & Htok & ->).
  exists (skipped +:+ pre), tok, post. rewrite append_assoc. split_and!; try done.
  cbn [length Nat.eqb nth]. f_equal.
  rewrite Hline, <- (append_assoc skipped pre), Nat.add_0_l, <- length_append.
  apply slice_middle.
Qed.

(** X2: a line that begins with a byte other than a blank always
    parses; parse failures are confined to the lines that are empty or
    begin with a blank. *)
Theorem parse_line_succeeds line :
  starts_blank line = false -> parse_failed (parse_line line) = false.
Proof.
  destruct line as [|c rest]; [discriminate|]. cbn [starts_blank]. intros Hc.
  unfold parse_line, FindStringSubmatch. cbn [search].
  assert (exists r, match_at re 0 (String c rest) = Some r) as [[e cap] ->].
  { unfold match_at, re. cbn [exec].
    destruct (exec re_prefix 0 (String c rest) None _) as [r|]; [by eexists|].
    cbn [Nat.eqb re_token exec]. unfold non_space at 1. rewrite Hc. cbn [negb].
    rewrite (star_greedy_takes_all non_space (fun e => (e, Some (0, e)))). by eexists. }
  reflexivity.
Qed.

Lemma parse_line_succeeds_witness :
  parse_failed (parse_line "hi [a]: b") = false.
Proof. exact (parse_line_succeeds "hi [a]: b" eq_refl). Defined.

Section MatcherRuns.
Context {R : Type}.

(** A greedy repetition in front of a run of its class, with the rest
    of the expression matching behind the run. *)
Lemma star_greedy_run p (k : nat -> string -> option R) run s' pos r :
  all_bytes p run = true -> stops p s' = true ->
  k (pos + String.length run) s' = Some r ->
  star_greedy p pos (run +:+ s') k = Some r.
Proof.
  revert pos. induction run as [|c run IH]; intros pos Hrun Hstop Hk.
  - rewrite append_nil. cbn [String.length] in Hk. rewrite Nat.add_0_r in Hk.
    destruct s' as [|c s']; [exact Hk|]. cbn [star_greedy stops] in *.
    by destruct (p c).
  - rewrite append_cons. cbn [star_greedy all_bytes String.length] in *.
    apply andb_true_iff in Hrun as [-> Hrun].
    rewrite (IH (S pos)); [done..|].
    by replace (S pos + String.length run) with (pos + S (String.length run)) by lia.
Qed.

(** A lazy repetition over a run on which the rest of the expression
    cannot start. *)
Lemma star_lazy_run p q (k : nat -> string -> option R) run s' pos r :
  (forall pos' c s, q c = true -> k pos' (String c s) = None) ->
  all_bytes (fun c => p c && q c) run = true ->
  k (pos + String.length run) s' = Some r ->
  star_lazy p pos (run +:+ s') k = Some r.
Proof.
  intros Hq. revert pos. induction run as [|c run IH]; intros pos Hrun Hk.
  - rewrite append_nil. cbn [String.length] in Hk. rewrite Nat.add_0_r in Hk.
    destruct s'; cbn [star_lazy]; by rewrite Hk.
  - rewrite append_cons. cbn [star_lazy all_bytes String.length] in *.
    apply andb_true_iff in Hrun as [Hc Hrun]. apply andb_true_iff in Hc as [Hp Hqc].
    rewrite (Hq _ _ _ Hqc), Hp. apply IH; [done|].
    by replace (S pos + String.length run) with (pos + S (String.length run)) by lia.
Qed.
End MatcherRuns.

Lemma take_while_run p run s' :
  all_bytes p run = true -> stops p s' = true -> take_while p (run +:+ s') = run.
Proof.
  intros Hrun Hstop. induction run as [|c run IH].
  - rewrite append_nil. destruct s' as [|c s']; [reflexivity|].
    cbn [take_while stops] in *. by destruct (p c).
  - rewrite append_cons. cbn [take_while all_bytes] in *.
    apply andb_true_iff in Hrun as [-> Hrun]. by rewrite IH.
Qed.

(** The group on a token that ends where the text ends or a blank
    follows. *)
Lemma token_at pos token rest cap :
  token <> "" -> all_bytes non_space token = true -> stops non_space rest = true ->
  exec (Group re_token) pos (token +:+ rest) cap (fun e _ cap' => Some (e, cap'))
  = Some (pos + String.length token, Some (pos, pos + String.length token)).
Proof.
  intros Hne Htok Hstop. destruct token as [|c token]; [done|].
  rewrite append_cons. cbn [exec re_token all_bytes String.length] in *.
  apply andb_true_iff in Htok as [-> Htok].
  rewrite (star_greedy_takes_all non_space
             (fun e => (e, Some (pos, e)))).
  rewrite take_while_run by done. by rewrite Nat.add_succ_r.
Qed.

Lemma is_byte_refl a : is_byte a a = true.
Proof. unfold is_byte. apply Ascii.eqb_refl. Qed.

(** The part of the prefix behind the time stamp, in front of a token. *)
Lemma after_bracket_at pos sp1 sp2 (tilde : bool) token rest cap :
  all_bytes is_space sp1 = true -> all_bytes is_space sp2 = true ->
  token <> "" -> all_bytes non_space token = true ->
  stops (is_byte "~") token = true -> stops non_space rest = true ->
  let tl := if tilde then "~" else "" in
  let g := pos + 1 + String.length sp1 + 1 + String.length sp2 + String.length tl in
  exec re_after_bracket pos
    (String "]" (sp1 +:+ String ":" (sp2 +:+ tl +:+ token +:+ rest))) cap
    (fun pos' s' cap' => exec (Group re_token) pos' s' cap' (fun e _ c => Some (e, c)))
  = Some (g + String.length token, Some (g, g + String.length token)).
Proof.
  intros Hsp1 Hsp2 Hne Htok Htilde Hstop. cbv zeta.
  set (K := fun pos' s' cap' =>
              exec (Group re_token) pos' s' cap' (fun e _ c => Some (e, c))).
  assert (HK : forall pos', K pos' (token +:+ rest) cap
                 = Some (pos' + String.length token,
                         Some (pos', pos' + String.length token)))
    by (intros; apply token_at; done).
  clearbody K.
  unfold re_after_bracket. cbn [exec]. rewrite is_byte_refl.
  apply star_greedy_run; [done|reflexivity|]. rewrite is_byte_refl.
  apply star_greedy_run; [done| |].
  - destruct tilde; [reflexivity|]. rewrite append_nil.
    destruct token as [|c tok']; [done|]. rewrite append_cons.
    cbn [stops all_bytes] in *. apply andb_true_iff in Htok as [Hc _].
    unfold non_space in Hc. by rewrite Hc.
  - destruct tilde.
    + rewrite append_cons, append_nil, is_byte_refl.
      rewrite HK. cbn [String.length]. repeat (f_equal; try lia).
    + rewrite append_nil. destruct token as [|c tok']; [done|].
      rewrite append_cons. cbn [stops] in Htilde.
      apply negb_true_iff in Htilde. rewrite Htilde.
      rewrite <- append_cons, HK.
      cbn [String.length]. repeat (f_equal; try lia).
Qed.

(** X3: the shape the expression does recognise.  On a line made of a
    bracketed stamp, a colon right behind the closing bracket (blanks
    allowed on both sides of it), an optional tilde and a token, the
    parser hands on exactly that token. *)
Theorem parse_line_recognised stamp sp1 sp2 (tilde : bool) token rest :
  all_bytes (fun c => any_char c && negb (is_byte "]" c)) stamp = true ->
  all_bytes is_space sp1 = true -> all_bytes is_space sp2 = true ->
  token <> "" -> all_bytes non_space token = true ->
  stops (is_byte "~") token = true -> stops non_space rest = true ->
  parse_line ("[" +:+ stamp +:+ "]" +:+ sp1 +:+ ":" +:+ sp2
              +:+ (if tilde then "~" else "") +:+ token +:+ rest)
  = {| message := token; parse_failed := false; matched := 2 |}.
Proof.
  intros Hstamp Hsp1 Hsp2 Hne Htok Htilde Hstop.
  set (tl := if tilde then "~" else "").
  set (pre := "[" +:+ stamp +:+ "]" +:+ sp1 +:+ ":" +:+ sp2 +:+ tl).
  set (g := String.length pre).
  assert (Hline : "[" +:+ stamp +:+ "]" +:+ sp1 +:+ ":" +:+ sp2 +:+ tl +:+ token +:+ rest
                  = pre +:+ token +:+ rest).
  { unfold pre. repeat (rewrite append_cons || rewrite append_nil || rewrite append_assoc).
    reflexivity. }
  assert (Hm : match_at re 0 (pre +:+ token +:+ rest)
               = Some (g + String.length token, Some (g, g + String.length token))).
  { rewrite <- Hline.
    set (K := fun pos' s' cap' =>
                exec (Group re_token) pos' s' cap' (fun e _ c => Some (e, c))).
    set (L := "[" +:+ stamp +:+ "]" +:+ sp1 +:+ ":" +:+ sp2 +:+ tl +:+ token +:+ rest).
    change (match exec re_prefix 0 L None K with
            | Some r => Some r
            | None => exec Bol 0 L None K
            end = Some (g + String.length token, Some (g, g + String.length token))).
    assert (exec re_prefix 0 L None K
            = Some (g + String.length token, Some (g, g + String.length token))) as ->;
      [|reflexivity].
    unfold L.
    rewrite append_cons, append_nil. unfold re_prefix. cbn [exec].
    rewrite is_byte_refl.
    apply (star_lazy_run any_char (fun c => negb (is_byte "]" c))); [|done|].
    - intros pos' c s Hc. unfold re_after_bracket. cbn [exec].
      apply negb_true_iff in Hc. by rewrite Hc.
    - rewrite append_cons, append_nil, (append_cons ":" ""), append_nil.
      unfold K. rewrite (after_bracket_at _ sp1 sp2 tilde token rest None) by done.
      fold tl. unfold g, pre.
      rewrite !append_cons, !append_nil. cbn [String.length].
      repeat (rewrite length_append || cbn [String.length]).
      repeat (f_equal; try lia). }
  rewrite Hline. unfold parse_line, FindStringSubmatch. 
  assert (search re 0 (pre +:+ token +:+ rest)
          = Some (0, g + String.length token, Some (g, g + String.length token))) as ->.
  { destruct (pre +:+ token +:+ rest); cbn [search]; by rewrite Hm. }
  cbn [length Nat.eqb nth]. f_equal. apply slice_middle.
Qed.

Lemma parse_line_recognised_witness :
  parse_line ("[" +:+ "09.09.23, 14:35:02" +:+ "]" +:+ "" +:+ ":" +:+ " "
              +:+ "~" +:+ "Hello" +:+ " world!")
  = {| message := "Hello"; parse_failed := false; matched := 2 |}.
Proof.
  exact (parse_line_recognised "09.09.23, 14:35:02" "" " " true "Hello" " world!"
           eq_refl eq_refl eq_refl ltac:(discriminate) eq_refl eq_refl eq_refl).
Defined.

(** ** The embedding request *)

(** Replacing a byte leaves no such byte when the replacement has none. *)
Lemma ReplaceAll_clears p s old new :
  p old = false -> all_bytes p new = true ->
  (forall c, Ascii.eqb c old = false -> p c = true) ->
  all_bytes p (ReplaceAll s old new) = true.
Proof.
  intros Hold Hnew Hp. induction s as [|c s IH]; [reflexivity|].
  cbn [ReplaceAll]. rewrite all_bytes_append, IH, andb_true_r.
  destruct (Ascii.eqb c old) eqn:Hc; [exact Hnew|].
  cbn [all_bytes]. by rewrite (Hp c Hc).
Qed.

(** Replacing a byte keeps a class that holds the replacement. *)
Lemma ReplaceAll_keeps p s old new :
  all_bytes p s = true -> all_bytes p new = true ->
  all_bytes p (ReplaceAll s old new) = true.
Proof.
  intros Hs Hnew. induction s as [|c s IH]; [reflexivity|].
  cbn [ReplaceAll all_bytes] in *. apply andb_true_iff in Hs as [Hc Hs].
  rewrite all_bytes_append, (IH Hs), andb_true_r.
  destruct (Ascii.eqb c old); [exact Hnew|]. cbn [all_bytes]. by rewrite Hc.
Qed.

(** Replacing a byte that does not occur changes nothing. *)
Lemma ReplaceAll_absent s old new :
  all_bytes (fun c => negb (Ascii.eqb c old)) s = true -> ReplaceAll s old new = s.
Proof.
  induction s as [|c s IH]; [reflexivity|]. cbn [ReplaceAll all_bytes].
  intros H. apply andb_true_iff in H as [Hc Hs]. apply negb_true_iff in Hc.
  rewrite Hc, (IH Hs). reflexivity.
Qed.

(** X4: the body of an embedding request is a single line when the
    model name is one, whatever line feeds the text has; and a text
    without line feed and apostrophe reaches the body byte for byte,
    double quotes and backslashes included: nothing is escaped for
    JSON. *)
Theorem embedding_body_sanitised text model :
  (all_bytes any_char model = true ->
   all_bytes any_char (embed.embedding_body text model) = true)
  /\ (all_bytes (fun c => negb (Ascii.eqb c LF)) text = true ->
      all_bytes (fun c => negb (Ascii.eqb c "'")) text = true ->
      embed.embedding_body text model
      = "{" +:+ DQ +:+ "input" +:+ DQ +:+ ": [" +:+ DQ +:+ text +:+ DQ +:+ "], "
            +:+ DQ +:+ "model" +:+ DQ +:+ ": " +:+ DQ +:+ model +:+ DQ +:+ "}").
Proof.
  split.
  - intros Hmodel. unfold embed.embedding_body.
    assert (all_bytes any_char (ReplaceAll (ReplaceAll text LF " ") "'" "'\''") = true)
      as Htext.
    { apply ReplaceAll_keeps; [|reflexivity].
      apply ReplaceAll_clears; [reflexivity..|].
      intros c Hc. unfold any_char. by rewrite Hc. }
    rewrite !all_bytes_append, Htext, Hmodel. reflexivity.
  - intros Hlf Hq. unfold embed.embedding_body.
    rewrite (ReplaceAll_absent text LF) by done.
    by rewrite (ReplaceAll_absent text "'") by done.
Qed.

(** ** The embed pass, in every world *)

(** How the pass ends, after its loop. *)
Lemma CreateEmbeddingFile_end E lines scanErr model w :
  let loop := embed.embed_loop E model lines 0 embed.no_counts
                (writer_at "" "" None (writes w) w) in
  let run := embed.CreateEmbeddingFile E lines scanErr model w in
  run.1 = match scanErr with None => Some None | Some _ => None end
  /\ calls run.2 = calls loop.2 /\ sink run.2 = sink loop.2
  /\ out run.2 = out loop.2 ++ embed.summary_output loop.1 ++ scanner_output scanErr.
Proof.
  cbv zeta. unfold embed.CreateEmbeddingFile, bind, embed.fresh_file.
  destruct (embed.embed_loop E model lines 0 embed.no_counts _) as [c w1].
  world_simpl. destruct scanErr as [err|]; world_simpl.
  - unfold embed.summary_output, scanner_output. split_and!; try done.
    by rewrite <- !app_assoc.
  - pose proof (csv_Flush_run E
                  (printed [Println [AStr "Process Summary: Lines Processed =";
                                     AInt (Z.of_nat (embed.linesProcessed c));
                                     AStr ", Parse Failures =";
                                     AInt (Z.of_nat (embed.parseFailures c));
                                     AStr ", Embedding Failures =";
                                     AInt (Z.of_nat (embed.embeddingFailures c));
                                     AStr ", Write Failures =";
                                     AInt (Z.of_nat (embed.writeFailures c));
                                     AStr ", Successes =";
                                     AInt (Z.of_nat (embed.successCount c))]]
                     (printed [LogPrintf "Process Summary: Lines Processed=%d, Parse Failures=%d, Embedding Failures=%d, Write Failures=%d, Successes=%d"
                                 (embed.summary_args c)] w1))) as Hf.
    cbv zeta in Hf. destruct (csv_Flush E _) as [[] w3]. cbn [fst snd] in Hf.
    destruct Hf as (Hc3 & Ho3 & Hk3 & _). world_simpl.
    cbn [calls out sink printed] in Hc3, Ho3, Hk3.
    unfold embed.summary_output, scanner_output. rewrite app_nil_r.
    split_and!; try done. rewrite Ho3. by rewrite <- !app_assoc.
Qed.

(** X5: with the address of the service accepted, the embed pass sends
    one embedding request per line the scanner delivers, in the order
    of the lines, parsed or not (a line that fails to parse asks for
    the embedding of the empty text), and nothing else; it returns
    [nil] when the scanner has met no error, and ends the process
    through [log.Fatalf] when it has. *)
Theorem CreateEmbeddingFile_calls E lines scanErr model w :
  url_ok E embed.embeddingsURL = true ->
  calls (embed.CreateEmbeddingFile E lines scanErr model w).2
  = calls w
    ++ map (fun line => embed.embedding_request (message (parse_line line)) model) lines
  /\ (embed.CreateEmbeddingFile E lines scanErr model w).1
     = match scanErr with None => Some None | Some _ => None end.
Proof.
  intros Hurl.
  destruct (embed_loop_run E model Hurl lines 0 embed.no_counts
              (writer_at "" "" None (writes w) w)) as (k & logged & Hc & _).
  destruct (CreateEmbeddingFile_end E lines scanErr model w) as (Hr & Hc' & _).
  by rewrite Hc', Hc.
Qed.

Lemma CreateEmbeddingFile_calls_witness :
  calls (embed.CreateEmbeddingFile lab.env ["hello"; ""] (Some ErrTooLong) embeddingModel
           empty_world).2
  = calls empty_world
    ++ map (fun line => embed.embedding_request (message (parse_line line)) embeddingModel)
         ["hello"; ""]
  /\ (embed.CreateEmbeddingFile lab.env ["hello"; ""] (Some ErrTooLong) embeddingModel
        empty_world).1 = None.
Proof.
  exact (CreateEmbeddingFile_calls lab.env ["hello"; ""] (Some ErrTooLong) embeddingModel
           empty_world eq_refl).
Defined.

(** X6: in every world the counters of the logged summary add up:
    every line is processed; the parse failures are the unparsed
    lines; the embedding failures are all lines whose request fails,
    those of unparsed lines included; and each line is exactly one of
    success, embedding failure or write failure.  The sink grows by
    the successes. *)
Theorem CreateEmbeddingFile_accounts E lines scanErr model w :
  url_ok E embed.embeddingsURL = true ->
  let w' := (embed.CreateEmbeddingFile E lines scanErr model w).2 in
  exists c logged,
    out w' = out w ++ logged ++ embed.summary_output c ++ scanner_output scanErr
    /\ embed.linesProcessed c = length lines
    /\ embed.parseFailures c = embed.unparsed lines
    /\ embed.embeddingFailures c = embed.not_embedded E model (length (calls w)) lines
    /\ embed.successCount c + embed.embeddingFailures c + embed.writeFailures c
       = length lines
    /\ length (sink w') = length (sink w) + embed.successCount c.
Proof.
  intros Hurl. cbv zeta.
  destruct (embed_loop_run E model Hurl lines 0 embed.no_counts
              (writer_at "" "" None (writes w) w))
    as (k & logged & Hc & Ho & Hs & Hle & H1 & H2 & H3 & H4 & H5 & _).
  destruct (CreateEmbeddingFile_end E lines scanErr model w) as (_ & _ & Hs' & Ho').
  destruct (embed.embed_loop E model lines 0 embed.no_counts _) as [c w1].
  cbn [fst snd calls out sink writer_at embed.linesProcessed embed.parseFailures
       embed.embeddingFailures embed.writeFailures embed.successCount
       embed.no_counts] in *.
  pose proof (not_embedded_rows E model lines (length (calls w))) as Hall.
  exists c, logged. split_and!; try lia.
  - rewrite Ho', Ho, <- !app_assoc. reflexivity.
  - rewrite Hs', Hs, length_app, length_take. lia.
Qed.

Lemma CreateEmbeddingFile_accounts_witness :
  exists c logged,
    out (embed.CreateEmbeddingFile lab.third_call_fails ["hello"; ""; "there"] None
           embeddingModel empty_world).2
    = out empty_world ++ logged ++ embed.summary_output c ++ scanner_output None
    /\ embed.linesProcessed c = length ["hello"; ""; "there"]
    /\ embed.parseFailures c = embed.unparsed ["hello"; ""; "there"]
    /\ embed.embeddingFailures c
       = embed.not_embedded lab.third_call_fails embeddingModel
           (length (calls empty_world)) ["hello"; ""; "there"]
    /\ embed.successCount c + embed.embeddingFailures c + embed.writeFailures c
       = length ["hello"; ""; "there"]
    /\ length (sink (embed.CreateEmbeddingFile lab.third_call_fails ["hello"; ""; "there"]
                       None embeddingModel empty_world).2)
       = length (sink empty_world) + embed.successCount c.
Proof.
  exact (CreateEmbeddingFile_accounts lab.third_call_fails ["hello"; ""; "there"] None
           embeddingModel empty_world eq_refl).
Defined.

Lemma embedding_body_sanitised_witness :
  embed.embedding_body "say hi" embeddingModel
  = "{" +:+ DQ +:+ "input" +:+ DQ +:+ ": [" +:+ DQ +:+ "say hi" +:+ DQ +:+ "], "
        +:+ DQ +:+ "model" +:+ DQ +:+ ": " +:+ DQ +:+ embeddingModel +:+ DQ +:+ "}".
Proof.
  exact (proj2 (embedding_body_sanitised "say hi" embeddingModel) eq_refl eq_refl).
Defined.

(** ** The upsert pass, in every world *)

(** The inner loop keeps what [ParseFloat] returns for every field. *)
Lemma parse_values_values E valuesStr lineNumber w :
  (upsert.parse_values E valuesStr lineNumber w).1
  = map (fun v => (ParseFloat E v).1) valuesStr.
Proof.
  revert w. induction valuesStr as [|v rest IH]; intros w; [reflexivity|].
  cbn [upsert.parse_values map]. destruct (ParseFloat E v) as [value [err|]];
    unfold bind; world_simpl.
  - specialize (IH (printed [LogPrintf "Error parsing float value at line %d: %v"
                               [AInt (Z.of_nat lineNumber); AErr err]] w)).
    destruct (upsert.parse_values E rest lineNumber _) as [values w1].
    cbn [fst] in *. by rewrite IH.
  - specialize (IH w).
    destruct (upsert.parse_values E rest lineNumber w) as [values w1].
    cbn [fst] in *. by rewrite IH.
Qed.

Lemma parse_values_sink E valuesStr lineNumber w :
  sink (upsert.parse_values E valuesStr lineNumber w).2 = sink w.
Proof.
  revert w. induction valuesStr as [|v rest IH]; intros w; [reflexivity|].
  cbn [upsert.parse_values]. destruct (ParseFloat E v) as [value [err|]];
    unfold bind; world_simpl.
  - specialize (IH (printed [LogPrintf "Error parsing float value at line %d: %v"
                               [AInt (Z.of_nat lineNumber); AErr err]] w)).
    destruct (upsert.parse_values E rest lineNumber _) as [values w1]. exact IH.
  - specialize (IH w).
    destruct (upsert.parse_values E rest lineNumber w) as [values w1]. exact IH.
Qed.

(** The scanner loop, row by row. *)
Lemma upsert_loop_run E url rows :
  forall lineNumber t w,
    let r := upsert.upsert_loop E url rows lineNumber t w in
    r.1.1 = lineNumber + length rows
    /\ calls r.2 = calls w ++ vectors.write_calls E url lineNumber rows
    /\ upsert.successCount r.1.2
       = upsert.successCount t + vectors.upserted E url (length (calls w)) lineNumber rows
    /\ upsert.successCount r.1.2 + upsert.failCount r.1.2
       = upsert.successCount t + upsert.failCount t
         + length (vectors.write_calls E url lineNumber rows)
    /\ sink r.2 = sink w.
Proof.
  induction rows as [|line rest IH]; intros lineNumber t w; cbv zeta.
  - cbn [upsert.upsert_loop ret fst snd length vectors.write_calls vectors.upserted].
    rewrite app_nil_r. split_and!; lia || done.
  - cbn [upsert.upsert_loop length vectors.write_calls vectors.upserted].
    unfold bind, client_Do, vectors.sendable, vectors.row_values.
    pose proof (parse_values_calls E (Split line ",") (S lineNumber) w) as Hpc.
    pose proof (parse_values_sink E (Split line ",") (S lineNumber) w) as Hps.
    pose proof (parse_values_values E (Split line ",") (S lineNumber) w) as Hpv.
    destruct (upsert.parse_values E (Split line ",") (S lineNumber) w) as [values w1].
    cbn [fst snd] in Hpc, Hps, Hpv. rewrite <- Hpv, <- Hpc, <- Hps.
    unfold json_Marshal, http_NewRequest.
    destruct (marshal_ok _); cbn [andb];
      [destruct (url_ok E url);
       [fold (upsert.upsert_request url (S lineNumber) values);
        destruct (transport E _ _) as [resp|err];
        [cbn [vectors.accepted]; destruct (400 <=? _)%Z; cbn [negb]|]|]|];
      world_simpl;
      match goal with
      | |- context [upsert.upsert_loop E url rest ?ln ?t1 ?w2] =>
          destruct (IH ln t1 w2) as (H1 & H2 & H3 & H4 & H5)
      end;
      cbn [upsert.successCount upsert.failCount calls sink sent printed
           vectors.accepted] in *;
      rewrite ?length_app in *; cbn [length] in *; rewrite ?Nat.add_1_r in *;
      (split_and!;
       [lia | rewrite H2, <- ?app_assoc; reflexivity | lia | lia | done]).
Qed.

(** Neither loop takes back a line it has logged. *)
Lemma parse_values_out E valuesStr lineNumber w :
  exists logged, out (upsert.parse_values E valuesStr lineNumber w).2 = out w ++ logged.
Proof.
  revert w. induction valuesStr as [|v rest IH]; intros w.
  - exists []. by rewrite app_nil_r.
  - cbn [upsert.parse_values]. destruct (ParseFloat E v) as [value [err|]];
      unfold bind; world_simpl.
    + destruct (IH (printed [LogPrintf "Error parsing float value at line %d: %v"
                               [AInt (Z.of_nat lineNumber); AErr err]] w))
        as [logged Hout].
      destruct (upsert.parse_values E rest lineNumber _) as [values w1].
      cbn [snd out printed ret] in *. eexists. by rewrite Hout, <- app_assoc.
    + destruct (IH w) as [logged Hout].
      destruct (upsert.parse_values E rest lineNumber w) as [values w1]. by exists logged.
Qed.

Lemma upsert_loop_out E url rows :
  forall lineNumber t w,
    exists logged, out (upsert.upsert_loop E url rows lineNumber t w).2 = out w ++ logged.
Proof.
  induction rows as [|line rest IH]; intros lineNumber t w.
  - exists []. by rewrite app_nil_r.
  - cbn [upsert.upsert_loop]. unfold bind, client_Do.
    destruct (parse_values_out E (Split line ",") (S lineNumber) w) as [l0 Hpo].
    destruct (upsert.parse_values E (Split line ",") (S lineNumber) w) as [values w1].
    cbn [snd] in Hpo.
    destruct (json_Marshal _) as [doc|err];
      [destruct (http_NewRequest E "POST" url _) as [req|err];
       [destruct (transport E _ _) as [resp|err]; [destruct (400 <=? _)%Z|]|]|];
      world_simpl;
      match goal with
      | |- context [upsert.upsert_loop E url rest ?ln ?t1 ?w2] =>
          destruct (IH ln t1 w2) as [logged Hout]
      end;
      cbn [out sent printed] in *; rewrite Hout, Hpo, <- ?app_assoc; by eexists.
Qed.

(** X7: how [UpsertDataToPinecone] starts.  It sends the whoami request
    and nothing more when the transport fails or the body does not
    decode, returning that error; when the response decodes without a
    string under [project_name], the very case in which
    [getPcProjectID] returns its error, it panics, no write having
    been sent; only with a project name does it go on to the rows, and
    it then returns what [scanner.Err()] gives, [nil] when the file
    was read to its end. *)
Theorem UpsertDataToPinecone_whoami E idx path rows scanErr w :
  url_ok E whoamiURL = true ->
  let run := upsert.UpsertDataToPinecone E idx path rows scanErr w in
  match transport E (length (calls w)) main.whoami_request with
  | Err e => run.1 = Returns (Some e) /\ calls run.2 = calls w ++ [main.whoami_request]
  | Ok resp =>
      match Decode (decode_object E) resp with
      | Err e => run.1 = Returns (Some e) /\ calls run.2 = calls w ++ [main.whoami_request]
      | Ok result =>
          match result !! "project_name" with
          | Some (JStr pcProjectID) => run.1 = Returns scanErr
          | _ =>
              run.1 = Panics "interface conversion: interface {} is not string"
              /\ calls run.2 = calls w ++ [main.whoami_request]
              /\ (main.getPcProjectID E w).1
                 = Err (Errorf "project_name not found or is not a string")
          end
      end
  end.
Proof.
  intros Hurl. cbv zeta.
  unfold upsert.UpsertDataToPinecone, main.getPcProjectID, http_NewRequest.
  rewrite Hurl. unfold bind, client_Do. world_simpl. fold main.whoami_request.
  cbn [calls printed].
  destruct (transport E (length (calls w)) main.whoami_request) as [resp|e]; [|done].
  destruct (Decode (decode_object E) resp) as [result|e]; [|done].
  unfold assert_string, assert_string_ok.
  destruct (result !! "project_name") as [[]|]; try done.
  destruct (upsert.upsert_loop E _ rows 0 _ _) as [[ln t] w1].
  by destruct scanErr.
Qed.

Lemma UpsertDataToPinecone_whoami_witness :
  (upsert.UpsertDataToPinecone worlds.no_project indexName "f.csv" ["0.25"] None
     empty_world).1
  = Panics "interface conversion: interface {} is not string"
  /\ calls (upsert.UpsertDataToPinecone worlds.no_project indexName "f.csv" ["0.25"]
              None empty_world).2
     = calls empty_world ++ [main.whoami_request]
  /\ (main.getPcProjectID worlds.no_project empty_world).1
     = Err (Errorf "project_name not found or is not a string").
Proof.
  exact (UpsertDataToPinecone_whoami worlds.no_project indexName "f.csv" ["0.25"] None
           empty_world eq_refl).
Defined.

(** X8: with a project name, the pass sends, after the whoami request,
    one write request for each row the scanner delivers whose document
    encodes (every row when all values are finite), in the order of
    the rows and under the identifier of its line number, the values
    being whatever [ParseFloat] returned for the fields; the summary
    counts every row as a line, as successes the writes answered with
    a status under 400, and as failures the other writes.  Behind the
    summary the pass logs and returns the error of the scanner, if it
    has met one, and else returns [nil].  The CSV sink is not
    touched. *)
Theorem UpsertDataToPinecone_run E idx path rows scanErr w resp
    (result : gmap string jvalue) pcProjectID :
  url_ok E whoamiURL = true ->
  transport E (length (calls w)) main.whoami_request = Ok resp ->
  Decode (decode_object E) resp = Ok result ->
  result !! "project_name" = Some (JStr pcProjectID) ->
  let run := upsert.UpsertDataToPinecone E idx path rows scanErr w in
  let sends := vectors.write_calls E (upsert.upsertURL idx pcProjectID) 0 rows in
  let taken :=
    vectors.upserted E (upsert.upsertURL idx pcProjectID) (S (length (calls w))) 0 rows in
  run.1 = Returns scanErr
  /\ calls run.2 = calls w ++ main.whoami_request :: sends
  /\ taken <= length sends
  /\ sink run.2 = sink w
  /\ exists logged,
       out run.2
       = out w ++ Println [AStr "Upserting from: "; AStr path] :: logged
         ++ [LogPrintf "Process Summary: Lines Processed=%d, Upserted Successfully=%d, Failed=%d"
               [AInt (Z.of_nat (length rows)); AInt (Z.of_nat taken);
                AInt (Z.of_nat (length sends - taken))];
             Printf "Process Summary: Lines Processed=%d, Upserted Successfully=%d, Failed=%d\n"
               [AInt (Z.of_nat (length rows)); AInt (Z.of_nat taken);
                AInt (Z.of_nat (length sends - taken))]]
         ++ scanner_output scanErr.
Proof.
  intros Hurl Hreply Hdec Hname. cbv zeta.
  unfold upsert.UpsertDataToPinecone, http_NewRequest.
  rewrite Hurl. unfold bind, client_Do. world_simpl. fold main.whoami_request.
  cbn [calls printed]. rewrite Hreply, Hdec, Hname. cbn [assert_string].
  set (w0 := sent main.whoami_request
               (printed [Println [AStr "Upserting from: "; AStr path]] w)).
  set (t0 := {| upsert.successCount := 0; upsert.failCount := 0 |}).
  destruct (upsert_loop_run E (upsert.upsertURL idx pcProjectID) rows 0 t0 w0)
    as (H1 & H2 & H3 & H4 & H5).
  assert (exists logged,
             out (upsert.upsert_loop E (upsert.upsertURL idx pcProjectID) rows 0 t0 w0).2
             = out w0 ++ logged) as [logged Hout].
  { apply upsert_loop_out. }
  destruct (upsert.upsert_loop E (upsert.upsertURL idx pcProjectID) rows 0 t0 w0)
    as [[ln t] w1].
  cbn [fst snd upsert.successCount upsert.failCount t0 calls sink out w0 sent printed
       length] in *.
  rewrite length_app in H3. cbn [length] in H3. rewrite Nat.add_1_r in H3.
  assert (upsert.failCount t
          = length (vectors.write_calls E (upsert.upsertURL idx pcProjectID) 0 rows)
            - vectors.upserted E (upsert.upsertURL idx pcProjectID)
                (S (length (calls w))) 0 rows) as Hfail by lia.
  destruct scanErr as [err|]; world_simpl; cbn [scanner_output].
  - split_and!; [done | by rewrite H2, <- app_assoc | lia | done |].
    exists logged. rewrite Hout, <- !app_assoc. cbn [app]. unfold upsert.summary_args.
    cbn [upsert.successCount upsert.failCount]. by rewrite H1, H3, Hfail.
  - split_and!; [done | by rewrite H2, <- app_assoc | lia | done |].
    exists logged. rewrite Hout, <- !app_assoc. cbn [app]. unfold upsert.summary_args.
    cbn [upsert.successCount upsert.failCount]. by rewrite H1, H3, Hfail.
Qed.

Lemma UpsertDataToPinecone_run_witness :
  let rows := ["0.25,0.5"; "1e999"; "abc"] in
  let run := upsert.UpsertDataToPinecone lab.env indexName "f.csv" rows (Some ErrTooLong)
               empty_world in
  let sends := vectors.write_calls lab.env (upsert.upsertURL indexName "proj") 0 rows in
  let taken :=
    vectors.upserted lab.env (upsert.upsertURL indexName "proj")
      (S (length (calls empty_world))) 0 rows in
  run.1 = Returns (Some ErrTooLong)
  /\ calls run.2 = calls empty_world ++ main.whoami_request :: sends
  /\ taken <= length sends
  /\ sink run.2 = sink empty_world
  /\ exists logged,
       out run.2
       = out empty_world ++ Println [AStr "Upserting from: "; AStr "f.csv"] :: logged
         ++ [LogPrintf "Process Summary: Lines Processed=%d, Upserted Successfully=%d, Failed=%d"
               [AInt (Z.of_nat (length rows)); AInt (Z.of_nat taken);
                AInt (Z.of_nat (length sends - taken))];
             Printf "Process Summary: Lines Processed=%d, Upserted Successfully=%d, Failed=%d\n"
               [AInt (Z.of_nat (length rows)); AInt (Z.of_nat taken);
                AInt (Z.of_nat (length sends - taken))]]
         ++ scanner_output (Some ErrTooLong).
Proof.
  exact (UpsertDataToPinecone_run lab.env indexName "f.csv" ["0.25,0.5"; "1e999"; "abc"]
           (Some ErrTooLong) empty_world (lab.ok_response "{}")
           {[ "project_name" := JStr "proj" ]} "proj"
           eq_refl eq_refl eq_refl eq_refl).
Defined.

(** The rows the witness above speaks of: the first and the third are
    written, under the numbers of their lines; the second holds an
    infinity and is not. *)
Example write_calls_of_three_rows :
  vectors.write_calls lab.env (upsert.upsertURL indexName "proj") 0
    ["0.25,0.5"; "1e999"; "abc"]
  = [upsert.upsert_request (upsert.upsertURL indexName "proj") 1 [0.25%float; 0.5%float];
     upsert.upsert_request (upsert.upsertURL indexName "proj") 3 [0%float]].
Proof. reflexivity. Qed.

(** Line numbers print to different texts. *)
Lemma Sprintf_d_inj a b : Sprintf_d a = Sprintf_d b -> a = b.
Proof.
  unfold Sprintf_d. intros H.
  assert (forall n, Nat.to_uint n <> Decimal.Nil) as Hnil.
  { intros n. rewrite <- (Unsigned.of_to n) at 1. rewrite Unsigned.to_of.
    apply DecimalFacts.unorm_nonnil. }
  apply (f_equal NilZero.uint_of_string) in H.
  rewrite !NilZero.usu in H by apply Hnil.
  injection H as H. by apply Unsigned.to_uint_inj.
Qed.

Lemma vector_id_inj a b : vectors.vector_id a = vectors.vector_id b -> a = b.
Proof.
  unfold vectors.vector_id. intros H. apply Sprintf_d_inj.
  by apply (inj (String.append "vector_id_")) in H.
Qed.

(** The identifiers of the write requests of a file are those of line
    numbers above the lines read before. *)
Lemma write_calls_ids E url rows :
  forall lineNumber id,
    id ∈ omap vectors.upsert_id (vectors.write_calls E url lineNumber rows) ->
    exists k, lineNumber < k <= lineNumber + length rows /\ id = vectors.vector_id k.
Proof.
  induction rows as [|line rest IH]; intros lineNumber id; cbn [vectors.write_calls].
  - intros H. by apply elem_of_nil in H.
  - rewrite omap_app, elem_of_app. intros [H|H].
    + destruct (vectors.sendable E url (S lineNumber) line); cbn in H.
      * apply list_elem_of_singleton in H as ->. exists (S lineNumber).
        cbn [length]. split; [lia|reflexivity].
      * by apply elem_of_nil in H.
    + apply IH in H as (k & Hk & ->). exists k. cbn [length]. split; [lia|reflexivity].
Qed.

Lemma write_calls_ids_distinct E url rows :
  forall lineNumber,
    NoDup (omap vectors.upsert_id (vectors.write_calls E url lineNumber rows)).
Proof.
  induction rows as [|line rest IH]; intros lineNumber; cbn [vectors.write_calls].
  - constructor.
  - rewrite omap_app.
    destruct (vectors.sendable E url (S lineNumber) line); cbn; [|apply IH].
    constructor; [|apply IH].
    intros Hin. apply write_calls_ids in Hin as (k & Hk & Heq).
    apply vector_id_inj in Heq. lia.
Qed.

(** X9: in any run of [UpsertDataToPinecone], whatever the world, the
    write requests sent carry pairwise distinct identifiers, each the
    text [vector_id_k] of a line number [k] of the file. *)
Theorem UpsertDataToPinecone_ids E idx path rows scanErr w :
  let new := drop (length (calls w))
               (calls (upsert.UpsertDataToPinecone E idx path rows scanErr w).2) in
  NoDup (omap vectors.upsert_id new)
  /\ forall id, id ∈ omap vectors.upsert_id new ->
       exists k, 1 <= k <= length rows /\ id = vectors.vector_id k.
Proof.
  cbv zeta.
  assert (omap vectors.upsert_id
            (drop (length (calls w))
               (calls (upsert.UpsertDataToPinecone E idx path rows scanErr w).2)) = []
          \/ exists url,
               omap vectors.upsert_id
                 (drop (length (calls w))
                    (calls (upsert.UpsertDataToPinecone E idx path rows scanErr w).2))
               = omap vectors.upsert_id (vectors.write_calls E url 0 rows)) as [->|[url ->]].
  { unfold upsert.UpsertDataToPinecone, http_NewRequest, bind, client_Do. world_simpl.
    destruct (url_ok E whoamiURL); world_simpl; [|left; by rewrite drop_all].
    cbn [calls printed]. fold main.whoami_request.
    destruct (transport E _ _) as [resp|e];
      [destruct (Decode _ resp) as [result|e];
       [destruct (assert_string _) as [pid|why]|]|];
      world_simpl; try (left; by rewrite drop_app_length).
    right. exists (upsert.upsertURL idx pid).
    set (w0 := sent main.whoami_request _).
    set (t0 := {| upsert.successCount := 0; upsert.failCount := 0 |}).
    destruct (upsert_loop_run E (upsert.upsertURL idx pid) rows 0 t0 w0)
      as (_ & H2 & _).
    destruct (upsert.upsert_loop E _ rows 0 t0 w0) as [[ln t] w1].
    cbn [snd] in H2. destruct scanErr; world_simpl; rewrite H2; unfold w0;
      cbn [calls sent printed]; rewrite <- app_assoc, drop_app_length; reflexivity. }
  - split; [constructor|]. intros id H. by apply elem_of_nil in H.
  - split; [apply write_calls_ids_distinct|].
    intros id H. apply write_calls_ids in H as (k & Hk & ->). exists k. split; [lia|done].
Qed.

(** ** The query path, in every world *)

(** The requests of a [queryPinecone] that returns its matches. *)
Lemma queryPinecone_sends E idx text pid w found w' :
  main.queryPinecone E idx text pid w = (Ok found, w') ->
  exists queryVector,
    (embed.GetEmbedding E text embeddingModel w).1 = Ok queryVector
    /\ queryVector <> []
    /\ calls w'
       = calls w
         ++ [embed.embedding_request text embeddingModel;
             main.query_request idx pid queryVector]
         ++ map (fun m => main.fetch_request idx pid (ID m)) found
    /\ sink w' = sink w.
Proof.
  unfold main.queryPinecone, bind.
  destruct (url_ok E embed.embeddingsURL) eqn:Hurl.
  - rewrite GetEmbedding_run by done. cbn [fst].
    destruct (embed.embedding_reply E (length (calls w)) text embeddingModel)
      as [v|e] eqn:Hv; [|discriminate].
    destruct (json_Marshal _) as [doc|e] eqn:Hdoc; [|discriminate].
    unfold json_Marshal in Hdoc. destruct (marshal_ok _); [|discriminate].
    injection Hdoc as <-.
    unfold http_NewRequest. destruct (url_ok E (main.queryURL idx pid)); [|discriminate].
    unfold client_Do. fold (main.query_request idx pid v).
    destruct (transport E _ _) as [resp|e]; [|discriminate].
    destruct (Decode _ resp) as [body|e]; [|discriminate].
    destruct (main.fetch_range E idx pid (Matches body) _) as [[e|] w3] eqn:Hrange;
      [discriminate|].
    intros [= <- <-]. exists v. split_and!.
    + reflexivity.
    + unfold embed.embedding_reply, embed.read_embedding in Hv.
      destruct (transport E _ _) as [r|]; [|discriminate].
      destruct (Decode _ r) as [[|[|x l] d]|]; try discriminate.
      by injection Hv as <-.
    + apply fetch_range_sends in Hrange. rewrite Hrange. cbn [calls sent].
      by rewrite <- !app_assoc.
    + clear -Hrange.
      change (sink w) with (sink (sent (main.query_request idx pid v)
                                    (sent (embed.embedding_request text embeddingModel) w))).
      revert Hrange.
      generalize (sent (main.query_request idx pid v)
                    (sent (embed.embedding_request text embeddingModel) w)). induction (Matches body) as [|m rest IH]; intros w0.
      * by intros [= <-].
      * cbn [main.fetch_range]. unfold bind.
        destruct (main.fetch_turn E idx pid m w0) as [[local|err] w1] eqn:Hturn;
          [|discriminate].
        intros Hrest. apply IH in Hrest. rewrite Hrest. clear -Hturn.
        unfold main.fetch_turn, http_NewRequest, bind, client_Do in Hturn.
        destruct (url_ok E _); [|discriminate].
        destruct (transport E _ _) as [resp|]; [|discriminate].
        destruct (Decode _ resp) as [fr|]; [|discriminate].
        destruct (Vectors fr !! ID m); by injection Hturn as _ <-.
  - unfold embed.GetEmbedding, http_NewRequest. rewrite Hurl. discriminate.
Qed.

(** X10: a successful [queryPinecone] has obtained a non-empty
    embedding of the query text and has sent, in this order, the
    embedding request, the similarity query carrying that embedding,
    and one fetch for every match it returns; it writes nothing to the
    sink. *)
Theorem queryPinecone_calls E idx text pid w found w' :
  main.queryPinecone E idx text pid w = (Ok found, w') ->
  exists queryVector,
    (embed.GetEmbedding E text embeddingModel w).1 = Ok queryVector
    /\ queryVector <> []
    /\ calls w'
       = calls w
         ++ [embed.embedding_request text embeddingModel;
             main.query_request idx pid queryVector]
         ++ map (fun m => main.fetch_request idx pid (ID m)) found
    /\ sink w' = sink w.
Proof. apply queryPinecone_sends. Qed.

Lemma queryPinecone_calls_witness :
  exists queryVector,
    (embed.GetEmbedding lab.env "hello" embeddingModel empty_world).1 = Ok queryVector
    /\ queryVector <> []
    /\ calls (main.queryPinecone lab.env indexName "hello" "proj" empty_world).2
       = calls empty_world
         ++ [embed.embedding_request "hello" embeddingModel;
             main.query_request indexName "proj" queryVector]
         ++ map (fun m => main.fetch_request indexName "proj" (ID m)) [lab.found]
    /\ sink (main.queryPinecone lab.env indexName "hello" "proj" empty_world).2
       = sink empty_world.
Proof.
  exact (queryPinecone_calls lab.env indexName "hello" "proj" empty_world [lab.found]
           (main.queryPinecone lab.env indexName "hello" "proj" empty_world).2 eq_refl).
Defined.

(** ** The interactive loop, over its whole input *)

(** A display loop that runs to its end has sent one fetch per match. *)
Lemma display_range_sends E idx pid range :
  forall w w',
    main.display_range E idx pid range w = (None, w') ->
    calls w' = calls w ++ map (fun m => main.display_request idx pid (ID m)) range.
Proof.
  induction range as [|m rest IH]; intros w w'.
  - intros [= <-]. by rewrite app_nil_r.
  - cbn [main.display_range map]. unfold bind.
    destruct (main.display_turn E idx pid m w) as [[err|] w1] eqn:Hturn; [discriminate|].
    intros Hrest. apply IH in Hrest. rewrite Hrest.
    assert (calls w1 = calls w ++ [main.display_request idx pid (ID m)]) as ->.
    { clear -Hturn. unfold main.display_turn, http_NewRequest, bind, client_Do in Hturn.
      destruct (url_ok E _); [|discriminate]. revert Hturn. world_simpl.
      fold (main.display_request idx pid (ID m)).
      destruct (transport E _ _) as [resp|]; [|discriminate]. world_simpl.
      destruct (Decode _ resp) as [fr|]; [|discriminate].
      destruct (Vectors fr !! ID m); world_simpl; by intros [= <-]. }
    by rewrite <- app_assoc.
Qed.

(** X11: the loop returns [nil] only when one of its inputs is [end]
    (trimmed and lowered); on an input without it the loop ends in an
    error, that of the end of the input or that of a display fetch. *)
Theorem prompt_nil_needs_end E idx pid input :
  forall w,
    (main.promptUserAndQueryPinecone E idx pid input w).1 = None ->
    exists line, line ∈ input /\ ToLower E (TrimSpace E line) = "end".
Proof.
  induction input as [|line rest IH]; intros w.
  - cbn [main.promptUserAndQueryPinecone]. unfold bind. world_simpl. discriminate.
  - destruct (String.eqb (ToLower E (TrimSpace E line)) "end") eqn:Hend.
    + intros _. exists line. split; [left|]. by apply String.eqb_eq.
    + rewrite prompt_turn by done.
      destruct (main.queryPinecone E idx (TrimSpace E line) pid _) as [[found|err] w2].
      * destruct (main.display_range E idx pid found w2) as [[err|] w3]; [discriminate|].
        intros H. apply IH in H as (l & Hl & Hend'). exists l. split; [by right|done].
      * intros H. apply IH in H as (l & Hl & Hend'). exists l. split; [by right|done].
Qed.

Lemma prompt_nil_needs_end_witness :
  exists line, line ∈ ["hello"; "END"] /\ ToLower lab.env (TrimSpace lab.env line) = "end".
Proof.
  exact (prompt_nil_needs_end lab.env indexName "proj" ["hello"; "END"] empty_world eq_refl).
Defined.

(** X12: what stands behind an [end] in the input is never read: the
    result and the world are those of the input cut off after it. *)
Theorem prompt_ignores_input_after_end E idx pid line rest :
  ToLower E (TrimSpace E line) = "end" ->
  forall before w,
    main.promptUserAndQueryPinecone E idx pid (before ++ line :: rest) w
    = main.promptUserAndQueryPinecone E idx pid (before ++ [line]) w.
Proof.
  intros Hend. induction before as [|first before IH]; intros w.
  - cbn [app main.promptUserAndQueryPinecone]. unfold bind. by rewrite Hend.
  - cbn [app]. destruct (String.eqb (ToLower E (TrimSpace E first)) "end") eqn:Hfirst.
    + cbn [main.promptUserAndQueryPinecone]. unfold bind. by rewrite Hfirst.
    + rewrite !prompt_turn by done.
      destruct (main.queryPinecone E idx (TrimSpace E first) pid _) as [[found|err] w2].
      * destruct (main.display_range E idx pid found w2) as [[err|] w3]; [done|apply IH].
      * apply IH.
Qed.

Lemma prompt_ignores_input_after_end_witness :
  main.promptUserAndQueryPinecone lab.env indexName "proj"
    (["hello"] ++ "end" :: ["never"; "read"]) empty_world
  = main.promptUserAndQueryPinecone lab.env indexName "proj" (["hello"] ++ ["end"])
      empty_world.
Proof.
  exact (prompt_ignores_input_after_end lab.env indexName "proj" "end" ["never"; "read"]
           eq_refl ["hello"] empty_world).
Defined.

(** X13: a turn that succeeds fetches every match twice: after the
    embedding request and the similarity query, [queryPinecone] sends
    one fetch per match, and the display loop then sends one more per
    match; the loop goes on from there with the next input. *)
Theorem prompt_turn_calls E idx pid line rest w found w2 w3 :
  String.eqb (ToLower E (TrimSpace E line)) "end" = false ->
  main.queryPinecone E idx (TrimSpace E line) pid (printed [main.prompt] w) = (Ok found, w2) ->
  main.display_range E idx pid found w2 = (None, w3) ->
  (exists queryVector,
     calls w3
     = calls w
       ++ [embed.embedding_request (TrimSpace E line) embeddingModel;
           main.query_request idx pid queryVector]
       ++ map (fun m => main.fetch_request idx pid (ID m)) found
       ++ map (fun m => main.display_request idx pid (ID m)) found)
  /\ main.promptUserAndQueryPinecone E idx pid (line :: rest) w
     = main.promptUserAndQueryPinecone E idx pid rest w3.
Proof.
  intros Hgo Hquery Hdisplay. split.
  - apply queryPinecone_sends in Hquery as (v & _ & _ & Hcalls & _).
    apply display_range_sends in Hdisplay. exists v.
    rewrite Hdisplay, Hcalls. cbn [calls printed]. by rewrite <- !app_assoc.
  - rewrite prompt_turn by done. by rewrite Hquery, Hdisplay.
Qed.

Lemma prompt_turn_calls_witness :
  (exists queryVector,
     calls (main.display_range lab.env indexName "proj" [lab.found]
              (main.queryPinecone lab.env indexName (TrimSpace lab.env "hello") "proj"
                 (printed [main.prompt] empty_world)).2).2
     = calls empty_world
       ++ [embed.embedding_request (TrimSpace lab.env "hello") embeddingModel;
           main.query_request indexName "proj" queryVector]
       ++ map (fun m => main.fetch_request indexName "proj" (ID m)) [lab.found]
       ++ map (fun m => main.display_request indexName "proj" (ID m)) [lab.found])
  /\ main.promptUserAndQueryPinecone lab.env indexName "proj" ("hello" :: ["end"])
       empty_world
     = main.promptUserAndQueryPinecone lab.env indexName "proj" ["end"]
         (main.display_range lab.env indexName "proj" [lab.found]
            (main.queryPinecone lab.env indexName (TrimSpace lab.env "hello") "proj"
               (printed [main.prompt] empty_world)).2).2.
Proof.
  exact (prompt_turn_calls lab.env indexName "proj" "hello" ["end"] empty_world
           [lab.found] _ _ eq_refl eq_refl eq_refl).
Defined.

(** ** The driver *)

(** The part in front of [os.Open] is that of the whole function. *)
Lemma UpsertDataToPinecone_whoami_first E idx path rows scanErr w :
  upsert.UpsertDataToPinecone E idx path rows scanErr w
  = let (r, w1) := driver.upsert_whoami E path w in
    match r with
    | Panics why => (Panics why, w1)
    | Returns (Err err) => (Returns (Some err), w1)
    | Returns (Ok pcProjectID) =>
        let (r', w2) :=
          upsert.upsert_loop E (upsert.upsertURL idx pcProjectID) rows 0
            {| upsert.successCount := 0; upsert.failCount := 0 |} w1 in
        (Returns scanErr,
         printed
           ([LogPrintf "Process Summary: Lines Processed=%d, Upserted Successfully=%d, Failed=%d"
               (upsert.summary_args r'.1 r'.2);
             Printf "Process Summary: Lines Processed=%d, Upserted Successfully=%d, Failed=%d\n"
               (upsert.summary_args r'.1 r'.2)]
            ++ scanner_output scanErr) w2)
    end.
Proof.
  unfold upsert.UpsertDataToPinecone, driver.upsert_whoami, bind. world_simpl.
  destruct (http_NewRequest E "GET" whoamiURL NoBody) as [req|err]; [|reflexivity].
  destruct (client_Do E _ _) as [[resp|err] w1]; [|reflexivity].
  destruct (Decode _ resp) as [result|err]; [|reflexivity].
  destruct (assert_string _) as [pid|why]; [|reflexivity].
  world_simpl.
  destruct (upsert.upsert_loop E _ rows 0 _ w1) as [[ln t] w2].
  destruct scanErr; world_simpl; by rewrite !printed_printed.
Qed.

(** The suffixed name is never the name itself. *)
Lemma suffixed_differs name suffix : driver.suffixed name suffix <> name.
Proof.
  unfold driver.suffixed. intros H. apply (f_equal String.length) in H.
  rewrite !length_append in H. cbn [String.length] in H. lia.
Qed.

(** The embed pass touches the suffixed path only. *)
Lemma CreateEmbeddingFile_on_keeps E files input name model suffix w path :
  path <> driver.suffixed name suffix ->
  (driver.CreateEmbeddingFile_on E files input name model suffix w).1.2 !! path
  = files !! path.
Proof.
  intros Hpath. unfold driver.CreateEmbeddingFile_on.
  destruct (<[driver.suffixed name suffix:=[]]> files !! input) as [content|].
  - destruct (embed.CreateEmbeddingFile E _ _ model w) as [err w'].
    cbn [fst snd]. by rewrite !lookup_insert_ne.
  - unfold bind. world_simpl. cbn [fst snd]. by rewrite lookup_insert_ne.
Qed.

Lemma embed_action_keeps E files input name suffix w path :
  path <> driver.suffixed name suffix ->
  (driver.embed_action E files input name suffix w).1.2 !! path = files !! path.
Proof.
  intros Hpath. unfold driver.embed_action, bind.
  pose proof (CreateEmbeddingFile_on_keeps E files input name
                embeddingModel suffix w path Hpath) as Hkeep.
  destruct (driver.CreateEmbeddingFile_on E files input name
              embeddingModel suffix w) as [[[[err|]|] files'] w'];
    cbn [fst snd] in *; world_simpl; exact Hkeep.
Qed.

(** The pass on a file that takes every write: every embedded line is
    accepted, and what was handed to the writers is the CSV text of
    their records, all of it in the file when the function returns. *)
Lemma CreateEmbeddingFile_healthy E lines scanErr model w :
  url_ok E embed.embeddingsURL = true ->
  healthy E ->
  let w' := (embed.CreateEmbeddingFile E lines scanErr model w).2 in
  let rows := embed.embedded_rows E model (length (calls w)) lines in
  sink w' = sink w ++ rows
  /\ stream w' = csv_text rows
  /\ match scanErr with
     | None => file w' = csv_text rows
     | Some _ => True
     end.
Proof.
  intros Hurl Hh. cbv zeta.
  pose proof (embed_loop_run E model Hurl lines 0 embed.no_counts
                (writer_at "" "" None (writes w) w)) as Hrun.
  cbv zeta in Hrun.
  unfold embed.CreateEmbeddingFile, bind, embed.fresh_file.
  destruct (embed.embed_loop E model lines 0 embed.no_counts _) as [c w1].
  cbn [fst snd] in Hrun.
  destruct Hrun as (k & logged & _ & _ & Hk & Hle & _ & _ & _ & _ & _ & _ & _ & Hon & Hhe).
  cbn [calls sink stuck writer_at] in *.
  specialize (Hon eq_refl). specialize (Hhe Hh eq_refl).
  change (stream (writer_at "" "" None (writes w) w)) with "" in Hon.
  rewrite !append_nil in Hon.
  destruct Hon as [(_ & Hs1 & Hstream) | (Hlt & _)]; [|lia].
  rewrite Hhe, firstn_all in Hk.
  world_simpl.
  set (w2 := printed _ (printed _ w1)).
  assert (sink w2 = sink w1 /\ stuck w2 = stuck w1 /\ stream w2 = stream w1)
    as (Hk2 & Hs2 & Hst2) by done.
  clearbody w2.
  destruct scanErr as [err|]; world_simpl.
  - split_and!; [by rewrite Hk2 | by rewrite <- Hstream, <- Hst2 | done].
  - pose proof (csv_Flush_run E w2) as Hf. cbv zeta in Hf.
    destruct (csv_Flush E w2) as [[] w3]. cbn [fst snd] in Hf. world_simpl.
    destruct Hf as (_ & _ & Hk3 & _ & _ & Hh3).
    rewrite <- Hs2 in Hs1. destruct (Hh3 Hh Hs1) as (Hs3 & Hb3 & Hf3).
    split_and!.
    + by rewrite Hk3, Hk2.
    + unfold stream at 1. by rewrite Hb3, append_empty_r, Hf3, Hst2.
    + by rewrite Hf3, Hst2.
Qed.

(** X14: the embed pass and its files, the input file being another
    file than the one it writes.  The pass touches one path only, the
    embeddings name with the time suffix: the file under the embeddings
    name itself is left as it was, whatever the pass does.  When the
    input file is there, the pass is that of [CreateEmbeddingFile] on
    what the scanner delivers of it, and the suffixed file holds the
    bytes that have reached it by the end; when moreover the address
    of the service is accepted, the file takes every write and the
    scanner meets no error, the pass returns [nil] and these bytes are
    the CSV text of the records of the embedded lines, in the order of
    the lines.  When the input file is missing the process exits with
    the suffixed file created, empty, and no request sent. *)
Theorem CreateEmbeddingFile_on_files E files input name model suffix w :
  input <> driver.suffixed name suffix ->
  let run := driver.CreateEmbeddingFile_on E files input name model suffix w in
  let target := driver.suffixed name suffix in
  run.1.2 !! name = files !! name
  /\ (forall path, path <> target -> run.1.2 !! path = files !! path)
  /\ match files !! input with
     | Some content =>
         let pass :=
           embed.CreateEmbeddingFile E (Scan content).1 (Scan content).2 model w in
         run.1.1 = pass.1 /\ run.2 = pass.2
         /\ run.1.2 !! target = Some (driver.file_lines (file run.2))
         /\ (url_ok E embed.embeddingsURL = true -> healthy E ->
             (Scan content).2 = None ->
             run.1.1 = Some None
             /\ file run.2
                = csv_text (embed.embedded_rows E model (length (calls w))
                              (Scan content).1))
     | None =>
         run.1.1 = None /\ calls run.2 = calls w /\ run.1.2 !! target = Some []
     end.
Proof.
  intros Hinput. cbv zeta. split_and!.
  - apply CreateEmbeddingFile_on_keeps. intros H. by apply (suffixed_differs name suffix).
  - intros path Hpath. by apply CreateEmbeddingFile_on_keeps.
  - unfold driver.CreateEmbeddingFile_on.
    rewrite lookup_insert_ne by done.
    destruct (files !! input) as [content|].
    + pose proof (CreateEmbeddingFile_healthy E (Scan content).1 (Scan content).2 model w)
        as Hhealthy.
      pose proof (CreateEmbeddingFile_end E (Scan content).1 (Scan content).2 model w)
        as Hend.
      cbv zeta in Hhealthy, Hend.
      destruct (embed.CreateEmbeddingFile E _ _ model w) as [r w'].
      cbn [fst snd] in *. split_and!; [done | done | by rewrite lookup_insert_eq |].
      intros Hurl Hh Hscan. destruct (Hhealthy Hurl Hh) as (_ & _ & Hfile).
      destruct Hend as (Hr & _). rewrite Hscan in Hfile, Hr. done.
    + unfold bind. world_simpl. cbn [fst snd]. split_and!; [done..|].
      by rewrite lookup_insert_eq.
Qed.

Lemma CreateEmbeddingFile_on_files_witness :
  let files : gmap string (list string) :=
    {[ driver.heFileToEmbedPath := ["hello"; ""]; driver.heEmbeddedCSVPath := ["0.5"] ]} in
  let run := driver.CreateEmbeddingFile_on lab.env files
               driver.heFileToEmbedPath driver.heEmbeddedCSVPath embeddingModel
               "11-02-15-04" empty_world in
  let target := driver.suffixed driver.heEmbeddedCSVPath "11-02-15-04" in
  run.1.2 !! driver.heEmbeddedCSVPath = files !! driver.heEmbeddedCSVPath
  /\ (forall path, path <> target -> run.1.2 !! path = files !! path)
  /\ match files !! driver.heFileToEmbedPath with
     | Some content =>
         let pass :=
           embed.CreateEmbeddingFile lab.env (Scan content).1 (Scan content).2
             embeddingModel empty_world in
         run.1.1 = pass.1 /\ run.2 = pass.2
         /\ run.1.2 !! target = Some (driver.file_lines (file run.2))
         /\ (url_ok lab.env embed.embeddingsURL = true -> healthy lab.env ->
             (Scan content).2 = None ->
             run.1.1 = Some None
             /\ file run.2
                = csv_text (embed.embedded_rows lab.env embeddingModel
                              (length (calls empty_world)) (Scan content).1))
     | None =>
         run.1.1 = None /\ calls run.2 = calls empty_world /\ run.1.2 !! target = Some []
     end.
Proof.
  apply (CreateEmbeddingFile_on_files lab.env
           {[ driver.heFileToEmbedPath := ["hello"; ""]; driver.heEmbeddedCSVPath := ["0.5"] ]}
           driver.heFileToEmbedPath driver.heEmbeddedCSVPath embeddingModel
           "11-02-15-04" empty_world).
  vm_compute. discriminate.
Defined.

(** X15: an upsert action that follows an embed action reads the
    vector file as it was before the embed action: what the embed
    action has just written is not what it upserts. *)
Theorem upsert_after_embed E files input name suffix w :
  input <> driver.suffixed name suffix ->
  let after := (driver.embed_action E files input name suffix w).1.2 in
  driver.UpsertDataToPinecone_on E after indexName name
  = driver.UpsertDataToPinecone_on E files indexName name.
Proof.
  intros _. cbv zeta. unfold driver.UpsertDataToPinecone_on.
  rewrite embed_action_keeps; [reflexivity|].
  intros H. by apply (suffixed_differs name suffix).
Qed.

Lemma upsert_after_embed_witness :
  let files : gmap string (list string) :=
    {[ driver.heFileToEmbedPath := ["hello"; ""]; driver.heEmbeddedCSVPath := ["0.5"] ]} in
  let after :=
    (driver.embed_action lab.env files driver.heFileToEmbedPath
       driver.heEmbeddedCSVPath "11-02-15-04" empty_world).1.2 in
  driver.UpsertDataToPinecone_on lab.env after indexName driver.heEmbeddedCSVPath
  = driver.UpsertDataToPinecone_on lab.env files indexName driver.heEmbeddedCSVPath.
Proof.
  apply (upsert_after_embed lab.env
           {[ driver.heFileToEmbedPath := ["hello"; ""]; driver.heEmbeddedCSVPath := ["0.5"] ]}
           driver.heFileToEmbedPath driver.heEmbeddedCSVPath "11-02-15-04" empty_world).
  vm_compute. discriminate.
Defined.

(** X16: only the language [he] runs anything.  Any other answer, [en]
    included, which the prompt offers and whose paths are the initial
    ones, ends [main] after the three lines of the dialogue: no action
    is executed, no request sent, no file touched. *)
Theorem main_unknown_language E Fields typed stamps sessions files w :
  Fields (TrimSpace E (hd "" typed)) <> [] ->
  TrimSpace E (hd "" (tl typed)) <> "he" ->
  driver.main E Fields typed stamps sessions files w
  = ((driver.Returned, files),
     printed
       [Println [AStr "What is the action? Options are: embed/upsert/query"];
        Print [AStr "Choose language (en/he): "];
        Println [AStr "Unknown language. Please specify 'en' or 'he'."]] w).
Proof.
  intros Hactions Hlang. unfold driver.main, bind. world_simpl.
  assert ((driver.ReadString typed).1 = hd "" typed
          /\ (driver.ReadString (driver.ReadString typed).2).1 = hd "" (tl typed))
    as [H1 H2] by (destruct typed as [|? [|? ?]]; done).
  destruct (driver.ReadString typed) as [action typed1]. cbn [fst snd] in *. subst action.
  destruct (Fields (TrimSpace E (hd "" typed))) as [|act rest]; [done|].
  cbn [length Nat.eqb]. world_simpl.
  destruct (driver.ReadString typed1) as [lang typed2]. cbn [fst] in H2. subst lang.
  apply String.eqb_neq in Hlang. rewrite Hlang. world_simpl.
  by rewrite !printed_printed.
Qed.

Lemma main_unknown_language_witness :
  driver.main lab.env String.words ["embed upsert"; "en"] [] [] ∅
    empty_world
  = ((driver.Returned, ∅),
     printed
       [Println [AStr "What is the action? Options are: embed/upsert/query"];
        Print [AStr "Choose language (en/he): "];
        Println [AStr "Unknown language. Please specify 'en' or 'he'."]] empty_world).
Proof.
  apply (main_unknown_language lab.env String.words
           ["embed upsert"; "en"] [] [] ∅ empty_world).
  - vm_compute. discriminate.
  - vm_compute. discriminate.
Defined.

(** X17: the vector file is opened only after the whoami exchange.
    When that exchange does not yield a project name, the outcome of
    the upsert pass is the same whether the file is there or not, and
    whatever it holds. *)
Theorem upsert_opens_file_after_whoami E files files' idx path w :
  (forall pcProjectID, (driver.upsert_whoami E path w).1 <> Returns (Ok pcProjectID)) ->
  driver.UpsertDataToPinecone_on E files idx path w
  = driver.UpsertDataToPinecone_on E files' idx path w.
Proof.
  intros Hwho.
  assert (forall fs, driver.UpsertDataToPinecone_on E fs idx path w
                     = driver.UpsertDataToPinecone_on E ∅ idx path w) as Hsame.
  { intros fs. unfold driver.UpsertDataToPinecone_on. rewrite lookup_empty.
    destruct (fs !! path) as [rows|]; [|reflexivity].
    unfold bind. rewrite UpsertDataToPinecone_whoami_first.
    destruct (driver.upsert_whoami E path w) as [[[pid|err]|why] w1]; cbn [fst] in Hwho.
    - by destruct (Hwho pid).
    - reflexivity.
    - reflexivity. }
  by rewrite (Hsame files), (Hsame files').
Qed.

Lemma upsert_opens_file_after_whoami_witness :
  driver.UpsertDataToPinecone_on worlds.no_project ∅ indexName "f.csv" empty_world
  = driver.UpsertDataToPinecone_on worlds.no_project {[ "f.csv" := ["0.25"] ]} indexName
      "f.csv" empty_world.
Proof.
  apply (upsert_opens_file_after_whoami worlds.no_project ∅ {[ "f.csv" := ["0.25"] ]}
           indexName "f.csv" empty_world).
  intros pcProjectID. vm_compute. discriminate.
Defined.

(** X18: an action that is none of [embed], [upsert] and [query] ends
    the run: the actions typed behind it are never looked at. *)
Theorem run_actions_stops_at_unknown E before act after input name
    stamps sessions files w :
  act <> "embed" -> act <> "upsert" -> act <> "query" ->
  driver.run_actions E (before ++ act :: after) input name stamps sessions files w
  = driver.run_actions E (before ++ [act]) input name stamps sessions files w.
Proof.
  intros He Hu Hq. apply String.eqb_neq in He, Hu, Hq.
  revert stamps sessions files w.
  induction before as [|b before IH]; intros stamps sessions files w.
  - cbn [app driver.run_actions]. by rewrite He, Hu, Hq.
  - cbn [app driver.run_actions]. unfold bind.
    destruct (String.eqb b "embed").
    { destruct (driver.embed_action E files input name (hd "" stamps) w)
        as [[[|e] files1] w1]; [apply IH|reflexivity]. }
    destruct (String.eqb b "upsert").
    { destruct (driver.upsert_action E files input name w) as [[|e] w1];
        [apply IH|reflexivity]. }
    destruct (String.eqb b "query").
    { destruct (driver.query_action E (hd [] sessions) w) as [[|e] w1];
        [apply IH|reflexivity]. }
    reflexivity.
Qed.

Lemma run_actions_stops_at_unknown_witness :
  driver.run_actions lab.env ([] ++ "embd" :: ["upsert"; "query"])
    driver.heFileToEmbedPath driver.heEmbeddedCSVPath [] [] ∅ empty_world
  = driver.run_actions lab.env ([] ++ ["embd"])
      driver.heFileToEmbedPath driver.heEmbeddedCSVPath [] [] ∅ empty_world.
Proof.
  apply (run_actions_stops_at_unknown lab.env [] "embd"
           ["upsert"; "query"] driver.heFileToEmbedPath driver.heEmbeddedCSVPath
           [] [] ∅ empty_world); discriminate.
Defined.
